(** * diskinfo-webui: the disk usage collector and its size formatter

    A shallow embedding of [humanReadableSize], [contains] and
    [gatherDiskInfo] (package main), with the statements of the
    specification proved against it.

    Go's [uint64], [int64] and [int] are integers of [Z] with the
    wrap-around written out; [float64] is IEEE 754 binary64 as given by
    [SpecFloat] (53 bits of precision, rounding to nearest even); strings
    are [String.string]. The operating system (gopsutil's [disk] package)
    and [filepath.Join] are parameters of the collector. *)

From Stdlib Require Import ZArith List String Ascii Bool Lia.
From Stdlib Require Import DecimalString.
From Stdlib Require Import SpecFloat.
Import ListNotations.

Local Open Scope string_scope.
Local Open Scope Z_scope.

(** ** Machine integers *)

Module Int.

Definition uint64_max : Z := 2 ^ 64 - 1.

(** The values a Go [uint64] holds. *)
Definition is_uint64 (z : Z) : Prop := 0 <= z <= uint64_max.

(** Two's complement wrap-around of a signed 64-bit result ([int64], and
    [int] on a 64-bit target). *)
Definition wrap_int64 (z : Z) : Z := (z + 2 ^ 63) mod 2 ^ 64 - 2 ^ 63.

End Int.

(** ** float64 *)

Module F64.

Definition prec : Z := 53.
Definition emax : Z := 1024.

Definition float64 := spec_float.

Definition add : float64 -> float64 -> float64 := SFadd prec emax.
Definition sub : float64 -> float64 -> float64 := SFsub prec emax.
Definition mul : float64 -> float64 -> float64 := SFmul prec emax.
Definition div : float64 -> float64 -> float64 := SFdiv prec emax.

(** Go's [==] and [<=] on float64: false as soon as a NaN is involved. *)
Definition eqb : float64 -> float64 -> bool := SFeqb.
Definition leb : float64 -> float64 -> bool := SFleb.

(** The conversions [float64(x)] of an integer: the nearest float, ties
    to even. *)
Definition of_Z (z : Z) : float64 := binary_normalize prec emax z 0 false.

(** The constant [100], and its mantissa [25 * 2 ^ 48]. *)
Definition hundred : float64 := Eval cbv in of_Z 100.

Definition hundred_mantissa : positive := 7036874417766400.

Definition zero : float64 := S754_zero false.

(** What the operating system layer can put in a float64 field: the
    finite values are the normalised ones. *)
Definition valid (x : float64) : bool := valid_binary prec emax x.

End F64.

(** ** fmt.Sprintf, as far as the program uses it *)

Module Fmt.

(** [%d] of an integer. *)
Definition verb_d (z : Z) : string := NilZero.string_of_int (Z.to_int z).

(** Nearest integer to [num / den], ties to the even one ([den > 0]). *)
Definition round_half_even (num den : Z) : Z :=
  let q := num / den in
  let r := num mod den in
  match 2 * r ?= den with
  | Lt => q
  | Gt => q + 1
  | Eq => if Z.even q then q else q + 1
  end.

(** The number of tenths [%.1f] prints for the magnitude [m * 2^e]:
    strconv converts the binary value to decimal exactly and rounds the
    decimal to one fractional digit, halfway cases to even. *)
Definition tenths (m : positive) (e : Z) : Z :=
  match e with
  | Zneg p => round_half_even (10 * Zpos m) (2 ^ Zpos p)
  | _ => 10 * Zpos m * 2 ^ e
  end.

Definition sign_prefix (s : bool) : string := if s then "-" else "".

(** [%.1f] of a float64. *)
Definition verb_f1 (x : F64.float64) : string :=
  match x with
  | S754_nan => "NaN"
  | S754_infinity s => if s then "-Inf" else "+Inf"
  | S754_zero s => sign_prefix s ++ "0.0"
  | S754_finite s m e =>
      let t := tenths m e in
      sign_prefix s ++ verb_d (t / 10) ++ "." ++ verb_d (t mod 10)
  end.

(** [%c] of a byte of an ASCII string. *)
Definition verb_c (c : ascii) : string := String c EmptyString.

End Fmt.

(** ** Results of a Go function that may panic *)

Inductive outcome (A : Type) : Type :=
| Ok (a : A)
| Panic (msg : string)
| OutOfFuel.

Arguments Ok {A} a.
Arguments Panic {A} msg.
Arguments OutOfFuel {A}.

(** ** humanReadableSize *)

Definition unit : Z := 1024.

(** The unit letters, indexed by [exp]. *)
Definition unit_letters : string := "KMGTPE".

(** [for n := size / unit; n >= unit; n /= unit { div *= unit; exp++ }]:
    the state is [(n, div, exp)], with [n] a uint64, [div] an int64 and
    [exp] an int; the result is the [(div, exp)] the loop leaves. *)
Fixpoint size_loop (fuel : nat) (n div exp : Z) : option (Z * Z) :=
  if n >=? unit then
    match fuel with
    | O => None
    | S fuel' =>
        size_loop fuel' (n / unit) (Int.wrap_int64 (div * unit))
          (Int.wrap_int64 (exp + 1))
    end
  else Some (div, exp).

(** [s[i]] for an int index: out of range panics. *)
Definition index_string (s : string) (i : Z) : outcome ascii :=
  if (i <? 0) || (Z.of_nat (String.length s) <=? i)
  then Panic "index out of range"
  else match String.get (Z.to_nat i) s with
       | Some c => Ok c
       | None => Panic "index out of range"
       end.

(** A uint64 has 64 bits and every turn of the loop drops ten of them. *)
Definition loop_fuel : nat := 64.

(** [humanReadableSize converts a size in bytes to a human-readable
    string] *)
Definition humanReadableSize (size : Z) : outcome string :=
  if size <? unit then Ok (Fmt.verb_d size ++ " B")
  else
    match size_loop loop_fuel (size / unit) unit 0 with
    | None => OutOfFuel
    | Some (div, exp) =>
        match index_string unit_letters exp with
        | Ok c =>
            Ok (Fmt.verb_f1 (F64.div (F64.of_Z size) (F64.of_Z div))
                ++ " " ++ Fmt.verb_c c ++ "B")
        | Panic msg => Panic msg
        | OutOfFuel => OutOfFuel
        end
    end.

(** ** The operating system interface (gopsutil's disk package) *)

Module disk.

(** The fields of [disk.PartitionStat] the program reads. *)
Record PartitionStat : Type := {
  Device : string;
  Mountpoint : string;
  Fstype : string
}.

(** The fields of [disk.UsageStat] the program reads. *)
Record UsageStat : Type := {
  Total : Z;
  Used : Z;
  Free : Z;
  UsedPercent : F64.float64
}.

(** [Total], [Used] and [Free] are uint64 fields. *)
Definition usage_in_range (u : UsageStat) : Prop :=
  Int.is_uint64 (Total u) /\ Int.is_uint64 (Used u) /\ Int.is_uint64 (Free u).

End disk.

(** A Go [error], as the message [%v] prints. *)
Definition error := string.

(** ** DiskInfo *)

(** [DiskInfo holds information about a disk partition]; the field [Type]
    is [Type_] here. *)
Record DiskInfo : Type := {
  Device : string;
  Size : Z;
  Used : Z;
  Free : Z;
  Type_ : string;
  HumanSize : string;
  HumanUsed : string;
  HumanFree : string;
  UsedPercent : F64.float64;
  FreePercent : F64.float64
}.

(** ** Effects: what a call does besides returning *)

Inductive event : Type :=
| PartitionsCall (all : bool)
| UsageCall (path : string)
| LogPrintf (line : string).

(** A computation returns or panics, and leaves the events it performed
    in order. *)
Definition M (A : Type) : Type := (outcome A * list event)%type.

Definition ret {A} (a : A) : M A := (Ok a, []).

Definition bind {A B} (m : M A) (k : A -> M B) : M B :=
  match m with
  | (Ok a, t) => let '(r, t') := k a in (r, (t ++ t')%list)
  | (Panic msg, t) => (Panic msg, t)
  | (OutOfFuel, t) => (OutOfFuel, t)
  end.

Definition lift {A} (o : outcome A) : M A := (o, []).

Definition emit (e : event) : M Datatypes.unit := (Ok tt, [e]).

Declare Scope go_scope.
Delimit Scope go_scope with go.
Notation "x <- m ;; k" := (bind m (fun x => k))
  (at level 61, m at next level, right associativity) : go_scope.
Notation "m ;;; k" := (bind m (fun _ => k))
  (at level 61, right associativity) : go_scope.

(** The usage queries among the events, in order. *)
Definition usage_calls (t : list event) : list string :=
  flat_map (fun e => match e with UsageCall p => [p] | _ => [] end) t.

(** ** contains *)

(** [contains checks if a slice contains a specific string] *)
Fixpoint contains (slice : list string) (item : string) : bool :=
  match slice with
  | [] => false
  | s :: rest => if String.eqb s item then true else contains rest item
  end.

(** ** gatherDiskInfo *)

Section Collector.

(** [disk.PartitionsWithContext(ctx, all)]. *)
Variable disk_Partitions : bool -> list disk.PartitionStat * option error.

(** [disk.Usage(path)]: a sample, or no sample and an error. *)
Variable disk_Usage : string -> disk.UsageStat + error.

(** [filepath.Join]. *)
Variable filepath_Join : string -> string -> string.

Variable ignoreTypes : list string.
Variable hostProc : string.

Definition log_Printf (line : string) : M Datatypes.unit := emit (LogPrintf line).

Definition call_Usage (path : string) : M (disk.UsageStat + error) :=
  bind (emit (UsageCall path)) (fun _ => ret (disk_Usage path)).

Definition call_Partitions (all : bool)
  : M (list disk.PartitionStat * option error) :=
  bind (emit (PartitionsCall all)) (fun _ => ret (disk_Partitions all)).

(** The literal [DiskInfo{...}] appended for a partition and its sample. *)
Definition new_DiskInfo (p : disk.PartitionStat) (usage : disk.UsageStat)
  : M DiskInfo :=
  (let usedPercent := disk.UsedPercent usage in
   let freePercent := F64.sub F64.hundred (disk.UsedPercent usage) in
   humanSize <- lift (humanReadableSize (disk.Total usage)) ;;
   humanUsed <- lift (humanReadableSize (disk.Used usage)) ;;
   humanFree <- lift (humanReadableSize (disk.Free usage)) ;;
   ret {| Device := disk.Device p;
          Size := disk.Total usage;
          Used := disk.Used usage;
          Free := disk.Free usage;
          Type_ := disk.Fstype p;
          HumanSize := humanSize;
          HumanUsed := humanUsed;
          HumanFree := humanFree;
          UsedPercent := usedPercent;
          FreePercent := freePercent |})%go.

(** One turn of [for _, p := range partitions]: the new value of
    [diskInfos]; a [continue] leaves it as it is. *)
Definition loop_body (p : disk.PartitionStat) (diskInfos : list DiskInfo)
  : M (list DiskInfo) :=
  (if String.eqb (disk.Mountpoint p) "" then
     log_Printf ("Partition " ++ disk.Device p
                 ++ " has no mountpoint, skipping") ;;;
     ret diskInfos
   else
     r <- call_Usage (filepath_Join hostProc (disk.Mountpoint p)) ;;
     match r with
     | inr err =>
         log_Printf ("Error getting usage for " ++ disk.Mountpoint p
                     ++ ": " ++ err) ;;;
         ret diskInfos
     | inl usage =>
         if disk.Total usage =? 0 then
           log_Printf ("Partition " ++ disk.Mountpoint p
                       ++ " has total size 0, skipping") ;;;
           ret diskInfos
         else if contains ignoreTypes (disk.Fstype p) then
           log_Printf ("Partition " ++ disk.Mountpoint p ++ " with type "
                       ++ disk.Fstype p
                       ++ " is in ignore list, skipping") ;;;
           ret diskInfos
         else
           di <- new_DiskInfo p usage ;;
           ret (diskInfos ++ [di])%list
     end)%go.

Fixpoint range_partitions (partitions : list disk.PartitionStat)
    (diskInfos : list DiskInfo) : M (list DiskInfo) :=
  match partitions with
  | [] => ret diskInfos
  | p :: rest =>
      (diskInfos' <- loop_body p diskInfos ;;
       range_partitions rest diskInfos')%go
  end.

(** [gatherDiskInfo collects disk information, ignoring specified types] *)
Definition gatherDiskInfo : M (list DiskInfo) :=
  (r <- call_Partitions true ;;
   match r with
   | (_, Some err) =>
       log_Printf ("Error retrieving partitions: " ++ err) ;;;
       ret []
   | (partitions, None) => range_partitions partitions []
   end)%go.

End Collector.

(** ** The earlier revision of the collector *)

(** [gatherDiskInfo(ignoreTypes)], before the host path and the checks
    came in: the errors of the two disk calls are dropped and the mount
    point is not looked at. [disk.Usage] returns a nil sample with its
    error, and reading [usage.Total] through it panics. *)
Module Earlier.

Section Collector.

Variable disk_Partitions : bool -> list disk.PartitionStat * option error.
Variable disk_Usage : string -> disk.UsageStat + error.
Variable ignoreTypes : list string.

(** [usage.Total] and the like, through the pointer [disk.Usage] gave. *)
Definition deref (r : disk.UsageStat + error) : M disk.UsageStat :=
  match r with
  | inl usage => ret usage
  | inr _ =>
      (Panic "invalid memory address or nil pointer dereference", [])
  end.

Definition loop_body (p : disk.PartitionStat) (diskInfos : list DiskInfo)
  : M (list DiskInfo) :=
  (r <- call_Usage disk_Usage (disk.Mountpoint p) ;;
   usage <- deref r ;;
   if disk.Total usage =? 0 then ret diskInfos
   else if contains ignoreTypes (disk.Fstype p) then ret diskInfos
   else
     di <- new_DiskInfo p usage ;;
     ret (diskInfos ++ [di])%list)%go.

Fixpoint range_partitions (partitions : list disk.PartitionStat)
    (diskInfos : list DiskInfo) : M (list DiskInfo) :=
  match partitions with
  | [] => ret diskInfos
  | p :: rest =>
      (diskInfos' <- loop_body p diskInfos ;;
       range_partitions rest diskInfos')%go
  end.

Definition gatherDiskInfo : M (list DiskInfo) :=
  (r <- call_Partitions disk_Partitions true ;;
   range_partitions (fst r) [])%go.

End Collector.

End Earlier.

(** ** What the collector is expected to emit *)

(** The record [d] is the literal [gatherDiskInfo] appends for the
    partition [p] and its usage sample [u]. *)
Definition emitted (p : disk.PartitionStat) (u : disk.UsageStat)
    (d : DiskInfo) : Prop :=
  Device d = disk.Device p /\
  Type_ d = disk.Fstype p /\
  Size d = disk.Total u /\
  Used d = disk.Used u /\
  Free d = disk.Free u /\
  humanReadableSize (disk.Total u) = Ok (HumanSize d) /\
  humanReadableSize (disk.Used u) = Ok (HumanUsed d) /\
  humanReadableSize (disk.Free u) = Ok (HumanFree d) /\
  UsedPercent d = disk.UsedPercent u /\
  FreePercent d = F64.sub F64.hundred (disk.UsedPercent u).

(** The two percentages of the record [d] are from 0 to 100 and sum to
    100, exactly, in float64 arithmetic. *)
Definition sums_to_hundred (d : DiskInfo) : Prop :=
  F64.add (UsedPercent d) (FreePercent d) = F64.hundred /\
  F64.eqb (F64.add (UsedPercent d) (FreePercent d)) F64.hundred = true /\
  F64.leb F64.zero (UsedPercent d) = true /\
  F64.leb (UsedPercent d) F64.hundred = true /\
  F64.leb F64.zero (FreePercent d) = true /\
  F64.leb (FreePercent d) F64.hundred = true.

(** The partitions that pass the four checks of the loop. *)
Definition survives (disk_Usage : string -> disk.UsageStat + error)
    (filepath_Join : string -> string -> string)
    (ignoreTypes : list string) (hostProc : string)
    (p : disk.PartitionStat) : bool :=
  negb (String.eqb (disk.Mountpoint p) "") &&
  match disk_Usage (filepath_Join hostProc (disk.Mountpoint p)) with
  | inl u => negb (disk.Total u =? 0)
             && negb (contains ignoreTypes (disk.Fstype p))
  | inr _ => false
  end.

(** Every sample the operating system hands out has uint64 sizes. *)
Definition usage_samples_in_range
    (disk_Usage : string -> disk.UsageStat + error) : Prop :=
  forall path u, disk_Usage path = inl u -> disk.usage_in_range u.

(** A turn of the loop that skips [p]: it returns the slice as it was,
    with the events [t]. *)
Definition skipped (disk_Usage : string -> disk.UsageStat + error)
    (filepath_Join : string -> string -> string)
    (ignoreTypes : list string) (hostProc : string)
    (p : disk.PartitionStat) (t : list event) : Prop :=
  forall diskInfos,
    loop_body disk_Usage filepath_Join ignoreTypes hostProc p diskInfos
    = (Ok diskInfos, t).

(** The operating system whose enumeration succeeds with [partitions]. *)
Definition enumerates (partitions : list disk.PartitionStat)
  : bool -> list disk.PartitionStat * option error :=
  fun _ => (partitions, None).

(** A valid partition, in the words of the specification: a mount point
    that is not empty, a usage query that succeeds and a total size that is
    not zero. *)
Definition valid_partition (disk_Usage : string -> disk.UsageStat + error)
    (filepath_Join : string -> string -> string) (hostProc : string)
    (p : disk.PartitionStat) : bool :=
  negb (String.eqb (disk.Mountpoint p) "") &&
  match disk_Usage (filepath_Join hostProc (disk.Mountpoint p)) with
  | inl u => negb (disk.Total u =? 0)
  | inr _ => false
  end.

(** ** A machine to run the collector on *)

Module Fixture.

(** [filepath.Join] on a directory and an absolute path with nothing to
    clean: the two, one after the other. *)
Definition Join (dir name : string) : string := dir ++ name.

Definition hostProc : string := "/proc".

Definition root : disk.PartitionStat :=
  {| disk.Device := "/dev/sda1"; disk.Mountpoint := "/mnt/root";
     disk.Fstype := "ext4" |}.

Definition stale : disk.PartitionStat :=
  {| disk.Device := "server:/export"; disk.Mountpoint := "/mnt/nfs";
     disk.Fstype := "nfs" |}.

Definition unmounted : disk.PartitionStat :=
  {| disk.Device := "/dev/sdb1"; disk.Mountpoint := "";
     disk.Fstype := "ext4" |}.

Definition pseudo : disk.PartitionStat :=
  {| disk.Device := "proc"; disk.Mountpoint := "/mnt/proc";
     disk.Fstype := "proc" |}.

Definition shm : disk.PartitionStat :=
  {| disk.Device := "tmpfs"; disk.Mountpoint := "/mnt/shm";
     disk.Fstype := "tmpfs" |}.

(** A file system of 100 bytes, 50 of them used, 40 free for the user and
    10 reserved; the percentage is the one gopsutil reports, of the used
    bytes among the used and the free ones. *)
Definition root_usage : disk.UsageStat :=
  {| disk.Total := 100; disk.Used := 50; disk.Free := 40;
     disk.UsedPercent :=
       F64.mul (F64.div (F64.of_Z 50) (F64.of_Z 90)) F64.hundred |}.

Definition shm_usage : disk.UsageStat :=
  {| disk.Total := 4096; disk.Used := 1024; disk.Free := 3072;
     disk.UsedPercent := F64.of_Z 25 |}.

Definition pseudo_usage : disk.UsageStat :=
  {| disk.Total := 0; disk.Used := 0; disk.Free := 0;
     disk.UsedPercent := F64.zero |}.

Definition Usage (path : string) : disk.UsageStat + error :=
  if String.eqb path "/proc/mnt/root" then inl root_usage
  else if String.eqb path "/proc/mnt/shm" then inl shm_usage
  else if String.eqb path "/proc/mnt/proc" then inl pseudo_usage
  else inr "no such file or directory".

End Fixture.

(** ** The strings package, as far as the program uses it *)

Module strings.

(** [strings.Join(elems, sep)]. *)
Fixpoint Join (elems : list string) (sep : string) : string :=
  match elems with
  | [] => ""
  | [e] => e
  | e :: rest => e ++ sep ++ Join rest sep
  end.

(** [strings.Split(s, sep)] for a separator of one byte, which is how the
    program calls it: the pieces of [s] between the separators, [s] itself
    when it holds none. *)
Fixpoint Split (s : string) (sep : ascii) : list string :=
  match s with
  | EmptyString => [""]
  | String c s' =>
      if Ascii.eqb c sep then "" :: Split s' sep
      else match Split s' sep with
           | piece :: rest => String c piece :: rest
           | [] => [String c ""]
           end
  end.

(** Does the byte occur in the string. *)
Fixpoint has_byte (c : ascii) (s : string) : bool :=
  match s with
  | EmptyString => false
  | String c' s' => Ascii.eqb c' c || has_byte c s'
  end.

Fixpoint count_byte (c : ascii) (s : string) : nat :=
  match s with
  | EmptyString => O
  | String c' s' => ((if Ascii.eqb c' c then 1 else 0) + count_byte c s')%nat
  end.

End strings.

(** ** multiStringFlag and the configuration of main *)

Definition comma : ascii := ",".

(** [multiStringFlag is a custom flag type for handling multiple string
    flags]. *)
Module multiStringFlag.

Definition t : Type := list string.

(** [Set], here [Set_], appends the value to the slice behind [m] and returns no
    error: the new slice and the error. *)
Definition Set_ (m : t) (value : string) : t * option error :=
  ((m ++ [value])%list, None).

(** [Type], here [Type_]. *)
Definition Type_ (m : t) : string := "string".

Definition String (m : t) : string := strings.Join m ",".

End multiStringFlag.

(** The value of [ignoreTypes] before the flags are parsed, from
    [DISKINFO_IGNORE_TYPES]. *)
Definition ignoreTypes_of_env (envIgnoreTypes : string)
  : multiStringFlag.t :=
  if String.eqb envIgnoreTypes "" then []
  else strings.Split envIgnoreTypes comma.

(** The flag parser hands the values of [--ignore-type], in the order of
    the command line, to [Set]. *)
Definition ignoreTypes_of_config (envIgnoreTypes : string)
    (flags : list string) : multiStringFlag.t :=
  fold_left (fun m value => fst (multiStringFlag.Set_ m value)) flags
            (ignoreTypes_of_env envIgnoreTypes).

(** The value of [hostProc] before the flags are parsed, from
    [DISKINFO_HOST_PROC]. *)
Definition hostProc_of_env (envHostProc : string) : string :=
  if String.eqb envHostProc "" then "/proc" else envHostProc.

(** ** fmt.Sprintf with other precisions *)

Module FmtF.

(** The value [m * 2^e] in units of [10 ^ (- digits)], to the nearest,
    ties to even. *)
Definition scaled (digits : nat) (m : positive) (e : Z) : Z :=
  match e with
  | Zneg p =>
      Fmt.round_half_even (10 ^ Z.of_nat digits * Zpos m) (2 ^ Zpos p)
  | _ => 10 ^ Z.of_nat digits * Zpos m * 2 ^ e
  end.

(** The last [n] decimal digits of [v], with their leading zeros. *)
Fixpoint padded (n : nat) (v : Z) : string :=
  match n with
  | O => ""
  | S n' => padded n' (v / 10) ++ Fmt.verb_d (v mod 10)
  end.

Definition fraction (digits : nat) (t : Z) : string :=
  match digits with
  | O => ""
  | _ => "." ++ padded digits (t mod 10 ^ Z.of_nat digits)
  end.

(** [%.Nf] of a float64, for [N] the number of [digits]. *)
Definition verb_f (digits : nat) (x : F64.float64) : string :=
  match x with
  | S754_nan => "NaN"
  | S754_infinity s => if s then "-Inf" else "+Inf"
  | S754_zero s => Fmt.sign_prefix s ++ "0" ++ fraction digits 0
  | S754_finite s m e =>
      let t := scaled digits m e in
      Fmt.sign_prefix s ++ Fmt.verb_d (t / 10 ^ Z.of_nat digits)
      ++ fraction digits t
  end.

End FmtF.

(** ** Conversions of a float64 to int *)

Module Conv.

(** The integer part of a finite float64, towards zero. *)
Definition truncate (x : F64.float64) : option Z :=
  match x with
  | S754_zero _ => Some 0
  | S754_finite s m e =>
      let magnitude :=
        match e with
        | Zneg p => Zpos m / 2 ^ Zpos p
        | _ => Zpos m * 2 ^ e
        end in
      Some (if s then - magnitude else magnitude)
  | _ => None
  end.

(** [int(x)]: the integer part when an int holds it; what the
    implementation gives, [other x], when none does (NaN, infinities,
    values out of range). *)
Definition int_of_float (other : F64.float64 -> Z) (x : F64.float64) : Z :=
  match truncate x with
  | Some z => if (- 2 ^ 63 <=? z) && (z <? 2 ^ 63) then z else other x
  | None => other x
  end.

End Conv.

(** ** The first revision: FetchDiskInfo of main.go *)

Module MainGo.

(** [DiskInfo holds information about a disk]. *)
Record DiskInfo : Type := {
  Device : string;
  Size : Z;
  Used : Z;
  Free : Z;
  HumanSize : string;
  HumanUsed : string;
  HumanFree : string;
  UsedPercent : Z;
  FreePercent : Z;
  PieChart : string
}.

(** What a call does besides returning: the two disk calls and the text
    it prints on the standard output. *)
Inductive output : Type :=
| PartitionsCalled (all : bool)
| UsageCalled (path : string)
| Printed (text : string).

Definition IO (A : Type) : Type := (outcome A * list output)%type.

Definition ret {A} (a : A) : IO A := (Ok a, []).

Definition bind {A B} (m : IO A) (k : A -> IO B) : IO B :=
  match m with
  | (Ok a, t) => let '(r, t') := k a in (r, (t ++ t')%list)
  | (Panic msg, t) => (Panic msg, t)
  | (OutOfFuel, t) => (OutOfFuel, t)
  end.

Definition lift {A} (o : outcome A) : IO A := (o, []).

Definition emit (e : output) : IO Datatypes.unit := (Ok tt, [e]).

Definition newline : string := String (ascii_of_nat 10) "".

(** [fmt.Println] of operands that are strings: a space between them and
    a newline at the end. *)
Definition fmt_Println (operands : list string) : IO Datatypes.unit :=
  emit (Printed (strings.Join operands " " ++ newline)).

Definition fmt_Printf (text : string) : IO Datatypes.unit :=
  emit (Printed text).

(** [strings.Contains(s, substr)]. *)
Fixpoint strings_Contains (s substr : string) : bool :=
  String.prefix substr s
  || match s with
     | EmptyString => false
     | String _ s' => strings_Contains s' substr
     end.

(** [math.Pi] as a float64. *)
Definition math_Pi : F64.float64 :=
  S754_finite false 7074237752028440 (-51).

(** [humanReadable converts bytes to a human-readable string]: the body
    of [humanReadableSize], under its first name. *)
Definition humanReadable (bytes : Z) : outcome string :=
  humanReadableSize bytes.

Section Program.

(** [math.Sin] and [math.Cos]. *)
Variable math_Sin : F64.float64 -> F64.float64.
Variable math_Cos : F64.float64 -> F64.float64.

(** The result of [int(x)] when no int holds the value of [x]. *)
Variable int_of_other : F64.float64 -> Z.

Variable disk_Partitions : bool -> list disk.PartitionStat * option error.
Variable disk_Usage : string -> disk.UsageStat + error.

(** [generatePieChart generates an SVG path for a pie chart representing
    the disk usage]; each operation is rounded on its own. *)
Definition generatePieChart (usedPercent : Z) : string :=
  let radians :=
    F64.mul (F64.mul (F64.div (F64.of_Z usedPercent) (F64.of_Z 100))
                     (F64.of_Z 2))
            math_Pi in
  let x := F64.add (F64.of_Z 50) (F64.mul (F64.of_Z 50) (math_Sin radians)) in
  let y := F64.sub (F64.of_Z 50) (F64.mul (F64.of_Z 50) (math_Cos radians)) in
  let largeArcFlag := if 50 <? usedPercent then 1 else 0 in
  "M50,50 L50,0 A50,50 0 " ++ Fmt.verb_d largeArcFlag ++ ",1 "
  ++ FmtF.verb_f 2 x ++ "," ++ FmtF.verb_f 2 y ++ " L50,50 Z".

(** [for _, idisk := range ignoreDisks]: a line for each entry the device
    name holds, and nothing else. *)
Fixpoint range_ignoreDisks (device : string) (ignoreDisks : list string)
  : IO Datatypes.unit :=
  match ignoreDisks with
  | [] => ret tt
  | idisk :: rest =>
      bind (if strings_Contains device idisk
            then fmt_Printf ("Ignore disk '" ++ idisk ++ "'")
            else ret tt)
           (fun _ => range_ignoreDisks device rest)
  end.

Definition new_DiskInfo (p : disk.PartitionStat) (usage : disk.UsageStat)
  : IO DiskInfo :=
  let usedPercent :=
    Conv.int_of_float int_of_other
      (F64.mul (F64.div (F64.of_Z (disk.Used usage))
                        (F64.of_Z (disk.Total usage)))
               (F64.of_Z 100)) in
  let freePercent := Int.wrap_int64 (100 - usedPercent) in
  let pieChart := generatePieChart usedPercent in
  bind (lift (humanReadable (disk.Total usage))) (fun humanSize =>
  bind (lift (humanReadable (disk.Used usage))) (fun humanUsed =>
  bind (lift (humanReadable (disk.Free usage))) (fun humanFree =>
  ret {| Device := disk.Device p;
         Size := disk.Total usage;
         Used := disk.Used usage;
         Free := disk.Free usage;
         HumanSize := humanSize;
         HumanUsed := humanUsed;
         HumanFree := humanFree;
         UsedPercent := usedPercent;
         FreePercent := freePercent;
         PieChart := pieChart |}))).

(** One turn of [for _, p := range partitions], on the global
    [diskInfos]. *)
Definition loop_body (ignoreDisks : list string) (p : disk.PartitionStat)
    (diskInfos : list DiskInfo) : IO (list DiskInfo) :=
  bind (emit (UsageCalled (disk.Mountpoint p))) (fun _ =>
  match disk_Usage (disk.Mountpoint p) with
  | inr err =>
      bind (fmt_Println ["Error fetching usage for"; disk.Device p; ":";
                         err])
           (fun _ => ret diskInfos)
  | inl usage =>
      bind (range_ignoreDisks (disk.Device p) ignoreDisks) (fun _ =>
      bind (new_DiskInfo p usage) (fun di =>
      ret (diskInfos ++ [di])%list))
  end).

Fixpoint range_partitions (ignoreDisks : list string)
    (partitions : list disk.PartitionStat) (diskInfos : list DiskInfo)
  : IO (list DiskInfo) :=
  match partitions with
  | [] => ret diskInfos
  | p :: rest =>
      bind (loop_body ignoreDisks p diskInfos)
           (range_partitions ignoreDisks rest)
  end.

(** [FetchDiskInfo fetches disk information]: from the values of the
    globals [ignoreDisks] and [diskInfos] to the new value of
    [diskInfos]. *)
Definition FetchDiskInfo (ignoreDisks : list string)
    (diskInfos : list DiskInfo) : IO (list DiskInfo) :=
  bind (emit (PartitionsCalled false)) (fun _ =>
  match disk_Partitions false with
  | (_, Some err) =>
      bind (fmt_Println ["Error fetching partitions:"; err])
           (fun _ => ret diskInfos)
  | (partitions, None) => range_partitions ignoreDisks partitions []
  end).

End Program.

(** The record [FetchDiskInfo] appends for a partition and its sample. *)
Definition emitted (int_of_other : F64.float64 -> Z)
    (p : disk.PartitionStat) (u : disk.UsageStat) (d : DiskInfo) : Prop :=
  Device d = disk.Device p /\
  Size d = disk.Total u /\
  Used d = disk.Used u /\
  Free d = disk.Free u /\
  humanReadableSize (disk.Total u) = Ok (HumanSize d) /\
  humanReadableSize (disk.Used u) = Ok (HumanUsed d) /\
  humanReadableSize (disk.Free u) = Ok (HumanFree d) /\
  UsedPercent d
  = Conv.int_of_float int_of_other
      (F64.mul (F64.div (F64.of_Z (disk.Used u)) (F64.of_Z (disk.Total u)))
               (F64.of_Z 100)) /\
  FreePercent d = Int.wrap_int64 (100 - UsedPercent d).

(** The partitions whose usage query succeeds. *)
Definition answered (disk_Usage : string -> disk.UsageStat + error)
    (p : disk.PartitionStat) : bool :=
  match disk_Usage (disk.Mountpoint p) with
  | inl _ => true
  | inr _ => false
  end.

End MainGo.

(** ** The revision with the pie charts *)

Module PieChart.

Record DiskInfo : Type := {
  Device : string;
  Size : Z;
  Used : Z;
  Free : Z;
  Type_ : string;
  HumanSize : string;
  HumanUsed : string;
  HumanFree : string;
  UsedPercent : F64.float64;
  FreePercent : F64.float64;
  PieChart : string;
  UsedTextX : F64.float64;
  UsedTextY : F64.float64;
  FreeTextX : F64.float64;
  FreeTextY : F64.float64;
  UsedPercentStr : string;
  FreePercentStr : string
}.

(** Go's [<] on float64: false as soon as a NaN is involved. *)
Definition ltb : F64.float64 -> F64.float64 -> bool := SFltb.

(** The constants [2*math.Pi], [0.5*math.Pi] and [math.Pi / 180.0], each
    the float64 nearest to the exact value. *)
Definition two_Pi : F64.float64 :=
  S754_finite false 7074237752028440 (-50).
Definition half_Pi : F64.float64 :=
  S754_finite false 7074237752028440 (-52).
Definition Pi_over_180 : F64.float64 :=
  S754_finite false 5030569068109113 (-58).

Definition formatPercent (percent : F64.float64) : string :=
  FmtF.verb_f 0 percent.

Fixpoint stringIsInSliceOfStrings (s : string) (list : list string) : bool :=
  match list with
  | [] => false
  | element :: rest =>
      if String.eqb element s then true
      else stringIsInSliceOfStrings s rest
  end.

Section Program.

Variable math_Sin : F64.float64 -> F64.float64.
Variable math_Cos : F64.float64 -> F64.float64.
Variable disk_Partitions : bool -> list disk.PartitionStat * option error.
Variable disk_Usage : string -> disk.UsageStat + error.

(** The value of the global [ignoreTypes]: the program starts with
    [cdrom] alone in it and does not assign it. *)
Variable ignoreTypes : list string.

Definition calculateTextPosition (percent radius : F64.float64)
  : F64.float64 * F64.float64 :=
  let angle := F64.mul (F64.div percent (F64.of_Z 100)) (F64.of_Z 360) in
  let rad := F64.mul angle Pi_over_180 in
  let x := F64.add (F64.of_Z 50) (F64.mul radius (math_Cos rad)) in
  let y := F64.sub (F64.of_Z 50) (F64.mul radius (math_Sin rad)) in
  let offset := F64.of_Z 15 in
  let x := if ltb (F64.of_Z 50) percent then F64.sub x offset
           else F64.add x offset in
  (x, y).

Definition calculatePieChartPath (percent : F64.float64) : string :=
  if F64.eqb percent F64.zero then ""
  else
    let r := F64.of_Z 50 in
    let arc :=
      F64.sub (F64.div (F64.mul two_Pi percent) (F64.of_Z 100)) half_Pi in
    let x := F64.add (F64.of_Z 50) (F64.mul r (math_Cos arc)) in
    let y := F64.add (F64.of_Z 50) (F64.mul r (math_Sin arc)) in
    let largeArc := if ltb (F64.of_Z 50) percent then 1 else 0 in
    "M50,50 L50,0 A50,50 0 " ++ Fmt.verb_d largeArc ++ ",1 "
    ++ FmtF.verb_f 2 x ++ "," ++ FmtF.verb_f 2 y ++ " Z".

(** Where the label of a share of the pie goes: on the share when it is
    a part of the pie, at the centre otherwise. *)
Definition text_position (share at_ : F64.float64)
  : F64.float64 * F64.float64 :=
  if ltb F64.zero share && ltb share F64.hundred
  then calculateTextPosition at_ (F64.of_Z 35)
  else (F64.of_Z 50, F64.of_Z 50).

(** The record of a partition and its sample, with its labels placed. *)
Definition new_DiskInfo (p : disk.PartitionStat) (usage : disk.UsageStat)
  : M DiskInfo :=
  (let usedPercent := disk.UsedPercent usage in
   let freePercent := F64.sub F64.hundred (disk.UsedPercent usage) in
   humanSize <- lift (humanReadableSize (disk.Total usage)) ;;
   humanUsed <- lift (humanReadableSize (disk.Used usage)) ;;
   humanFree <- lift (humanReadableSize (disk.Free usage)) ;;
   let used_text :=
     text_position usedPercent (F64.div usedPercent (F64.of_Z 2)) in
   let free_text :=
     text_position freePercent
       (F64.sub F64.hundred (F64.div freePercent (F64.of_Z 2))) in
   ret {| Device := disk.Device p;
          Size := disk.Total usage;
          Used := disk.Used usage;
          Free := disk.Free usage;
          Type_ := disk.Fstype p;
          HumanSize := humanSize;
          HumanUsed := humanUsed;
          HumanFree := humanFree;
          UsedPercent := usedPercent;
          FreePercent := freePercent;
          PieChart := calculatePieChartPath usedPercent;
          UsedTextX := fst used_text;
          UsedTextY := snd used_text;
          FreeTextX := fst free_text;
          FreeTextY := snd free_text;
          UsedPercentStr := formatPercent usedPercent;
          FreePercentStr := formatPercent freePercent |})%go.

Definition loop_body (p : disk.PartitionStat) (diskInfos : list DiskInfo)
  : M (list DiskInfo) :=
  (r <- call_Usage disk_Usage (disk.Mountpoint p) ;;
   usage <- Earlier.deref r ;;
   if disk.Total usage =? 0 then ret diskInfos
   else if stringIsInSliceOfStrings (disk.Fstype p) ignoreTypes
        then ret diskInfos
   else
     di <- new_DiskInfo p usage ;;
     ret (diskInfos ++ [di])%list)%go.

Fixpoint range_partitions (partitions : list disk.PartitionStat)
    (diskInfos : list DiskInfo) : M (list DiskInfo) :=
  match partitions with
  | [] => ret diskInfos
  | p :: rest =>
      (diskInfos' <- loop_body p diskInfos ;;
       range_partitions rest diskInfos')%go
  end.

Definition gatherDiskInfo : M (list DiskInfo) :=
  (r <- call_Partitions disk_Partitions true ;;
   range_partitions (fst r) [])%go.

End Program.

End PieChart.

(** A record of the revision with the pie charts, without what the pie
    charts added. *)
Definition table_fields (d : PieChart.DiskInfo) : DiskInfo :=
  {| Device := PieChart.Device d;
     Size := PieChart.Size d;
     Used := PieChart.Used d;
     Free := PieChart.Free d;
     Type_ := PieChart.Type_ d;
     HumanSize := PieChart.HumanSize d;
     HumanUsed := PieChart.HumanUsed d;
     HumanFree := PieChart.HumanFree d;
     UsedPercent := PieChart.UsedPercent d;
     FreePercent := PieChart.FreePercent d |}.

(** ** Reading a run *)

(** The log lines among the events, in order. *)
Definition log_lines (t : list event) : list string :=
  flat_map (fun e => match e with LogPrintf l => [l] | _ => [] end) t.

(** The result of a computation, changed by [f] when it returns. *)
Definition outcome_map {A B : Type} (f : A -> B) (o : outcome A)
  : outcome B :=
  match o with
  | Ok a => Ok (f a)
  | Panic msg => Panic msg
  | OutOfFuel => OutOfFuel
  end.

(** The path of the usage query of a partition. *)
Definition usage_path (filepath_Join : string -> string -> string)
    (hostProc : string) (p : disk.PartitionStat) : string :=
  filepath_Join hostProc (disk.Mountpoint p).

(** A partition with a mount point. *)
Definition mounted (p : disk.PartitionStat) : bool :=
  negb (String.eqb (disk.Mountpoint p) "").

(** The records whose type is not in [ignoreTypes]. *)
Definition type_allowed (ignoreTypes : list string) (d : DiskInfo) : bool :=
  negb (contains ignoreTypes (Type_ d)).

(** * Properties *)

(** ** The formatter on concrete sizes *)

Example hrs_0 : humanReadableSize 0 = Ok "0 B".
Proof. reflexivity. Qed.
Example hrs_1023 : humanReadableSize 1023 = Ok "1023 B".
Proof. reflexivity. Qed.
Example hrs_1024 : humanReadableSize 1024 = Ok "1.0 KB".
Proof. vm_compute. reflexivity. Qed.
Example hrs_1536 : humanReadableSize 1536 = Ok "1.5 KB".
Proof. vm_compute. reflexivity. Qed.
Example hrs_1GiB : humanReadableSize 1073741824 = Ok "1.0 GB".
Proof. vm_compute. reflexivity. Qed.
Example hrs_max : humanReadableSize Int.uint64_max = Ok "16.0 EB".
Proof. vm_compute. reflexivity. Qed.

(** ** The size formatter *)

Lemma wrap_int64_small z : - 2 ^ 63 <= z < 2 ^ 63 -> Int.wrap_int64 z = z.
Proof.
  intros H. unfold Int.wrap_int64.
  rewrite Z.mod_small; lia.
Qed.

Lemma pow1024_pos k : 0 <= k -> 0 < 1024 ^ k.
Proof. intros. apply Z.pow_pos_nonneg; lia. Qed.

Lemma size_loop_spec (k : nat) :
  forall (fuel : nat) (n div exp : Z),
    (k <= fuel)%nat ->
    0 <= n < 1024 ^ (Z.of_nat k + 1) ->
    0 < div -> div * 1024 ^ Z.of_nat k < 2 ^ 63 ->
    0 <= exp -> exp + Z.of_nat k < 2 ^ 63 ->
    exists i,
      0 <= i <= Z.of_nat k /\
      size_loop fuel n div exp = Some (div * 1024 ^ i, exp + i) /\
      n < 1024 ^ (i + 1) /\ (1 <= n -> 1024 ^ i <= n).
Proof.
  induction k as [|k IH]; intros fuel n div exp Hf Hn Hd Hov He Heo.
  - exists 0. split; [lia|]. simpl Z.of_nat in *. change (1024 ^ (0 + 1)) with 1024 in *.
    destruct fuel; simpl; unfold unit;
      destruct (Z.geb_spec n 1024); try lia;
      rewrite Z.mul_1_r, Z.add_0_r; repeat split; auto; lia.
  - destruct (Z.geb_spec n 1024) as [Hge|Hlt].
    + destruct fuel as [|fuel]; [lia|].
      assert (Hp : 0 < 1024 ^ Z.of_nat k) by (apply pow1024_pos; lia).
      assert (Hs : 1024 ^ Z.of_nat (S k) = 1024 * 1024 ^ Z.of_nat k)
        by (rewrite Nat2Z.inj_succ, Z.pow_succ_r; lia).
      assert (Hs' : 1024 ^ (Z.of_nat (S k) + 1) = 1024 * 1024 ^ (Z.of_nat k + 1))
        by (rewrite Nat2Z.inj_succ; replace (Z.succ (Z.of_nat k) + 1) with (Z.succ (Z.of_nat k + 1)) by lia;
            rewrite Z.pow_succ_r; lia).
      destruct (IH fuel (n / 1024) (div * 1024) (exp + 1)) as (i & Hi & Hrun & Hub & Hlb).
      * lia.
      * split; [apply Z.div_pos; lia|]. apply Z.div_lt_upper_bound; lia.
      * lia.
      * rewrite Hs in Hov. lia.
      * lia.
      * lia.
      * exists (i + 1). split; [lia|].
        assert (Hi1 : 1024 ^ (i + 1) = 1024 * 1024 ^ i)
          by (replace (i + 1) with (Z.succ i) by lia; rewrite Z.pow_succ_r; lia).
        assert (Hi2 : 1024 ^ (i + 1 + 1) = 1024 * 1024 ^ (i + 1))
          by (replace (i + 1 + 1) with (Z.succ (i + 1)) by lia; rewrite Z.pow_succ_r; lia).
        split; [|split].
        -- simpl. unfold unit. destruct (Z.geb_spec n 1024); [|lia].
           rewrite !wrap_int64_small.
           ++ rewrite Hrun. f_equal. f_equal; [rewrite Hi1|]; lia.
           ++ lia.
           ++ rewrite Hs in Hov. nia.
        -- rewrite Hi2.
           pose proof (Z.mul_succ_div_gt n 1024 ltac:(lia)). lia.
        -- intros _. rewrite Hi1.
           pose proof (Z.mul_div_le n 1024 ltac:(lia)).
           assert (1 <= n / 1024) by (apply Z.div_le_lower_bound; lia).
           specialize (Hlb H0). lia.
    + exists 0. split; [lia|]. change (1024 ^ (0 + 1)) with 1024.
      rewrite Z.mul_1_r, Z.add_0_r.
      split; [|split; [lia|simpl; lia]].
      destruct fuel; simpl; unfold unit; destruct (Z.geb_spec n 1024); try lia; reflexivity.
Qed.

(** The loop of [humanReadableSize] on a uint64 of at least [unit]: it
    stops, [div] does not overflow and [exp] + 1 is the power of 1024 the
    size lies in. *)
Lemma humanReadableSize_loop (size : Z) :
  Int.is_uint64 size -> unit <= size ->
  exists k,
    1 <= k <= 6 /\
    1024 ^ k <= size < 1024 ^ (k + 1) /\
    size_loop loop_fuel (size / unit) unit 0 = Some (1024 ^ k, k - 1).
Proof.
  unfold Int.is_uint64, Int.uint64_max, unit. intros Hr Hs.
  destruct (size_loop_spec 5 loop_fuel (size / 1024) 1024 0)
    as (i & Hi & Hrun & Hub & Hlb).
  - unfold loop_fuel. lia.
  - split; [apply Z.div_pos; lia|].
    apply Z.div_lt_upper_bound; [lia|]. simpl. lia.
  - lia.
  - simpl. lia.
  - lia.
  - simpl. lia.
  - exists (i + 1).
    assert (Hi1 : 1024 ^ (i + 1) = 1024 * 1024 ^ i)
      by (replace (i + 1) with (Z.succ i) by lia; rewrite Z.pow_succ_r; lia).
    assert (Hi2 : 1024 ^ (i + 1 + 1) = 1024 * 1024 ^ (i + 1))
      by (replace (i + 1 + 1) with (Z.succ (i + 1)) by lia;
          rewrite Z.pow_succ_r; lia).
    assert (H1 : 1 <= size / 1024) by (apply Z.div_le_lower_bound; lia).
    pose proof (Z.mul_div_le size 1024 ltac:(lia)).
    pose proof (Z.mul_succ_div_gt size 1024 ltac:(lia)).
    specialize (Hlb H1).
    split; [simpl in Hi; lia|]. split; [lia|].
    rewrite Hrun. f_equal. f_equal; lia.
Qed.

Lemma index_unit_letters (i : Z) :
  0 <= i <= 5 ->
  exists c, index_string unit_letters i = Ok c /\
            String.get (Z.to_nat i) unit_letters = Some c.
Proof.
  intros H.
  assert (Hc : i = 0 \/ i = 1 \/ i = 2 \/ i = 3 \/ i = 4 \/ i = 5) by lia.
  destruct Hc as [-> | [-> | [-> | [-> | [-> | ->]]]]];
    eexists; split; reflexivity.
Qed.

Lemma humanReadableSize_returns (size : Z) :
  Int.is_uint64 size -> exists s, humanReadableSize size = Ok s.
Proof.
  intros Hr. unfold humanReadableSize.
  destruct (Z.ltb_spec size unit) as [Hlt|Hge].
  - eexists. reflexivity.
  - destruct (humanReadableSize_loop size Hr Hge) as (k & Hk & _ & Hrun).
    rewrite Hrun.
    destruct (index_unit_letters (k - 1) ltac:(lia)) as (c & Hc & _).
    rewrite Hc. eexists. reflexivity.
Qed.

(** C10. [humanReadableSize] is total on uint64: the loop stops within its
    bound, the exponent it leaves is at most 5, so indexing ["KMGTPE"] by
    it is in range, and the function returns a string and does not
    panic. *)
Theorem humanReadableSize_total (size : Z) :
  Int.is_uint64 size ->
  (exists s, humanReadableSize size = Ok s) /\
  (unit <= size ->
   exists div exp c,
     size_loop loop_fuel (size / unit) unit 0 = Some (div, exp) /\
     div = unit ^ (exp + 1) /\
     0 <= exp <= 5 /\
     exp < Z.of_nat (String.length unit_letters) /\
     index_string unit_letters exp = Ok c).
Proof.
  intros Hr. split.
  - apply humanReadableSize_returns. exact Hr.
  - intros Hge.
    destruct (humanReadableSize_loop size Hr Hge) as (k & Hk & _ & Hrun).
    destruct (index_unit_letters (k - 1) ltac:(lia)) as (c & Hc & _).
    exists (1024 ^ k), (k - 1), c. simpl String.length.
    replace (k - 1 + 1) with k by lia. unfold unit at 3.
    repeat split; auto; lia.
Qed.

Lemma humanReadableSize_total_witness :
  Int.is_uint64 (2 ^ 64 - 1) /\
  (exists s, humanReadableSize (2 ^ 64 - 1) = Ok s).
Proof.
  assert (H : Int.is_uint64 (2 ^ 64 - 1))
    by (unfold Int.is_uint64, Int.uint64_max; lia).
  split; [exact H|].
  exact (proj1 (humanReadableSize_total (2 ^ 64 - 1) H)).
Defined.

(** ** float64 arithmetic: rounding, and [x + (100 - x)] *)

Lemma digits2_size (p : positive) : digits2_pos p = Pos.size p.
Proof. induction p; simpl; congruence. Qed.

Lemma digits2_bounds (p : positive) :
  2 ^ (Zpos (digits2_pos p) - 1) <= Zpos p < 2 ^ Zpos (digits2_pos p).
Proof.
  rewrite digits2_size.
  pose proof (Pos.size_gt p) as Hgt. pose proof (Pos.size_le p) as Hle.
  apply Pos2Z.pos_lt_pos in Hgt. apply Pos2Z.pos_le_pos in Hle.
  rewrite Pos2Z.inj_pow in Hgt, Hle.
  change (Z.pos p~0) with (2 * Z.pos p) in Hle.
  assert (H2 : 2 ^ Zpos (Pos.size p) = 2 * 2 ^ (Zpos (Pos.size p) - 1)).
  { rewrite <- Z.pow_succ_r by lia. f_equal. lia. }
  lia.
Qed.

Lemma digits2_unique (p : positive) (d : Z) :
  2 ^ (d - 1) <= Zpos p < 2 ^ d -> Zpos (digits2_pos p) = d.
Proof.
  intros [Hl Hu]. destruct (digits2_bounds p) as [Hl' Hu'].
  set (d' := Zpos (digits2_pos p)) in *.
  assert (Hd : 0 < d).
  { destruct (Z.lt_trichotomy d 0) as [Hn|[->|Hp]]; [|simpl in Hu; lia|exact Hp].
    rewrite (Z.pow_neg_r 2 d) in Hu by lia. lia. }
  destruct (Z.lt_trichotomy d' d) as [Hlt|[Heq|Hgt]]; [|exact Heq|].
  - assert (2 ^ d' <= 2 ^ (d - 1)) by (apply Z.pow_le_mono_r; lia). lia.
  - assert (2 ^ d <= 2 ^ (d' - 1)) by (apply Z.pow_le_mono_r; lia). lia.
Qed.

Lemma iter_xO_pow2 (m d : positive) :
  Zpos (Pos.iter xO m d) = Zpos m * 2 ^ Zpos d.
Proof.
  rewrite (Pos.iter_swap_gen _ _ Zpos xO (Z.mul 2)) by reflexivity.
  change (Pos.iter (Z.mul 2) (Zpos m) d) with (Z.shiftl (Zpos m) (Zpos d)).
  apply Z.shiftl_mul_pow2. lia.
Qed.

Lemma shl_align_le (m : positive) (e e' : Z) :
  e' <= e ->
  Zpos (fst (shl_align m e e')) = Zpos m * 2 ^ (e - e') /\
  snd (shl_align m e e') = e'.
Proof.
  intros H. unfold shl_align.
  destruct (e' - e) as [|d|d] eqn:Hd.
  - assert (e' = e) by lia. subst. rewrite Z.sub_diag. simpl. split; lia.
  - lia.
  - simpl. rewrite iter_xO_pow2. replace (e - e') with (Zpos d) by lia.
    split; reflexivity.
Qed.


(** Rounding to the nearest, ties to even: the result is within half a
    [den] of [num], and even on a tie; and it is the only such integer. *)
Lemma round_half_even_spec (num den : Z) :
  0 < den ->
  let q := Fmt.round_half_even num den in
  2 * Z.abs (q * den - num) <= den /\
  (2 * Z.abs (q * den - num) = den -> Z.even q = true).
Proof.
  intros Hd. unfold Fmt.round_half_even.
  pose proof (Z.div_mod num den ltac:(lia)) as Hdm.
  pose proof (Z.mod_pos_bound num den Hd) as Hb.
  set (q := num / den) in *. set (r := num mod den) in *.
  destruct (Z.compare_spec (2 * r) den) as [He|Hl|Hg].
  - destruct (Z.even q) eqn:Hev.
    + split; [nia|auto].
    + split; [nia|]. intros _.
      rewrite Z.even_add, Hev. reflexivity.
  - split; [nia|]. intros H. nia.
  - split; [nia|]. intros H. nia.
Qed.

Lemma round_half_even_unique (num den q : Z) :
  0 < den ->
  2 * Z.abs (q * den - num) <= den ->
  (2 * Z.abs (q * den - num) = den -> Z.even q = true) ->
  Fmt.round_half_even num den = q.
Proof.
  intros Hd Hq Hqe.
  destruct (round_half_even_spec num den Hd) as [Hr Hre].
  set (q' := Fmt.round_half_even num den) in *.
  assert (Hc : q' = q \/ q' = q + 1 \/ q' = q - 1) by nia.
  destruct Hc as [H|[H|H]]; [exact H| |].
  - exfalso.
    assert (2 * Z.abs (q * den - num) = den) by nia.
    assert (2 * Z.abs (q' * den - num) = den) by nia.
    specialize (Hqe H0). specialize (Hre H1).
    rewrite H, Z.even_add, Hqe in Hre. discriminate.
  - exfalso.
    assert (2 * Z.abs (q * den - num) = den) by nia.
    assert (2 * Z.abs (q' * den - num) = den) by nia.
    specialize (Hqe H0). specialize (Hre H1).
    rewrite H, Z.even_sub, Hqe in Hre. discriminate.
Qed.

Lemma iter_pos_nat {A} (f : A -> A) (p : positive) :
  forall x, iter_pos f p x = Nat.iter (Pos.to_nat p) f x.
Proof.
  induction p as [p IH|p IH|]; intros x; cbn [iter_pos].
  - rewrite !IH, Pos2Nat.inj_xI.
    replace (S (2 * Pos.to_nat p))%nat
      with (Pos.to_nat p + (Pos.to_nat p + 1))%nat by lia.
    rewrite !Nat.iter_add. reflexivity.
  - rewrite !IH, Pos2Nat.inj_xO.
    replace (2 * Pos.to_nat p)%nat
      with (Pos.to_nat p + Pos.to_nat p)%nat by lia.
    rewrite Nat.iter_add. reflexivity.
  - reflexivity.
Qed.

Lemma shr_1_spec (m : Z) (r s : bool) :
  0 <= m ->
  shr_1 {| shr_m := m; shr_r := r; shr_s := s |}
  = {| shr_m := m / 2; shr_r := Z.odd m; shr_s := r || s |}.
Proof.
  intros Hm. destruct m as [|p|p]; [reflexivity| |lia].
  destruct p as [p|p|]; simpl shr_1; f_equal.
  - apply (Z.div_unique _ 2 _ 1); lia.
  - apply (Z.div_unique _ 2 _ 0); lia.
Qed.

(** [k + 1] shifts of an exact record: the quotient, the bit shifted out
    last and whether the bits under it hold a one. *)
Lemma iter_shr_1 (M : Z) (k : nat) :
  0 <= M ->
  Nat.iter (S k) shr_1 {| shr_m := M; shr_r := false; shr_s := false |}
  = {| shr_m := M / 2 ^ (Z.of_nat k + 1);
       shr_r := Z.testbit M (Z.of_nat k);
       shr_s := negb (M mod 2 ^ Z.of_nat k =? 0) |}.
Proof.
  intros HM. induction k as [|k IH].
  - unfold Nat.iter. cbn [nat_rect]. rewrite shr_1_spec by assumption.
    change (2 ^ (Z.of_nat 0 + 1)) with 2. change (2 ^ Z.of_nat 0) with 1.
    rewrite Z.mod_1_r, Z.bit0_odd. reflexivity.
  - change (Nat.iter (S (S k)) shr_1 ?x) with (shr_1 (Nat.iter (S k) shr_1 x)).
    rewrite IH.
    assert (Hp : 0 < 2 ^ Z.of_nat k) by (apply Z.pow_pos_nonneg; lia).
    assert (Hp1 : 2 ^ (Z.of_nat k + 1) = 2 ^ Z.of_nat k * 2)
      by (rewrite Z.pow_add_r by lia; reflexivity).
    rewrite shr_1_spec by (apply Z.div_pos; lia).
    rewrite Nat2Z.inj_succ. unfold Z.succ.
    f_equal.
    + rewrite Z.div_div by lia.
      f_equal. rewrite (Z.pow_add_r 2 (Z.of_nat k + 1) 1) by lia. reflexivity.
    + rewrite Z.testbit_odd, Z.shiftr_div_pow2 by lia. reflexivity.
    + rewrite Hp1, Z.rem_mul_r by lia.
      rewrite <- Z.testbit_spec' by lia.
      pose proof (Z.mod_pos_bound M (2 ^ Z.of_nat k) Hp).
      destruct (Z.testbit M (Z.of_nat k)); simpl Z.b2z.
      * simpl. symmetry. apply negb_true_iff, Z.eqb_neq. lia.
      * simpl. rewrite Z.mul_0_r, Z.add_0_r. reflexivity.
Qed.

(** Shifting an exact record by [n] places and rounding is rounding the
    quotient by [2 ^ n]. *)
Lemma round_shifted (M : Z) (n : positive) :
  0 <= M ->
  let R := iter_pos shr_1 n {| shr_m := M; shr_r := false; shr_s := false |} in
  round_nearest_even (shr_m R) (loc_of_shr_record R)
  = Fmt.round_half_even M (2 ^ Zpos n).
Proof.
  intros HM R. subst R. rewrite iter_pos_nat.
  destruct (Pos2Nat.is_succ n) as [k Hk]. rewrite Hk.
  rewrite iter_shr_1 by assumption.
  assert (Hn : Zpos n = Z.of_nat k + 1) by lia.
  rewrite Hn. clear Hk Hn.
  assert (Hp : 0 < 2 ^ Z.of_nat k) by (apply Z.pow_pos_nonneg; lia).
  assert (Hp1 : 2 ^ (Z.of_nat k + 1) = 2 ^ Z.of_nat k * 2)
    by (rewrite Z.pow_add_r by lia; reflexivity).
  unfold Fmt.round_half_even.
  assert (Hr : M mod 2 ^ (Z.of_nat k + 1)
               = M mod 2 ^ Z.of_nat k
                 + 2 ^ Z.of_nat k * Z.b2z (Z.testbit M (Z.of_nat k))).
  { rewrite Hp1, Z.rem_mul_r by lia.
    rewrite <- Z.testbit_spec' by lia. reflexivity. }
  rewrite Hr.
  pose proof (Z.mod_pos_bound M (2 ^ Z.of_nat k) Hp) as Hb.
  set (q := M / 2 ^ (Z.of_nat k + 1)).
  set (low := M mod 2 ^ Z.of_nat k) in *.
  cbn [shr_m loc_of_shr_record].
  destruct (Z.testbit M (Z.of_nat k)); simpl Z.b2z.
  - destruct (Z.eqb_spec low 0) as [Hz|Hz]; simpl negb.
    + replace (2 * (low + 2 ^ Z.of_nat k * 1) ?= 2 ^ (Z.of_nat k + 1))
        with Eq by (symmetry; apply Z.compare_eq_iff; lia).
      reflexivity.
    + replace (2 * (low + 2 ^ Z.of_nat k * 1) ?= 2 ^ (Z.of_nat k + 1))
        with Gt by (symmetry; apply Z.compare_gt_iff; lia).
      reflexivity.
  - replace (2 * (low + 2 ^ Z.of_nat k * 0) ?= 2 ^ (Z.of_nat k + 1))
      with Lt by (symmetry; apply Z.compare_lt_iff; lia).
    destruct (negb (low =? 0)); reflexivity.
Qed.


Lemma fexp64 (z : Z) : fexp F64.prec F64.emax z = Z.max (z - 53) (-1074).
Proof. reflexivity. Qed.

Lemma digits2_shift (m : positive) (k : Z) (mz : positive) :
  0 <= k -> Zpos mz = Zpos m * 2 ^ k ->
  Zpos (digits2_pos mz) = Zpos (digits2_pos m) + k.
Proof.
  intros Hk Hmz. apply digits2_unique. rewrite Hmz.
  destruct (digits2_bounds m) as [Hl Hu].
  assert (Hp : 0 < 2 ^ k) by (apply Z.pow_pos_nonneg; lia).
  replace (Zpos (digits2_pos m) + k - 1)
    with (Zpos (digits2_pos m) - 1 + k) by lia.
  rewrite !Z.pow_add_r by lia. nia.
Qed.

(** Rounding a mantissa that already has the exponent of its format. *)
Lemma binary_round_aux_fits (m : positive) (E : Z) :
  fexp F64.prec F64.emax (Zpos (digits2_pos m) + E) <= E ->
  E <= 971 ->
  binary_round_aux F64.prec F64.emax false (Zpos m) E loc_Exact
  = S754_finite false m E.
Proof.
  intros Hf HE. unfold binary_round_aux.
  assert (Hs : shr_fexp F64.prec F64.emax (Zpos m) E loc_Exact
               = ({| shr_m := Zpos m; shr_r := false; shr_s := false |}, E)).
  { unfold shr_fexp, shr. cbn [Zdigits2 shr_record_of_loc].
    destruct (fexp F64.prec F64.emax (Zpos (digits2_pos m) + E) - E)
      eqn:Hn; try reflexivity. lia. }
  rewrite Hs. cbn [shr_m loc_of_shr_record round_nearest_even].
  rewrite Hs. cbn [shr_m].
  change (F64.emax - F64.prec) with 971.
  destruct (Z.leb_spec E 971); [reflexivity|lia].
Qed.

(** Rounding a mantissa with [n] bits too many. *)
Lemma binary_round_aux_shift (m : positive) (E n : Z) :
  0 < n ->
  fexp F64.prec F64.emax (Zpos (digits2_pos m) + E) = E + n ->
  E + n + 1 <= 971 ->
  let Q := Fmt.round_half_even (Zpos m) (2 ^ n) in
  0 <= Q <= 2 ^ 53 /\
  binary_round_aux F64.prec F64.emax false (Zpos m) E loc_Exact
  = if Q =? 0 then S754_zero false
    else if Q <? 2 ^ 53 then S754_finite false (Z.to_pos Q) (E + n)
         else S754_finite false (Z.to_pos (2 ^ 52)) (E + n + 1).
Proof.
  intros Hn Hf HE Q.
  assert (Hp : 0 < 2 ^ n) by (apply Z.pow_pos_nonneg; lia).
  destruct (digits2_bounds m) as [_ Hmu].
  rewrite fexp64 in Hf.
  assert (Hm53 : Zpos m < 2 ^ 53 * 2 ^ n).
  { rewrite <- Z.pow_add_r by lia.
    eapply Z.lt_le_trans; [exact Hmu|]. apply Z.pow_le_mono_r; lia. }
  destruct (round_half_even_spec (Zpos m) (2 ^ n) Hp) as [Hq _].
  fold Q in Hq.
  assert (HQ : 0 <= Q <= 2 ^ 53) by nia.
  split; [exact HQ|].
  unfold binary_round_aux.
  destruct n as [|p|p]; try lia.
  assert (Hs : shr_fexp F64.prec F64.emax (Zpos m) E loc_Exact
               = (iter_pos shr_1 p
                    {| shr_m := Zpos m; shr_r := false; shr_s := false |},
                  E + Zpos p)).
  { unfold shr_fexp, shr. cbn [Zdigits2 shr_record_of_loc].
    rewrite fexp64.
    replace (Z.max (Zpos (digits2_pos m) + E - 53) (-1074) - E)
      with (Zpos p) by lia.
    reflexivity. }
  rewrite Hs, round_shifted by lia. fold Q.
  destruct (Z.eqb_spec Q 0) as [HQ0|HQ0].
  { rewrite HQ0. unfold shr_fexp, shr. cbn [Zdigits2 shr_record_of_loc].
    rewrite fexp64.
    destruct (Z.max (0 + (E + Zpos p) - 53) (-1074) - (E + Zpos p))
      eqn:Hd; try reflexivity. lia. }
  destruct Q as [|q|q] eqn:HeqQ; try lia.
  destruct (Z.ltb_spec (Zpos q) (2 ^ 53)) as [Hlt|Hge].
  - assert (Hdq : Zpos (digits2_pos q) <= 53).
    { destruct (digits2_bounds q) as [Hl _].
      destruct (Z.le_gt_cases (Zpos (digits2_pos q)) 53); [assumption|].
      assert (2 ^ 53 <= 2 ^ (Zpos (digits2_pos q) - 1))
        by (apply Z.pow_le_mono_r; lia). lia. }
    unfold shr_fexp, shr. cbn [Zdigits2 shr_record_of_loc].
    rewrite fexp64.
    destruct (Z.max (Zpos (digits2_pos q) + (E + Zpos p) - 53) (-1074)
              - (E + Zpos p)) eqn:Hd; try lia.
    + cbn [shr_m]. change (F64.emax - F64.prec) with 971.
      destruct (Z.leb_spec (E + Zpos p) 971); [reflexivity|lia].
    + cbn [shr_m]. change (F64.emax - F64.prec) with 971.
      destruct (Z.leb_spec (E + Zpos p) 971); [reflexivity|lia].
  - assert (Hq53 : Zpos q = 2 ^ 53) by lia.
    injection Hq53 as ->.
    unfold shr_fexp, shr. cbn [Zdigits2 shr_record_of_loc].
    rewrite fexp64.
    change (Zpos (digits2_pos 9007199254740992)) with 54.
    replace (Z.max (54 + (E + Zpos p) - 53) (-1074) - (E + Zpos p))
      with 1 by lia.
    cbn [iter_pos shr_1 shr_m]. change (F64.emax - F64.prec) with 971.
    replace (E + Zpos p + 1 <=? 971) with true
      by (symmetry; apply Z.leb_le; lia).
    reflexivity.
Qed.


Lemma leb_finite (m1 m2 : positive) (e1 e2 : Z) :
  SFleb (S754_finite false m1 e1) (S754_finite false m2 e2) = true
  <-> e1 < e2 \/ (e1 = e2 /\ Zpos m1 <= Zpos m2).
Proof.
  unfold SFleb, SFcompare.
  destruct (Z.compare_spec e1 e2) as [He|He|He].
  - change (Pos.compare_cont Eq m1 m2) with (Pos.compare m1 m2).
    destruct (Pos.compare_spec m1 m2) as [Hm|Hm|Hm]; split; intros H;
      try reflexivity; try discriminate; try lia.
  - split; [lia|reflexivity].
  - split; [discriminate|lia].
Qed.

(** [binary_round] on a mantissa that is short enough: it is shifted to
    the left, and nothing is lost. *)
Lemma binary_round_exact (m : positive) (E : Z) :
  let e' := fexp F64.prec F64.emax (Zpos (digits2_pos m) + E) in
  e' <= E -> e' <= 971 ->
  exists mz,
    Zpos mz = Zpos m * 2 ^ (E - e') /\
    binary_round F64.prec F64.emax false m E = S754_finite false mz e'.
Proof.
  intros e' He HE. unfold binary_round. fold e'.
  destruct (shl_align_le m E e' He) as [Hm Hs].
  destruct (shl_align m E e') as [mz ez]. cbn [fst snd] in Hm, Hs. subst ez.
  exists mz. split; [exact Hm|].
  apply binary_round_aux_fits; [|exact HE].
  rewrite (digits2_shift m (E - e') mz) by (assumption || lia).
  replace (Zpos (digits2_pos m) + (E - e') + e')
    with (Zpos (digits2_pos m) + E) by lia.
  fold e'. lia.
Qed.

(** [binary_round] on a mantissa with [n] bits too many. *)
Lemma binary_round_inexact (m : positive) (E n : Z) :
  0 < n ->
  fexp F64.prec F64.emax (Zpos (digits2_pos m) + E) = E + n ->
  E + n + 1 <= 971 ->
  let Q := Fmt.round_half_even (Zpos m) (2 ^ n) in
  0 <= Q <= 2 ^ 53 /\
  binary_round F64.prec F64.emax false m E
  = if Q =? 0 then S754_zero false
    else if Q <? 2 ^ 53 then S754_finite false (Z.to_pos Q) (E + n)
         else S754_finite false (Z.to_pos (2 ^ 52)) (E + n + 1).
Proof.
  intros Hn Hf HE Q. unfold binary_round. rewrite Hf.
  assert (Hs : shl_align m E (E + n) = (m, E)).
  { unfold shl_align. destruct (E + n - E) eqn:Hd; try reflexivity. lia. }
  rewrite Hs. apply binary_round_aux_shift; assumption.
Qed.

Lemma hundred_eq : F64.hundred = S754_finite false F64.hundred_mantissa (-46).
Proof. reflexivity. Qed.

(** A sum within half a unit in the last place of 100 rounds to 100. *)
Lemma binary_round_hundred (S : positive) (N delta : Z) :
  0 <= N ->
  Zpos S = Zpos F64.hundred_mantissa * 2 ^ N + delta ->
  2 * Z.abs delta <= 2 ^ N ->
  (N = 0 -> delta = 0) ->
  binary_round F64.prec F64.emax false S (-46 - N) = F64.hundred.
Proof.
  intros HN HS Hd H0.
  assert (Hp : 0 < 2 ^ N) by (apply Z.pow_pos_nonneg; lia).
  assert (Hdig : Zpos (digits2_pos S) = 53 + N).
  { apply digits2_unique. rewrite HS.
    replace (53 + N - 1) with (52 + N) by lia.
    rewrite !Z.pow_add_r by lia.
    change (2 ^ 52) with 4503599627370496.
    change (2 ^ 53) with 9007199254740992.
    unfold F64.hundred_mantissa. lia. }
  destruct (Z.eq_dec N 0) as [->|HN0].
  - rewrite (H0 eq_refl) in HS. simpl in HS. injection HS as ->.
    reflexivity.
  - destruct (binary_round_inexact S (-46 - N) N) as [_ Hr].
    + lia.
    + rewrite Hdig, fexp64. lia.
    + lia.
    + rewrite Hr.
      rewrite (round_half_even_unique (Zpos S) (2 ^ N) (Zpos F64.hundred_mantissa)).
      * replace (-46 - N + N) with (-46) by lia. reflexivity.
      * exact Hp.
      * rewrite HS.
        replace (Zpos F64.hundred_mantissa * 2 ^ N - (Zpos F64.hundred_mantissa * 2 ^ N + delta))
          with (- delta) by lia.
        rewrite Z.abs_opp. exact Hd.
      * intros _. reflexivity.
Qed.

Lemma sub_finite (m1 m2 : positive) (e1 e2 : Z) :
  F64.sub (S754_finite false m1 e1) (S754_finite false m2 e2)
  = binary_normalize F64.prec F64.emax
      (Zpos (fst (shl_align m1 e1 (Z.min e1 e2)))
       - Zpos (fst (shl_align m2 e2 (Z.min e1 e2))))
      (Z.min e1 e2) false.
Proof. reflexivity. Qed.

Lemma add_finite (m1 m2 : positive) (e1 e2 : Z) :
  F64.add (S754_finite false m1 e1) (S754_finite false m2 e2)
  = binary_round F64.prec F64.emax false
      (fst (shl_align m1 e1 (Z.min e1 e2))
       + fst (shl_align m2 e2 (Z.min e1 e2)))
      (Z.min e1 e2).
Proof. reflexivity. Qed.

Lemma shl_align_same (m : positive) (e : Z) : fst (shl_align m e e) = m.
Proof. unfold shl_align. rewrite Z.sub_diag. reflexivity. Qed.

Lemma pow2_lt_digits (p : positive) (k : Z) :
  Zpos p < 2 ^ k -> Zpos (digits2_pos p) <= k.
Proof.
  intros H. destruct (digits2_bounds p) as [Hl _].
  destruct (Z.le_gt_cases (Zpos (digits2_pos p)) k) as [|Hgt]; [assumption|].
  assert (2 ^ k <= 2 ^ (Zpos (digits2_pos p) - 1))
    by (apply Z.pow_le_mono_r; lia).
  lia.
Qed.

Lemma binary_round_hundred_at (S : positive) (E N delta : Z) :
  0 <= N -> E = -46 - N ->
  Zpos S = Zpos F64.hundred_mantissa * 2 ^ N + delta ->
  2 * Z.abs delta <= 2 ^ N ->
  (N = 0 -> delta = 0) ->
  binary_round F64.prec F64.emax false S E = S754_finite false F64.hundred_mantissa (-46).
Proof.
  intros HN -> HS Hd H0. rewrite <- hundred_eq.
  apply (binary_round_hundred S N delta); assumption.
Qed.

Lemma hundred_sub_add (x : F64.float64) :
  F64.valid x = true ->
  F64.leb F64.zero x = true ->
  F64.leb x F64.hundred = true ->
  F64.add x (F64.sub F64.hundred x) = F64.hundred /\
  F64.leb F64.zero (F64.sub F64.hundred x) = true /\
  F64.leb (F64.sub F64.hundred x) F64.hundred = true.
Proof.
  intros Hv H0 H100. destruct x as [s|s| |s m e].
  - destruct s; repeat split.
  - destruct s; discriminate.
  - discriminate.
  - destruct s; [discriminate|].
    rewrite hundred_eq in *. unfold F64.leb in H100.
    apply leb_finite in H100.
    unfold F64.valid, valid_binary, bounded, canonical_mantissa in Hv.
    apply andb_true_iff in Hv. destruct Hv as [Hc He].
    apply Z.eqb_eq in Hc. apply Z.leb_le in He. rewrite fexp64 in Hc.
    destruct (digits2_bounds m) as [Hml Hmu].
    assert (Hd53 : Zpos (digits2_pos m) <= 53) by lia.
    assert (Hm53 : Zpos m < 2 ^ 53).
    { eapply Z.lt_le_trans; [exact Hmu|]. apply Z.pow_le_mono_r; lia. }
    assert (Hemin : -1074 <= e) by lia.
    assert (He46 : e <= -46) by lia.
    set (N := -46 - e).
    assert (HN : 0 <= N) by (unfold N; lia).
    assert (Hp : 0 < 2 ^ N) by (apply Z.pow_pos_nonneg; lia).
    assert (Hp1 : 0 < N -> 2 <= 2 ^ N).
    { intros HN1. change 2 with (2 ^ 1) at 1. apply Z.pow_le_mono_r; lia. }
    rewrite sub_finite, Z.min_r by lia.
    rewrite shl_align_same.
    destruct (shl_align_le F64.hundred_mantissa (-46) e He46) as [HH _].
    fold N in HH. rewrite HH.
    assert (H2_53 : 2 ^ 53 = 9007199254740992) by reflexivity.
    assert (HM : Zpos F64.hundred_mantissa = 7036874417766400) by reflexivity.
    assert (HDpos : 0 <= Zpos F64.hundred_mantissa * 2 ^ N - Zpos m).
    { destruct H100 as [Hlt|[Heq Hle]].
      - specialize (Hp1 ltac:(unfold N; lia)). nia.
      - assert (N = 0) by (unfold N; lia). rewrite H. simpl (2 ^ 0). lia. }
    destruct (Zpos F64.hundred_mantissa * 2 ^ N - Zpos m) as [|pD|pD] eqn:HD; [| |lia].
    + (* x is 100 *)
      assert (HN0 : N = 0).
      { destruct (Z.eq_dec N 0); [assumption|].
        specialize (Hp1 ltac:(lia)). nia. }
      rewrite HN0 in HD. simpl (2 ^ 0) in HD.
      assert (Hm : m = F64.hundred_mantissa) by lia. subst m.
      assert (e = -46) by (unfold N in HN0; lia). subst e.
      repeat split.
    + cbn [binary_normalize].
      destruct (digits2_bounds pD) as [HDl HDu].
      assert (HDlt : Zpos pD < 2 ^ (53 + N)).
      { rewrite Z.pow_add_r by lia. nia. }
      pose proof (pow2_lt_digits pD (53 + N) HDlt) as HdD.
      set (dD := Zpos (digits2_pos pD)) in *.
      set (e' := fexp F64.prec F64.emax (dD + e)).
      assert (He' : e' = Z.max (dD + e - 53) (-1074)) by reflexivity.
      assert (He'46 : e' <= -46) by (unfold N in HdD; lia).
      destruct (Z.le_gt_cases e' e) as [Hfit|Hbig].
      * (* the difference is exact *)
        destruct (binary_round_exact pD e Hfit ltac:(fold dD; fold e'; lia))
          as (mz & Hmz & Hr).
        fold dD in Hmz, Hr. fold e' in Hmz, Hr. rewrite Hr.
        split; [|split].
        -- rewrite add_finite, Z.min_r by lia.
           rewrite shl_align_same.
           destruct (shl_align_le m e e' Hfit) as [Hma _].
           apply (binary_round_hundred_at _ e' (-46 - e') 0).
           ++ lia.
           ++ lia.
           ++ rewrite Pos2Z.inj_add, Hma, Hmz, Z.add_0_r.
              replace (-46 - e') with (N + (e - e')) by (unfold N; lia).
              rewrite Z.pow_add_r by lia. lia.
           ++ simpl Z.abs. assert (0 < 2 ^ (-46 - e'))
                by (apply Z.pow_pos_nonneg; lia). lia.
           ++ reflexivity.
        -- reflexivity.
        -- apply leb_finite.
           destruct (Z.eq_dec e' (-46)) as [Heq|Hne]; [right|left; lia].
           split; [exact Heq|].
           assert (e = -46) by lia.
           assert (HN0 : N = 0) by (unfold N; lia).
           rewrite Hmz. replace (e - e') with 0 by lia.
           rewrite HN0 in HD. simpl (2 ^ 0) in *. lia.
      * (* the difference is rounded *)
        set (n := e' - e).
        assert (Hn : 0 < n) by (unfold n; lia).
        assert (Hen : e' = dD + e - 53) by lia.
        assert (HnN : n <= N) by (unfold n, N; lia).
        assert (Hpn : 0 < 2 ^ n) by (apply Z.pow_pos_nonneg; lia).
        assert (HnNp : 2 ^ n <= 2 ^ N) by (apply Z.pow_le_mono_r; lia).
        destruct (binary_round_inexact pD e n Hn) as [HQ Hr].
        { fold dD. fold e'. unfold n. lia. }
        { unfold n. lia. }
        destruct (round_half_even_spec (Zpos pD) (2 ^ n) Hpn) as [Hq _].
        set (Q := Fmt.round_half_even (Zpos pD) (2 ^ n)) in *.
        assert (HDl' : 2 ^ 52 * 2 ^ n <= Zpos pD).
        { rewrite <- Z.pow_add_r by lia.
          eapply Z.le_trans; [|exact HDl].
          apply Z.pow_le_mono_r; unfold n; lia. }
        assert (H2_52 : 2 ^ 52 = 4503599627370496) by reflexivity.
        assert (HQpos : 0 < Q) by nia.
        assert (HQM : n = N -> Q <= Zpos F64.hundred_mantissa).
        { intros HnN'. rewrite HnN' in *. nia. }
        rewrite Hr.
        destruct (Z.eqb_spec Q 0) as [HQ0|_]; [lia|].
        assert (Hsum : forall mf ef,
                   e < ef -> ef <= 971 ->
                   Zpos mf * 2 ^ (ef - e) = Q * 2 ^ n ->
                   F64.add (S754_finite false m e) (S754_finite false mf ef)
                   = S754_finite false F64.hundred_mantissa (-46)).
        { intros mf ef Hef Hef' Hval.
          rewrite add_finite, Z.min_l by lia.
          rewrite shl_align_same.
          destruct (shl_align_le mf ef e ltac:(lia)) as [Hmf _].
          apply (binary_round_hundred_at _ e N (Q * 2 ^ n - Zpos pD)).
          - exact HN.
          - unfold N. lia.
          - rewrite Pos2Z.inj_add, Hmf, Hval. lia.
          - lia.
          - lia. }
        destruct (Z.ltb_spec Q (2 ^ 53)) as [Hlt|Hge].
        -- assert (HQid : Zpos (Z.to_pos Q) = Q) by (apply Z2Pos.id; lia).
           split; [|split].
           ++ apply Hsum; [lia|lia|].
              rewrite HQid. f_equal. f_equal. lia.
           ++ reflexivity.
           ++ apply leb_finite. rewrite HQid.
              destruct (Z.eq_dec n N) as [Heq|Hne].
              ** right. split; [unfold n, N in *; lia|auto].
              ** left. unfold n, N in *. lia.
        -- assert (HQ53 : Q = 2 ^ 53) by lia.
           assert (HnN' : n < N).
           { destruct (Z.eq_dec n N) as [Heq|Hne]; [|lia].
             specialize (HQM Heq). lia. }
           split; [|split].
           ++ apply Hsum; [lia|lia|].
              rewrite HQ53.
              replace (e + n + 1 - e) with (n + 1) by lia.
              rewrite Z.pow_add_r by lia.
              change (Zpos (Z.to_pos (2 ^ 52))) with (2 ^ 52).
              change (2 ^ 1) with 2. lia.
           ++ reflexivity.
           ++ apply leb_finite.
              destruct (Z.eq_dec (n + 1) N) as [Heq|Hne].
              ** right. split; [unfold n, N in *; lia|].
                 rewrite HM. change (Zpos (Z.to_pos (2 ^ 52))) with (2 ^ 52).
                 lia.
              ** left. unfold n, N in *. lia.
Qed.

Lemma round_half_even_scale (num den c : Z) :
  0 < den -> 0 < c ->
  Fmt.round_half_even (num * c) (den * c) = Fmt.round_half_even num den.
Proof.
  intros Hd Hc.
  destruct (round_half_even_spec num den Hd) as [Hq Hqe].
  apply round_half_even_unique.
  - nia.
  - replace (Fmt.round_half_even num den * (den * c) - num * c)
      with ((Fmt.round_half_even num den * den - num) * c) by ring.
    rewrite Z.abs_mul, (Z.abs_eq c) by lia. nia.
  - replace (Fmt.round_half_even num den * (den * c) - num * c)
      with ((Fmt.round_half_even num den * den - num) * c) by ring.
    rewrite Z.abs_mul, (Z.abs_eq c) by lia. intros H. apply Hqe. nia.
Qed.

Lemma round_half_even_exact (q den : Z) :
  0 < den -> Fmt.round_half_even (q * den) den = q.
Proof.
  intros Hd. apply round_half_even_unique; [exact Hd| |].
  - rewrite Z.sub_diag. simpl. lia.
  - rewrite Z.sub_diag. simpl. lia.
Qed.

(** The float64 of a power of 1024. *)
Lemma of_Z_pow1024 (k : Z) :
  1 <= k <= 6 ->
  F64.of_Z (1024 ^ k) = S754_finite false 4503599627370496 (10 * k - 52).
Proof.
  intros H.
  assert (Hc : k = 1 \/ k = 2 \/ k = 3 \/ k = 4 \/ k = 5 \/ k = 6) by lia.
  destruct Hc as [-> | [-> | [-> | [-> | [-> | ->]]]]]; reflexivity.
Qed.

(** Dividing a normal float64 by a power of two only moves the exponent. *)
Lemma div_pow2 (m : positive) (e k : Z) :
  Zpos (digits2_pos m) = 53 ->
  -1021 <= e - k <= 970 ->
  F64.div (S754_finite false m e) (S754_finite false 4503599627370496 (k - 52))
  = S754_finite false m (e - k).
Proof.
  intros Hd Hr. unfold F64.div, SFdiv, SFdiv_core_binary.
  cbn [Zdigits2 xorb]. rewrite Hd.
  change (Zpos (digits2_pos 4503599627370496)) with 53.
  rewrite fexp64.
  replace (Z.min (Z.max (53 + e - (53 + (k - 52)) - 53) (-1074))
             (e - (k - 52))) with (e - k - 1) by lia.
  replace (e - (k - 52) - (e - k - 1)) with 53 by lia.
  rewrite Z.shiftl_mul_pow2 by lia.
  assert (Hdiv : Z.div_eucl (Zpos m * 2 ^ 53) 4503599627370496
                 = (2 * Zpos m, 0)).
  { pose proof (Z.div_eucl_eq (Zpos m * 2 ^ 53) 4503599627370496 ltac:(lia))
      as Heq.
    pose proof (Z.mod_pos_bound (Zpos m * 2 ^ 53) 4503599627370496 ltac:(lia))
      as Hb.
    unfold Z.modulo in Hb.
    destruct (Z.div_eucl (Zpos m * 2 ^ 53) 4503599627370496) as [q r].
    change (2 ^ 53) with 9007199254740992 in *.
    f_equal; lia. }
  rewrite Hdiv.
  change (new_location 4503599627370496 0) with loc_Exact.
  change (2 * Zpos m) with (Zpos m~0).
  destruct (binary_round_aux_shift m~0 (e - k - 1) 1) as [_ Hq].
  - lia.
  - rewrite fexp64. cbn [digits2_pos]. rewrite Pos2Z.inj_succ, Hd. lia.
  - lia.
  - rewrite Hq. change (2 ^ 1) with 2.
    replace (Zpos m~0) with (Zpos m * 2) by lia.
    rewrite round_half_even_exact by lia.
    destruct (digits2_bounds m) as [_ Hu]. rewrite Hd in Hu.
    destruct (Z.eqb_spec (Zpos m) 0); [lia|].
    destruct (Z.ltb_spec (Zpos m) (2 ^ 53)); [|lia].
    f_equal. lia.
Qed.

(** The float64 of a size of at least 1024 is a normal number; below
    [2 ^ 53] it is the size itself. *)
Lemma of_Z_normal (b : Z) :
  1024 <= b <= Int.uint64_max ->
  exists m e,
    F64.of_Z b = S754_finite false m e /\
    Zpos (digits2_pos m) = 53 /\
    -42 <= e <= 12 /\
    (b < 2 ^ 53 -> e <= 0 /\ Zpos m = b * 2 ^ (- e)).
Proof.
  unfold Int.uint64_max. intros Hb.
  destruct b as [|pb|pb]; try lia.
  unfold F64.of_Z. cbn [binary_normalize].
  destruct (digits2_bounds pb) as [Hl Hu].
  assert (Hd64 : Zpos (digits2_pos pb) <= 64)
    by (apply pow2_lt_digits; lia).
  assert (Hd11 : 11 <= Zpos (digits2_pos pb)).
  { destruct (Z.le_gt_cases 11 (Zpos (digits2_pos pb))); [assumption|].
    assert (2 ^ Zpos (digits2_pos pb) <= 2 ^ 10)
      by (apply Z.pow_le_mono_r; lia).
    change (2 ^ 10) with 1024 in *. lia. }
  set (db := Zpos (digits2_pos pb)) in *.
  destruct (Z.le_gt_cases db 53) as [Hsmall|Hlarge].
  - destruct (binary_round_exact pb 0) as (mz & Hmz & Hr).
    + fold db. rewrite fexp64. lia.
    + fold db. rewrite fexp64. lia.
    + fold db in Hmz, Hr. rewrite fexp64 in Hmz, Hr.
      replace (Z.max (db + 0 - 53) (-1074)) with (db - 53) in Hmz, Hr by lia.
      exists mz, (db - 53). split; [exact Hr|]. split; [|split; [lia|]].
      * rewrite (digits2_shift pb (0 - (db - 53)) mz); [|lia|exact Hmz].
        fold db. lia.
      * intros _. split; [lia|]. rewrite Hmz.
        replace (0 - (db - 53)) with (- (db - 53)) by lia. reflexivity.
  - set (n := db - 53).
    assert (Hn : 0 < n <= 11) by (unfold n; lia).
    assert (Hpn : 0 < 2 ^ n) by (apply Z.pow_pos_nonneg; lia).
    destruct (binary_round_inexact pb 0 n) as [HQ Hr].
    + lia.
    + fold db. rewrite fexp64. unfold n. lia.
    + lia.
    + destruct (round_half_even_spec (Zpos pb) (2 ^ n) Hpn) as [Hq _].
      set (Q := Fmt.round_half_even (Zpos pb) (2 ^ n)) in *.
      assert (Hl' : 2 ^ 52 * 2 ^ n <= Zpos pb).
      { rewrite <- Z.pow_add_r by lia.
        replace (52 + n) with (db - 1) by (unfold n; lia). exact Hl. }
      assert (H2_52 : 2 ^ 52 = 4503599627370496) by reflexivity.
      assert (H2_53 : 2 ^ 53 = 9007199254740992) by reflexivity.
      assert (HQ52 : 2 ^ 52 <= Q) by nia.
      assert (Hbig : 2 ^ 53 <= Zpos pb).
      { eapply Z.le_trans; [|exact Hl]. apply Z.pow_le_mono_r; lia. }
      rewrite Hr.
      destruct (Z.eqb_spec Q 0); [lia|].
      destruct (Z.ltb_spec Q (2 ^ 53)).
      * exists (Z.to_pos Q), (0 + n).
        split; [reflexivity|]. split; [|split; [lia|lia]].
        apply digits2_unique. rewrite Z2Pos.id by lia.
        change (53 - 1) with 52. lia.
      * exists (Z.to_pos (2 ^ 52)), (0 + n + 1).
        split; [reflexivity|]. split; [reflexivity|]. split; lia.
Qed.

Lemma pow1024_pow2 (k : Z) : 0 <= k -> 1024 ^ k = 2 ^ (10 * k).
Proof. intros H. rewrite Z.pow_mul_r by lia. reflexivity. Qed.

(** The quotient [humanReadableSize] prints, and its tenths. *)
Lemma quotient_by_pow1024 (b k : Z) :
  1024 <= b <= Int.uint64_max -> 1 <= k <= 6 ->
  exists m e,
    F64.div (F64.of_Z b) (F64.of_Z (1024 ^ k)) = S754_finite false m e /\
    (b < 2 ^ 53 ->
     Fmt.tenths m e = Fmt.round_half_even (10 * b) (1024 ^ k)).
Proof.
  intros Hb Hk.
  destruct (of_Z_normal b Hb) as (m & e & Hof & Hd & He & Hex).
  exists m, (e - 10 * k).
  rewrite Hof, of_Z_pow1024 by assumption.
  split; [apply div_pow2; [exact Hd|lia]|].
  intros Hsmall. destruct (Hex Hsmall) as [He0 Hm].
  unfold Fmt.tenths.
  destruct (e - 10 * k) as [|p|p] eqn:Hp; try lia.
  rewrite Hm, pow1024_pow2 by lia.
  replace (Zpos p) with (10 * k + - e) by lia.
  rewrite Z.pow_add_r by lia.
  replace (10 * (b * 2 ^ (- e))) with (10 * b * 2 ^ (- e)) by ring.
  apply round_half_even_scale; apply Z.pow_pos_nonneg; lia.
Qed.

(** ** The strings of the size formatter *)

Lemma append_assoc (s1 s2 s3 : string) :
  ((s1 ++ s2) ++ s3 = s1 ++ (s2 ++ s3))%string.
Proof.
  induction s1 as [|c s1 IH]; simpl; [reflexivity|].
  rewrite IH. reflexivity.
Qed.

(** C5. Below 1024 the formatter prints the integer and [" B"]. From 1024
    on it prints the float64 quotient of the size by [1024 ^ k], where [k]
    is the power of 1024 the size lies in, with one digit after the point,
    then a space, the [k]-th letter of K, M, G, T, P, E and ["B"]. The
    quotient is a finite float64; below [2 ^ 53] bytes it is the exact
    quotient, and the digits are those of the nearest number of tenths,
    ties to even. *)
Theorem humanReadableSize_format (b : Z) :
  Int.is_uint64 b ->
  (b < 1024 -> humanReadableSize b = Ok (Fmt.verb_d b ++ " B")) /\
  (1024 <= b ->
   exists k c m e,
     1 <= k <= 6 /\
     1024 ^ k <= b < 1024 ^ (k + 1) /\
     String.get (Z.to_nat (k - 1)) "KMGTPE" = Some c /\
     F64.div (F64.of_Z b) (F64.of_Z (1024 ^ k)) = S754_finite false m e /\
     humanReadableSize b =
       Ok (Fmt.verb_f1 (F64.div (F64.of_Z b) (F64.of_Z (1024 ^ k)))
           ++ " " ++ String c "B") /\
     humanReadableSize b =
       Ok (Fmt.verb_d (Fmt.tenths m e / 10) ++ "."
           ++ Fmt.verb_d (Fmt.tenths m e mod 10) ++ " " ++ String c "B") /\
     0 <= Fmt.tenths m e mod 10 <= 9 /\
     (b < 2 ^ 53 ->
      Fmt.tenths m e = Fmt.round_half_even (10 * b) (1024 ^ k))) /\
  humanReadableSize 1536 = Ok "1.5 KB" /\
  humanReadableSize 1073741824 = Ok "1.0 GB".
Proof.
  intros Hr. split; [|split; [|split]].
  - intros Hlt. unfold humanReadableSize, unit.
    destruct (Z.ltb_spec b 1024); [reflexivity|lia].
  - intros Hge.
    destruct (humanReadableSize_loop b Hr Hge) as (k & Hk & Hb & Hrun).
    destruct (index_unit_letters (k - 1) ltac:(lia)) as (c & Hc & Hg).
    destruct (quotient_by_pow1024 b k) as (m & e & Hq & Ht).
    { unfold Int.is_uint64 in Hr. lia. }
    { exact Hk. }
    assert (Hrun' : humanReadableSize b =
              Ok (Fmt.verb_f1 (F64.div (F64.of_Z b) (F64.of_Z (1024 ^ k)))
                  ++ " " ++ String c "B")).
    { unfold humanReadableSize.
      destruct (Z.ltb_spec b unit); [unfold unit in *; lia|].
      rewrite Hrun, Hc. reflexivity. }
    exists k, c, m, e. repeat split; try lia; try assumption.
    + rewrite Hrun', Hq. cbn [Fmt.verb_f1 Fmt.sign_prefix].
      rewrite !append_assoc. reflexivity.
    + apply Z.mod_pos_bound. lia.
    + assert (Fmt.tenths m e mod 10 < 10) by (apply Z.mod_pos_bound; lia).
      lia.
  - vm_compute. reflexivity.
  - vm_compute. reflexivity.
Qed.

Lemma humanReadableSize_format_witness :
  Int.is_uint64 1536 /\ humanReadableSize 1536 = Ok "1.5 KB".
Proof.
  assert (H : Int.is_uint64 1536)
    by (unfold Int.is_uint64, Int.uint64_max; lia).
  split; [exact H|].
  exact (proj1 (proj2 (proj2 (humanReadableSize_format 1536 H)))).
Defined.

(** ** The monad *)

Lemma fst_bind_ok {A B} (m : M A) (k : A -> M B) (a : A) :
  fst m = Ok a -> fst (bind m k) = fst (k a).
Proof.
  destruct m as [o t]. simpl. intros ->. destruct (k a). reflexivity.
Qed.

Lemma bind_ok {A B} (a : A) (t : list event) (k : A -> M B) :
  bind (Ok a, t) k = (fst (k a), (t ++ snd (k a))%list).
Proof. simpl. destruct (k a). reflexivity. Qed.

Lemma usage_calls_app (t1 t2 : list event) :
  usage_calls (t1 ++ t2) = (usage_calls t1 ++ usage_calls t2)%list.
Proof. unfold usage_calls. apply flat_map_app. Qed.

(** ** contains *)

Lemma contains_In (slice : list string) (item : string) :
  contains slice item = true <-> In item slice.
Proof.
  induction slice as [|s rest IH]; simpl.
  - split; [discriminate|tauto].
  - destruct (String.eqb_spec s item) as [->|Hne].
    + split; auto.
    + rewrite IH. split; [auto|]. intros [H|H]; [contradiction|exact H].
Qed.

(** ** One turn of the loop *)

Section LoopBody.

Variable disk_Usage : string -> disk.UsageStat + error.
Variable filepath_Join : string -> string -> string.
Variable ignoreTypes : list string.
Variable hostProc : string.

Local Abbreviation body :=
  (loop_body disk_Usage filepath_Join ignoreTypes hostProc).
Local Abbreviation range :=
  (range_partitions disk_Usage filepath_Join ignoreTypes hostProc).
Local Abbreviation usage_of p :=
  (disk_Usage (filepath_Join hostProc (disk.Mountpoint p))).

Lemma body_no_mountpoint p diskInfos :
  disk.Mountpoint p = "" ->
  body p diskInfos =
    (Ok diskInfos,
     [LogPrintf ("Partition " ++ disk.Device p
                 ++ " has no mountpoint, skipping")]).
Proof. intros H. unfold loop_body. rewrite H. reflexivity. Qed.

Lemma body_usage_error p err diskInfos :
  disk.Mountpoint p <> "" ->
  usage_of p = inr err ->
  body p diskInfos =
    (Ok diskInfos,
     [UsageCall (filepath_Join hostProc (disk.Mountpoint p));
      LogPrintf ("Error getting usage for " ++ disk.Mountpoint p
                 ++ ": " ++ err)]).
Proof.
  intros Hm Hu. unfold loop_body.
  destruct (String.eqb_spec (disk.Mountpoint p) ""); [contradiction|].
  unfold call_Usage. simpl. rewrite Hu. reflexivity.
Qed.

Lemma body_total_zero p u diskInfos :
  disk.Mountpoint p <> "" ->
  usage_of p = inl u ->
  disk.Total u = 0 ->
  body p diskInfos =
    (Ok diskInfos,
     [UsageCall (filepath_Join hostProc (disk.Mountpoint p));
      LogPrintf ("Partition " ++ disk.Mountpoint p
                 ++ " has total size 0, skipping")]).
Proof.
  intros Hm Hu Ht. unfold loop_body.
  destruct (String.eqb_spec (disk.Mountpoint p) ""); [contradiction|].
  unfold call_Usage. simpl. rewrite Hu, Ht. reflexivity.
Qed.

Lemma body_ignored p u diskInfos :
  disk.Mountpoint p <> "" ->
  usage_of p = inl u ->
  disk.Total u <> 0 ->
  contains ignoreTypes (disk.Fstype p) = true ->
  body p diskInfos =
    (Ok diskInfos,
     [UsageCall (filepath_Join hostProc (disk.Mountpoint p));
      LogPrintf ("Partition " ++ disk.Mountpoint p ++ " with type "
                 ++ disk.Fstype p ++ " is in ignore list, skipping")]).
Proof.
  intros Hm Hu Ht Hc. unfold loop_body.
  destruct (String.eqb_spec (disk.Mountpoint p) ""); [contradiction|].
  unfold call_Usage. simpl. rewrite Hu.
  destruct (Z.eqb_spec (disk.Total u) 0); [contradiction|].
  rewrite Hc. reflexivity.
Qed.

Lemma body_emits p u diskInfos :
  disk.Mountpoint p <> "" ->
  usage_of p = inl u ->
  disk.Total u <> 0 ->
  contains ignoreTypes (disk.Fstype p) = false ->
  disk.usage_in_range u ->
  exists d,
    emitted p u d /\
    body p diskInfos =
      (Ok (diskInfos ++ [d])%list,
       [UsageCall (filepath_Join hostProc (disk.Mountpoint p))]).
Proof.
  intros Hm Hu Ht Hc (Hrt & Hru & Hrf).
  destruct (humanReadableSize_returns _ Hrt) as [hs Hhs].
  destruct (humanReadableSize_returns _ Hru) as [hu Hhu].
  destruct (humanReadableSize_returns _ Hrf) as [hf Hhf].
  eexists. split.
  2:{ unfold loop_body.
      destruct (String.eqb_spec (disk.Mountpoint p) ""); [contradiction|].
      unfold call_Usage. simpl. rewrite Hu.
      destruct (Z.eqb_spec (disk.Total u) 0); [contradiction|].
      rewrite Hc. unfold new_DiskInfo, lift. rewrite Hhs, Hhu, Hhf.
      simpl. reflexivity. }
  unfold emitted. simpl. repeat split; assumption.
Qed.

End LoopBody.

(** ** The loop over the partitions *)

Section Range.

Variable disk_Usage : string -> disk.UsageStat + error.
Variable filepath_Join : string -> string -> string.
Variable ignoreTypes : list string.
Variable hostProc : string.

Local Abbreviation body :=
  (loop_body disk_Usage filepath_Join ignoreTypes hostProc).
Local Abbreviation range :=
  (range_partitions disk_Usage filepath_Join ignoreTypes hostProc).
Local Abbreviation keeps :=
  (survives disk_Usage filepath_Join ignoreTypes hostProc).
Local Abbreviation usage_of p :=
  (disk_Usage (filepath_Join hostProc (disk.Mountpoint p))).

Lemma range_cons p rest diskInfos :
  range (p :: rest) diskInfos = bind (body p diskInfos) (range rest).
Proof. reflexivity. Qed.

Lemma range_insert_skipped p t before after :
  skipped disk_Usage filepath_Join ignoreTypes hostProc p t ->
  forall diskInfos,
    fst (range (before ++ p :: after) diskInfos)
    = fst (range (before ++ after) diskInfos) /\
    (usage_calls t = [] ->
     usage_calls (snd (range (before ++ p :: after) diskInfos))
     = usage_calls (snd (range (before ++ after) diskInfos))).
Proof.
  intros Hs. induction before as [|q before IH]; intros diskInfos.
  - simpl app. rewrite range_cons, (Hs diskInfos), bind_ok. simpl.
    split; [reflexivity|]. intros Ht. rewrite usage_calls_app, Ht. reflexivity.
  - simpl app. rewrite !range_cons.
    destruct (body q diskInfos) as [[ds'|msg|] tq].
    + rewrite !bind_ok. simpl. destruct (IH ds') as [IH1 IH2].
      split; [exact IH1|]. intros Ht.
      rewrite !usage_calls_app, (IH2 Ht). reflexivity.
    + simpl. auto.
    + simpl. auto.
Qed.

(** Outside a panic, the records of a run are those of the surviving
    partitions, one each and in their order, after the ones the slice
    held. *)
Lemma range_records partitions :
  usage_samples_in_range disk_Usage ->
  forall diskInfos,
  exists records,
    fst (range partitions diskInfos) = Ok (diskInfos ++ records)%list /\
    Forall2 (fun p d => exists u, usage_of p = inl u /\ emitted p u d)
            (filter keeps partitions) records.
Proof.
  intros Hr. induction partitions as [|p rest IH]; intros diskInfos.
  - exists []. simpl. rewrite app_nil_r. split; [reflexivity|constructor].
  - rewrite range_cons. simpl filter. unfold survives at 1.
    destruct (String.eqb_spec (disk.Mountpoint p) "") as [Hm|Hm].
    { rewrite (body_no_mountpoint disk_Usage filepath_Join ignoreTypes hostProc p diskInfos Hm), bind_ok. simpl.
      apply IH. }
    destruct (usage_of p) as [u|err] eqn:Hu.
    2:{ rewrite (body_usage_error disk_Usage filepath_Join ignoreTypes hostProc p err diskInfos Hm Hu), bind_ok. simpl.
        apply IH. }
    destruct (Z.eqb_spec (disk.Total u) 0) as [Ht|Ht].
    { rewrite (body_total_zero disk_Usage filepath_Join ignoreTypes hostProc p u diskInfos Hm Hu Ht), bind_ok. simpl.
      apply IH. }
    destruct (contains ignoreTypes (disk.Fstype p)) eqn:Hc.
    { rewrite (body_ignored disk_Usage filepath_Join ignoreTypes hostProc p u diskInfos Hm Hu Ht Hc), bind_ok. simpl.
      apply IH. }
    destruct (body_emits disk_Usage filepath_Join ignoreTypes hostProc p u diskInfos Hm Hu Ht Hc (Hr _ _ Hu))
      as (d & Hd & Hb).
    rewrite Hb, bind_ok. simpl.
    destruct (IH (diskInfos ++ [d])%list) as (records & Hrun & Hall).
    exists (d :: records). split.
    + rewrite Hrun. rewrite <- app_assoc. reflexivity.
    + constructor; [|exact Hall]. exists u. split; [exact Hu|exact Hd].
Qed.

(** The usage queries of a run that does not panic: one per partition
    with a mount point, in order. *)
Lemma range_usage_calls partitions :
  usage_samples_in_range disk_Usage ->
  forall diskInfos,
    usage_calls (snd (range partitions diskInfos))
    = map (fun p => filepath_Join hostProc (disk.Mountpoint p))
          (filter (fun p => negb (String.eqb (disk.Mountpoint p) ""))
                  partitions).
Proof.
  intros Hr. induction partitions as [|p rest IH]; intros diskInfos.
  - reflexivity.
  - rewrite range_cons. simpl filter.
    destruct (String.eqb_spec (disk.Mountpoint p) "") as [Hm|Hm].
    { rewrite (body_no_mountpoint disk_Usage filepath_Join ignoreTypes hostProc p diskInfos Hm), bind_ok. simpl.
      apply IH. }
    destruct (usage_of p) as [u|err] eqn:Hu.
    2:{ rewrite (body_usage_error disk_Usage filepath_Join ignoreTypes hostProc p err diskInfos Hm Hu), bind_ok. simpl.
        f_equal. apply IH. }
    destruct (Z.eqb_spec (disk.Total u) 0) as [Ht|Ht].
    { rewrite (body_total_zero disk_Usage filepath_Join ignoreTypes hostProc p u diskInfos Hm Hu Ht), bind_ok. simpl.
      f_equal. apply IH. }
    destruct (contains ignoreTypes (disk.Fstype p)) eqn:Hc.
    { rewrite (body_ignored disk_Usage filepath_Join ignoreTypes hostProc p u diskInfos Hm Hu Ht Hc), bind_ok. simpl.
      f_equal. apply IH. }
    destruct (body_emits disk_Usage filepath_Join ignoreTypes hostProc p u diskInfos Hm Hu Ht Hc (Hr _ _ Hu))
      as (d & Hd & Hb).
    rewrite Hb, bind_ok. simpl. f_equal. apply IH.
Qed.

(** What a turn that returns has done to the slice: nothing, or appended
    the record of a surviving partition. *)
Lemma body_returns p diskInfos diskInfos' t :
  body p diskInfos = (Ok diskInfos', t) ->
  diskInfos' = diskInfos \/
  exists u d,
    diskInfos' = (diskInfos ++ [d])%list /\
    keeps p = true /\ usage_of p = inl u /\ emitted p u d.
Proof.
  unfold loop_body, survives.
  destruct (String.eqb_spec (disk.Mountpoint p) "") as [Hm|Hm].
  { simpl. intros [= <- _]. left. reflexivity. }
  unfold call_Usage. simpl.
  destruct (usage_of p) as [u|err] eqn:Hu.
  2:{ simpl. intros [= <- _]. left. reflexivity. }
  destruct (Z.eqb_spec (disk.Total u) 0) as [Ht|Ht].
  { simpl. intros [= <- _]. left. reflexivity. }
  destruct (contains ignoreTypes (disk.Fstype p)) eqn:Hc.
  { simpl. intros [= <- _]. left. reflexivity. }
  unfold new_DiskInfo, lift.
  destruct (humanReadableSize (disk.Total u)) as [hs| |] eqn:Hhs;
    simpl; try discriminate.
  destruct (humanReadableSize (disk.Used u)) as [hu| |] eqn:Hhu;
    simpl; try discriminate.
  destruct (humanReadableSize (disk.Free u)) as [hf| |] eqn:Hhf;
    simpl; try discriminate.
  intros [= <- _]. right. eexists u, _. split; [reflexivity|].
  split; [reflexivity|]. split; [reflexivity|].
  unfold emitted. simpl. repeat split; assumption.
Qed.

(** Every record of a run that returns comes from a surviving partition
    of the enumeration. *)
Lemma range_returns partitions :
  forall diskInfos out,
    fst (range partitions diskInfos) = Ok out ->
    exists records,
      out = (diskInfos ++ records)%list /\
      Forall (fun d => exists p u,
                  In p partitions /\ keeps p = true /\
                  usage_of p = inl u /\ emitted p u d) records.
Proof.
  induction partitions as [|p rest IH]; intros diskInfos out.
  - simpl. intros [= <-]. exists []. rewrite app_nil_r. auto.
  - rewrite range_cons.
    destruct (body p diskInfos) as [[ds'|msg|] t] eqn:Hb;
      [|simpl; discriminate|simpl; discriminate].
    rewrite bind_ok. simpl. intros Hrun.
    destruct (IH _ _ Hrun) as (records & -> & Hall).
    assert (Hall' : Forall (fun d => exists p0 u,
                       In p0 (p :: rest) /\ keeps p0 = true /\
                       usage_of p0 = inl u /\ emitted p0 u d) records).
    { eapply Forall_impl; [|exact Hall].
      intros d (p0 & u & Hin & H). exists p0, u. split; [right; exact Hin|exact H]. }
    destruct (body_returns _ _ _ _ Hb) as [->|(u & d & -> & Hk & Hu & Hd)].
    + exists records. auto.
    + exists (d :: records). rewrite <- app_assoc. split; [reflexivity|].
      constructor; [|exact Hall'].
      exists p, u. split; [left; reflexivity|auto].
Qed.

End Range.

(** ** The collector *)

Lemma gather_enumerated disk_Usage filepath_Join ignoreTypes hostProc
    partitions :
  gatherDiskInfo (enumerates partitions) disk_Usage filepath_Join
                 ignoreTypes hostProc
  = (fst (range_partitions disk_Usage filepath_Join ignoreTypes hostProc
            partitions []),
     PartitionsCall true
       :: snd (range_partitions disk_Usage filepath_Join ignoreTypes
                 hostProc partitions [])).
Proof.
  unfold gatherDiskInfo, call_Partitions, enumerates. simpl.
  destruct (range_partitions _ _ _ _ partitions []). reflexivity.
Qed.

Lemma fst_gather_enumerated disk_Usage filepath_Join ignoreTypes hostProc
    partitions :
  fst (gatherDiskInfo (enumerates partitions) disk_Usage filepath_Join
         ignoreTypes hostProc)
  = fst (range_partitions disk_Usage filepath_Join ignoreTypes hostProc
           partitions []).
Proof. rewrite gather_enumerated. reflexivity. Qed.

Lemma fixture_usage_in_range : usage_samples_in_range Fixture.Usage.
Proof.
  intros path u. unfold Fixture.Usage.
  destruct (String.eqb path "/proc/mnt/root");
    [|destruct (String.eqb path "/proc/mnt/shm");
      [|destruct (String.eqb path "/proc/mnt/proc")]];
    intros [= <-]; unfold disk.usage_in_range, Int.is_uint64, Int.uint64_max;
    simpl; lia.
Qed.

(** C8. When the enumeration of the partitions fails, the collector logs
    the error and returns the empty slice: no panic, no error handed to
    the caller, no usage query. *)
Theorem enumeration_failure_yields_empty
    disk_Partitions disk_Usage filepath_Join ignoreTypes hostProc
    partitions err :
  disk_Partitions true = (partitions, Some err) ->
  gatherDiskInfo disk_Partitions disk_Usage filepath_Join ignoreTypes hostProc
  = (Ok [],
     [PartitionsCall true;
      LogPrintf ("Error retrieving partitions: " ++ err)]).
Proof.
  intros H. unfold gatherDiskInfo, call_Partitions. simpl. rewrite H.
  reflexivity.
Qed.

Lemma enumeration_failure_yields_empty_witness :
  fst (gatherDiskInfo (fun _ => ([Fixture.root], Some "permission denied"))
         Fixture.Usage Fixture.Join [] Fixture.hostProc) = Ok [].
Proof.
  rewrite (enumeration_failure_yields_empty
             (fun _ => ([Fixture.root], Some "permission denied"))
             Fixture.Usage Fixture.Join [] Fixture.hostProc
             [Fixture.root] "permission denied" eq_refl).
  reflexivity.
Defined.

(** C7. A partition whose mount point is the empty string is skipped with
    a log line: its turn of the loop returns the slice as it was and makes
    no usage query, and listing it changes neither the records nor the
    usage queries of the run. *)
Theorem empty_mountpoint_is_skipped
    disk_Usage filepath_Join ignoreTypes hostProc p before after :
  disk.Mountpoint p = "" ->
  skipped disk_Usage filepath_Join ignoreTypes hostProc p
    [LogPrintf ("Partition " ++ disk.Device p
                ++ " has no mountpoint, skipping")] /\
  fst (gatherDiskInfo (enumerates (before ++ p :: after)) disk_Usage
         filepath_Join ignoreTypes hostProc)
  = fst (gatherDiskInfo (enumerates (before ++ after)) disk_Usage
           filepath_Join ignoreTypes hostProc) /\
  usage_calls (snd (gatherDiskInfo (enumerates (before ++ p :: after))
                      disk_Usage filepath_Join ignoreTypes hostProc))
  = usage_calls (snd (gatherDiskInfo (enumerates (before ++ after))
                        disk_Usage filepath_Join ignoreTypes hostProc)).
Proof.
  intros Hm.
  assert (Hs : skipped disk_Usage filepath_Join ignoreTypes hostProc p
                 [LogPrintf ("Partition " ++ disk.Device p
                             ++ " has no mountpoint, skipping")]).
  { intros diskInfos. apply body_no_mountpoint. exact Hm. }
  split; [exact Hs|].
  rewrite !gather_enumerated. simpl.
  destruct (range_insert_skipped _ _ _ _ _ _ before after Hs []) as [H1 H2].
  split; [exact H1|]. apply H2. reflexivity.
Qed.

Lemma empty_mountpoint_is_skipped_witness :
  fst (gatherDiskInfo
         (enumerates ([Fixture.root] ++ Fixture.unmounted :: [Fixture.shm]))
         Fixture.Usage Fixture.Join [] Fixture.hostProc)
  = fst (gatherDiskInfo (enumerates ([Fixture.root] ++ [Fixture.shm]))
           Fixture.Usage Fixture.Join [] Fixture.hostProc).
Proof.
  exact (proj1 (proj2 (empty_mountpoint_is_skipped
                         Fixture.Usage Fixture.Join [] Fixture.hostProc
                         Fixture.unmounted [Fixture.root] [Fixture.shm]
                         eq_refl))).
Defined.

(** C6. A partition whose usage sample reports a total size of 0 is
    skipped right after the query: its turn of the loop returns the slice
    as it was and does nothing but the query and a log line (no size is
    formatted, nothing is divided), listing it does not change the records
    of the run, and no record of a run has size 0. *)
Theorem zero_total_is_skipped
    disk_Usage filepath_Join ignoreTypes hostProc p u before after :
  disk.Mountpoint p <> "" ->
  disk_Usage (filepath_Join hostProc (disk.Mountpoint p)) = inl u ->
  disk.Total u = 0 ->
  skipped disk_Usage filepath_Join ignoreTypes hostProc p
    [UsageCall (filepath_Join hostProc (disk.Mountpoint p));
     LogPrintf ("Partition " ++ disk.Mountpoint p
                ++ " has total size 0, skipping")] /\
  fst (gatherDiskInfo (enumerates (before ++ p :: after)) disk_Usage
         filepath_Join ignoreTypes hostProc)
  = fst (gatherDiskInfo (enumerates (before ++ after)) disk_Usage
           filepath_Join ignoreTypes hostProc) /\
  (forall partitions infos,
      fst (gatherDiskInfo (enumerates partitions) disk_Usage
             filepath_Join ignoreTypes hostProc) = Ok infos ->
      Forall (fun d => Size d <> 0) infos).
Proof.
  intros Hm Hu Ht.
  assert (Hs : skipped disk_Usage filepath_Join ignoreTypes hostProc p
                 [UsageCall (filepath_Join hostProc (disk.Mountpoint p));
                  LogPrintf ("Partition " ++ disk.Mountpoint p
                             ++ " has total size 0, skipping")]).
  { intros diskInfos. eapply body_total_zero; eauto. }
  split; [exact Hs|]. split.
  - rewrite !gather_enumerated. simpl.
    apply (range_insert_skipped _ _ _ _ _ _ before after Hs []).
  - intros partitions infos. rewrite gather_enumerated. simpl. intros Hrun.
    destruct (range_returns _ _ _ _ _ _ _ Hrun) as (records & -> & Hall).
    simpl. eapply Forall_impl; [|exact Hall].
    intros d (q & v & _ & Hk & Hv & Hd). unfold survives in Hk.
    rewrite Hv in Hk.
    destruct Hd as (_ & _ & Hsz & _). rewrite Hsz.
    destruct (Z.eqb_spec (disk.Total v) 0) as [Hz|Hz]; [|exact Hz].
    rewrite andb_false_r in Hk. discriminate.
Qed.

Lemma zero_total_is_skipped_witness :
  fst (gatherDiskInfo
         (enumerates ([Fixture.root] ++ Fixture.pseudo :: [Fixture.shm]))
         Fixture.Usage Fixture.Join [] Fixture.hostProc)
  = fst (gatherDiskInfo (enumerates ([Fixture.root] ++ [Fixture.shm]))
           Fixture.Usage Fixture.Join [] Fixture.hostProc).
Proof.
  refine (proj1 (proj2 (zero_total_is_skipped
                          Fixture.Usage Fixture.Join [] Fixture.hostProc
                          Fixture.pseudo Fixture.pseudo_usage
                          [Fixture.root] [Fixture.shm] _ eq_refl eq_refl))).
  discriminate.
Defined.

Lemma Forall2_In_left {A B} (R : A -> B -> Prop) (l : list A)
    (l' : list B) (x : A) :
  Forall2 R l l' -> In x l -> exists y, In y l' /\ R x y.
Proof.
  induction 1 as [|a b l l' Hab _ IH]; intros Hx; [contradiction|].
  destruct Hx as [->|Hx].
  - exists b. split; [left; reflexivity|exact Hab].
  - destruct (IH Hx) as (y & Hy & Hr). exists y.
    split; [right; exact Hy|exact Hr].
Qed.

(** C3. [contains] is membership under equality of strings, and the loop
    applies it to the file system type and to nothing else. A partition
    whose type is in [ignoreTypes] is skipped whatever its sample holds,
    listing it does not change the records of the run, and no record of a
    run has a type of [ignoreTypes]. A partition whose type is not in
    [ignoreTypes], and which passes the other checks, has its record in
    the run whatever its device name is and whatever the list holds: a
    device name in the list, an entry that is a prefix of the type or the
    type in another case do not hide it, as in the run on the root and
    the tmpfs partitions with such a list, which returns both. *)
Theorem ignored_type_is_skipped
    disk_Usage filepath_Join ignoreTypes hostProc p before after :
  In (disk.Fstype p) ignoreTypes ->
  (forall slice item, contains slice item = true <-> In item slice) /\
  (exists t, skipped disk_Usage filepath_Join ignoreTypes hostProc p t) /\
  fst (gatherDiskInfo (enumerates (before ++ p :: after)) disk_Usage
         filepath_Join ignoreTypes hostProc)
  = fst (gatherDiskInfo (enumerates (before ++ after)) disk_Usage
           filepath_Join ignoreTypes hostProc) /\
  (forall partitions infos,
      fst (gatherDiskInfo (enumerates partitions) disk_Usage
             filepath_Join ignoreTypes hostProc) = Ok infos ->
      Forall (fun d => ~ In (Type_ d) ignoreTypes) infos) /\
  (usage_samples_in_range disk_Usage ->
   forall partitions q u,
     In q partitions ->
     disk.Mountpoint q <> "" ->
     disk_Usage (filepath_Join hostProc (disk.Mountpoint q)) = inl u ->
     disk.Total u <> 0 ->
     ~ In (disk.Fstype q) ignoreTypes ->
     exists infos d,
       fst (gatherDiskInfo (enumerates partitions) disk_Usage
              filepath_Join ignoreTypes hostProc) = Ok infos /\
       In d infos /\ emitted q u d) /\
  (exists d1 d2,
      fst (gatherDiskInfo (enumerates [Fixture.root; Fixture.shm])
             Fixture.Usage Fixture.Join
             ["/dev/sda1"; "tmp"; "tmpfs2"; "EXT4"] Fixture.hostProc)
      = Ok [d1; d2] /\
      Device d1 = "/dev/sda1" /\ Type_ d1 = "ext4" /\
      Type_ d2 = "tmpfs") /\
  contains ["tmpfs"] "tmp" = false /\
  contains ["tmp"] "tmpfs" = false /\
  contains ["cdrom"] "CDROM" = false.
Proof.
  intros Hin. apply contains_In in Hin.
  split; [exact contains_In|].
  assert (Hs : exists t,
             skipped disk_Usage filepath_Join ignoreTypes hostProc p t).
  { destruct (String.eqb_spec (disk.Mountpoint p) "") as [Hm|Hm].
    { eexists. intros diskInfos. apply body_no_mountpoint. exact Hm. }
    destruct (disk_Usage (filepath_Join hostProc (disk.Mountpoint p)))
      as [u|err] eqn:Hu.
    2:{ eexists. intros diskInfos. eapply body_usage_error; eauto. }
    destruct (Z.eq_dec (disk.Total u) 0) as [Ht|Ht].
    { eexists. intros diskInfos. eapply body_total_zero; eauto. }
    eexists. intros diskInfos. eapply body_ignored; eauto. }
  split; [exact Hs|]. split; [|split; [|split; [|split]]].
  - destruct Hs as [t Hs]. rewrite !gather_enumerated. simpl.
    apply (range_insert_skipped _ _ _ _ _ _ before after Hs []).
  - intros partitions infos. rewrite gather_enumerated. simpl. intros Hrun.
    destruct (range_returns _ _ _ _ _ _ _ Hrun) as (records & -> & Hall).
    simpl. eapply Forall_impl; [|exact Hall].
    intros d (q & v & _ & Hk & Hv & Hd). unfold survives in Hk.
    rewrite Hv in Hk.
    destruct Hd as (_ & Hty & _). rewrite Hty, <- contains_In.
    destruct (contains ignoreTypes (disk.Fstype q)); [|discriminate].
    rewrite !andb_false_r in Hk. discriminate.
  - intros Hr partitions q u Hq Hm Hu Ht Hty.
    rewrite fst_gather_enumerated.
    destruct (range_records disk_Usage filepath_Join ignoreTypes hostProc
                partitions Hr []) as (records & Hrun & Hall).
    assert (Hk : In q (filter (survives disk_Usage filepath_Join
                                 ignoreTypes hostProc) partitions)).
    { apply filter_In. split; [exact Hq|]. unfold survives. rewrite Hu.
      destruct (String.eqb_spec (disk.Mountpoint q) ""); [contradiction|].
      destruct (Z.eqb_spec (disk.Total u) 0); [contradiction|].
      destruct (contains ignoreTypes (disk.Fstype q)) eqn:Hc;
        [|reflexivity].
      apply contains_In in Hc. contradiction. }
    destruct (Forall2_In_left _ _ _ q Hall Hk) as (d & Hd & v & Hv & He).
    rewrite Hu in Hv. injection Hv as <-.
    exists records, d. split; [exact Hrun|]. split; assumption.
  - eexists _, _. split; [vm_compute; reflexivity|]. repeat split.
  - repeat split.
Qed.

Lemma ignored_type_is_skipped_witness :
  fst (gatherDiskInfo
         (enumerates ([Fixture.root] ++ Fixture.shm :: [Fixture.stale]))
         Fixture.Usage Fixture.Join ["cdrom"; "tmpfs"] Fixture.hostProc)
  = fst (gatherDiskInfo (enumerates ([Fixture.root] ++ [Fixture.stale]))
           Fixture.Usage Fixture.Join ["cdrom"; "tmpfs"] Fixture.hostProc).
Proof.
  refine (proj1 (proj2 (proj2 (ignored_type_is_skipped
                          Fixture.Usage Fixture.Join ["cdrom"; "tmpfs"]
                          Fixture.hostProc Fixture.shm
                          [Fixture.root] [Fixture.stale] _)))).
  simpl. right. left. reflexivity.
Defined.

Lemma valid_partition_survives disk_Usage filepath_Join hostProc p :
  survives disk_Usage filepath_Join [] hostProc p
  = valid_partition disk_Usage filepath_Join hostProc p.
Proof.
  unfold survives, valid_partition.
  destruct (disk_Usage _); [|reflexivity].
  simpl. rewrite andb_true_r. reflexivity.
Qed.

(** C9. With an empty ignore set and a usage layer that reports uint64
    sizes, the collector returns, and its records are those of the valid
    partitions of the enumeration (a mount point, a usage query that
    succeeds, a total that is not zero): one each, in the order of the
    enumeration. *)
Theorem empty_ignore_set_lists_valid_partitions
    disk_Usage filepath_Join hostProc partitions :
  usage_samples_in_range disk_Usage ->
  exists infos,
    fst (gatherDiskInfo (enumerates partitions) disk_Usage filepath_Join
           [] hostProc) = Ok infos /\
    Forall2 (fun p d =>
               exists u,
                 disk_Usage (filepath_Join hostProc (disk.Mountpoint p))
                 = inl u /\ emitted p u d)
            (filter (valid_partition disk_Usage filepath_Join hostProc)
                    partitions)
            infos /\
    map Device infos
    = map disk.Device
          (filter (valid_partition disk_Usage filepath_Join hostProc)
                  partitions).
Proof.
  intros Hr. rewrite gather_enumerated. simpl.
  destruct (range_records disk_Usage filepath_Join [] hostProc partitions
              Hr []) as (records & Hrun & Hall).
  exists records. simpl in Hrun. split; [exact Hrun|].
  rewrite (filter_ext _ _ (valid_partition_survives disk_Usage filepath_Join
                             hostProc)) in Hall.
  split; [exact Hall|]. clear Hrun.
  induction Hall as [|p d ps ds (u & _ & Hd) _ IH]; simpl.
  - reflexivity.
  - destruct Hd as (Hd & _). rewrite Hd, IH. reflexivity.
Qed.

Lemma empty_ignore_set_lists_valid_partitions_witness :
  exists infos,
    fst (gatherDiskInfo
           (enumerates [Fixture.shm; Fixture.unmounted; Fixture.stale;
                        Fixture.pseudo; Fixture.root])
           Fixture.Usage Fixture.Join [] Fixture.hostProc) = Ok infos /\
    map Device infos = ["tmpfs"; "/dev/sda1"].
Proof.
  destruct (empty_ignore_set_lists_valid_partitions
              Fixture.Usage Fixture.Join Fixture.hostProc
              [Fixture.shm; Fixture.unmounted; Fixture.stale;
               Fixture.pseudo; Fixture.root]
              fixture_usage_in_range) as (infos & Hrun & _ & Hdev).
  exists infos. split; [exact Hrun|exact Hdev].
Defined.

(** C2, as the collector has it. A mount whose usage query fails is
    logged and left out, and the run goes on: listing it does not change
    the records of the run. The enumeration of one failing mount and one
    mount whose query succeeds returns exactly the record of the second,
    in either order and without a panic, when the second passes the
    checks that come after the query: a total that is not zero and a type
    that is not ignored. *)
Theorem failing_mount_is_omitted
    disk_Usage filepath_Join ignoreTypes hostProc bad good err u :
  disk.Mountpoint bad <> "" ->
  disk_Usage (filepath_Join hostProc (disk.Mountpoint bad)) = inr err ->
  disk.Mountpoint good <> "" ->
  disk_Usage (filepath_Join hostProc (disk.Mountpoint good)) = inl u ->
  disk.usage_in_range u ->
  disk.Total u <> 0 ->
  contains ignoreTypes (disk.Fstype good) = false ->
  skipped disk_Usage filepath_Join ignoreTypes hostProc bad
    [UsageCall (filepath_Join hostProc (disk.Mountpoint bad));
     LogPrintf ("Error getting usage for " ++ disk.Mountpoint bad
                ++ ": " ++ err)] /\
  (forall before after,
      fst (gatherDiskInfo (enumerates (before ++ bad :: after)) disk_Usage
             filepath_Join ignoreTypes hostProc)
      = fst (gatherDiskInfo (enumerates (before ++ after)) disk_Usage
               filepath_Join ignoreTypes hostProc)) /\
  exists d,
    emitted good u d /\
    fst (gatherDiskInfo (enumerates [bad; good]) disk_Usage filepath_Join
           ignoreTypes hostProc) = Ok [d] /\
    fst (gatherDiskInfo (enumerates [good; bad]) disk_Usage filepath_Join
           ignoreTypes hostProc) = Ok [d].
Proof.
  intros Hmb Hub Hmg Hug Hr Ht Hc.
  assert (Hs : skipped disk_Usage filepath_Join ignoreTypes hostProc bad
                 [UsageCall (filepath_Join hostProc (disk.Mountpoint bad));
                  LogPrintf ("Error getting usage for "
                             ++ disk.Mountpoint bad ++ ": " ++ err)]).
  { intros diskInfos. eapply body_usage_error; eauto. }
  split; [exact Hs|]. split.
  - intros before after. rewrite !gather_enumerated. simpl.
    apply (range_insert_skipped _ _ _ _ _ _ before after Hs []).
  - destruct (body_emits disk_Usage filepath_Join ignoreTypes hostProc
                good u [] Hmg Hug Ht Hc Hr) as (d & Hd & Hb).
    exists d. split; [exact Hd|].
    rewrite !fst_gather_enumerated.
    split.
    + rewrite range_cons, (Hs []), bind_ok. cbn [fst].
      rewrite range_cons, Hb, bind_ok. reflexivity.
    + rewrite range_cons, Hb, bind_ok. cbn [fst].
      rewrite range_cons, (Hs _), bind_ok. reflexivity.
Qed.

Lemma failing_mount_is_omitted_witness :
  exists d,
    emitted Fixture.root Fixture.root_usage d /\
    fst (gatherDiskInfo (enumerates [Fixture.stale; Fixture.root])
           Fixture.Usage Fixture.Join ["cdrom"] Fixture.hostProc) = Ok [d].
Proof.
  assert (Hr : disk.usage_in_range Fixture.root_usage)
    by (apply (fixture_usage_in_range "/proc/mnt/root"); reflexivity).
  assert (Hm1 : disk.Mountpoint Fixture.stale <> "") by discriminate.
  assert (Hm2 : disk.Mountpoint Fixture.root <> "") by discriminate.
  assert (Ht : disk.Total Fixture.root_usage <> 0) by discriminate.
  destruct (failing_mount_is_omitted
              Fixture.Usage Fixture.Join ["cdrom"] Fixture.hostProc
              Fixture.stale Fixture.root "no such file or directory"
              Fixture.root_usage Hm1 eq_refl Hm2 eq_refl Hr Ht eq_refl)
    as (_ & _ & d & Hd & Hrun & _).
  exists d. split; [exact Hd|exact Hrun].
Defined.

(** C2, as the specification has it, fails: a mount whose usage query
    succeeds is not always listed. The proc file system answers the query
    with a total of 0, and a tmpfs answers it with a type the caller
    ignores: next to a mount whose query fails, either gives a run that
    returns no record at all, not one. *)
Lemma succeeding_mount_can_be_left_out :
  Fixture.Usage
    (Fixture.Join Fixture.hostProc (disk.Mountpoint Fixture.stale))
  = inr "no such file or directory" /\
  Fixture.Usage
    (Fixture.Join Fixture.hostProc (disk.Mountpoint Fixture.pseudo))
  = inl Fixture.pseudo_usage /\
  fst (gatherDiskInfo (enumerates [Fixture.stale; Fixture.pseudo])
         Fixture.Usage Fixture.Join [] Fixture.hostProc) = Ok [] /\
  Fixture.Usage
    (Fixture.Join Fixture.hostProc (disk.Mountpoint Fixture.shm))
  = inl Fixture.shm_usage /\
  fst (gatherDiskInfo (enumerates [Fixture.stale; Fixture.shm])
         Fixture.Usage Fixture.Join ["tmpfs"] Fixture.hostProc) = Ok [] /\
  ~ (exists d,
        fst (gatherDiskInfo (enumerates [Fixture.stale; Fixture.pseudo])
               Fixture.Usage Fixture.Join [] Fixture.hostProc) = Ok [d]).
Proof.
  repeat split; try (vm_compute; reflexivity).
  intros [d Hd]. vm_compute in Hd. discriminate.
Qed.

(** The percentages of the records of a run. *)
Lemma percentages_of_records
    disk_Usage filepath_Join ignoreTypes hostProc partitions :
  usage_samples_in_range disk_Usage ->
  exists infos,
    fst (gatherDiskInfo (enumerates partitions) disk_Usage filepath_Join
           ignoreTypes hostProc) = Ok infos /\
    Forall2 (fun p d =>
               exists u,
                 disk_Usage (filepath_Join hostProc (disk.Mountpoint p))
                 = inl u /\
                 disk.Total u <> 0 /\
                 UsedPercent d = disk.UsedPercent u /\
                 FreePercent d = F64.sub F64.hundred (UsedPercent d))
            (filter (survives disk_Usage filepath_Join ignoreTypes hostProc)
                    partitions)
            infos.
Proof.
  intros Hr. rewrite gather_enumerated. simpl.
  destruct (range_records disk_Usage filepath_Join ignoreTypes hostProc
              partitions Hr []) as (records & Hrun & Hall).
  exists records. simpl in Hrun. split; [exact Hrun|].
  assert (Hk : Forall (fun p => survives disk_Usage filepath_Join
                                  ignoreTypes hostProc p = true)
                 (filter (survives disk_Usage filepath_Join ignoreTypes
                            hostProc) partitions)).
  { apply Forall_forall. intros p Hp. apply filter_In in Hp. tauto. }
  clear Hrun.
  induction Hall as [|p d ps ds (u & Hu & Hd) _ IH]; constructor.
  - inversion Hk as [|? ? Hp _]; subst. unfold survives in Hp.
    rewrite Hu in Hp. exists u. split; [exact Hu|].
    destruct Hd as (_ & _ & _ & _ & _ & _ & _ & _ & Hup & Hfp).
    split; [|split; [exact Hup|rewrite Hup; exact Hfp]].
    destruct (Z.eqb_spec (disk.Total u) 0); [|assumption].
    rewrite andb_false_r in Hp. discriminate.
  - apply IH. inversion Hk; assumption.
Qed.

(** C1, as the collector has it. The used percentage of a record is the
    [UsedPercent] the usage sample reports, as it is (the collector does
    not compute it from the used and total bytes, and does not round it),
    and the free percentage is the float64 difference [100 - UsedPercent].
    This holds of each record of a run, which are those of the surviving
    partitions, one each and in order. *)
Theorem percentages_are_the_reported_ones
    disk_Usage filepath_Join ignoreTypes hostProc partitions :
  usage_samples_in_range disk_Usage ->
  exists infos,
    fst (gatherDiskInfo (enumerates partitions) disk_Usage filepath_Join
           ignoreTypes hostProc) = Ok infos /\
    Forall2 (fun p d =>
               exists u,
                 disk_Usage (filepath_Join hostProc (disk.Mountpoint p))
                 = inl u /\
                 disk.Total u <> 0 /\
                 UsedPercent d = disk.UsedPercent u /\
                 FreePercent d = F64.sub F64.hundred (UsedPercent d))
            (filter (survives disk_Usage filepath_Join ignoreTypes hostProc)
                    partitions)
            infos.
Proof.
  apply percentages_of_records.
Qed.

Lemma percentages_are_the_reported_ones_witness :
  exists infos,
    fst (gatherDiskInfo (enumerates [Fixture.root; Fixture.shm])
           Fixture.Usage Fixture.Join ["tmpfs"] Fixture.hostProc)
    = Ok infos.
Proof.
  destruct (percentages_are_the_reported_ones
              Fixture.Usage Fixture.Join ["tmpfs"] Fixture.hostProc
              [Fixture.root; Fixture.shm] fixture_usage_in_range)
    as (infos & Hrun & _).
  exists infos. exact Hrun.
Defined.

(** C1, as the specification has it, fails: on a file system of 100 bytes
    with 50 used, 40 free and 10 reserved, the usage layer reports 55.5...
    percent used and the record carries that value, not (50 / 100) * 100. *)
Lemma used_percent_is_not_used_over_total :
  exists d,
    fst (gatherDiskInfo (enumerates [Fixture.root]) Fixture.Usage
           Fixture.Join [] Fixture.hostProc) = Ok [d] /\
    Size d = 100 /\ Used d = 50 /\
    F64.mul (F64.div (F64.of_Z (Used d)) (F64.of_Z (Size d))) F64.hundred
    = F64.of_Z 50 /\
    UsedPercent d = S754_finite false 7818749353073778 (-47) /\
    F64.eqb (UsedPercent d)
      (F64.mul (F64.div (F64.of_Z (Used d)) (F64.of_Z (Size d)))
         F64.hundred) = false.
Proof.
  eexists. split; [vm_compute; reflexivity|].
  vm_compute. repeat split.
Qed.

(** ** The earlier revision *)

(** What the checks of the later revision are for: in the earlier one a
    mount whose usage query fails stops the whole listing with a panic,
    and so does a partition without a mount point once the query on the
    empty path fails. *)
Lemma earlier_failing_mount_panics
    disk_Partitions disk_Usage ignoreTypes p rest err :
  disk_Partitions true = (p :: rest, None) ->
  disk_Usage (disk.Mountpoint p) = inr err ->
  fst (Earlier.gatherDiskInfo disk_Partitions disk_Usage ignoreTypes)
  = Panic "invalid memory address or nil pointer dereference".
Proof.
  intros Hp Hu.
  unfold Earlier.gatherDiskInfo, call_Partitions. simpl. rewrite Hp.
  simpl. unfold Earlier.loop_body, call_Usage. simpl. rewrite Hu.
  reflexivity.
Qed.

(** ** More on the loop over the partitions *)

Section RangeMore.

Variable disk_Usage : string -> disk.UsageStat + error.
Variable filepath_Join : string -> string -> string.
Variable hostProc : string.

Local Abbreviation body ign :=
  (loop_body disk_Usage filepath_Join ign hostProc).
Local Abbreviation range ign :=
  (range_partitions disk_Usage filepath_Join ign hostProc).

Lemma outcome_map_app (ds r : list DiskInfo) (o : outcome (list DiskInfo)) :
  outcome_map (app ds) (outcome_map (app r) o)
  = outcome_map (app (ds ++ r)%list) o.
Proof. destruct o; simpl; [rewrite app_assoc|..]; reflexivity. Qed.

(** A turn of the loop only appends to the slice it is given. *)
Lemma body_acc ign p diskInfos :
  body ign p diskInfos
  = (outcome_map (app diskInfos) (fst (body ign p [])),
     snd (body ign p [])).
Proof.
  unfold loop_body.
  destruct (String.eqb (disk.Mountpoint p) "").
  { simpl. rewrite app_nil_r. reflexivity. }
  unfold call_Usage. simpl.
  destruct (disk_Usage (filepath_Join hostProc (disk.Mountpoint p)))
    as [u|err].
  2:{ simpl. rewrite app_nil_r. reflexivity. }
  destruct (disk.Total u =? 0).
  { simpl. rewrite app_nil_r. reflexivity. }
  destruct (contains ign (disk.Fstype p)).
  { simpl. rewrite app_nil_r. reflexivity. }
  destruct (new_DiskInfo p u) as [[d| |] t]; reflexivity.
Qed.

Lemma range_acc ign partitions :
  forall diskInfos,
    range ign partitions diskInfos
    = (outcome_map (app diskInfos) (fst (range ign partitions [])),
       snd (range ign partitions [])).
Proof.
  induction partitions as [|p rest IH]; intros diskInfos.
  - simpl. rewrite app_nil_r. reflexivity.
  - rewrite !range_cons, (body_acc ign p diskInfos).
    destruct (body ign p []) as [[r| |] t]; try reflexivity.
    cbn [fst snd outcome_map]. rewrite !bind_ok.
    rewrite (IH (diskInfos ++ r)%list), (IH r). cbn [fst snd].
    rewrite outcome_map_app. reflexivity.
Qed.

Lemma range_app ign before after :
  forall diskInfos,
    range ign (before ++ after) diskInfos
    = bind (range ign before diskInfos) (range ign after).
Proof.
  induction before as [|p rest IH]; intros diskInfos.
  - simpl app. cbn [range_partitions]. unfold ret. rewrite bind_ok.
    destruct (range ign after diskInfos). reflexivity.
  - simpl app. rewrite !range_cons.
    destruct (body ign p diskInfos) as [[ds| |] t]; try reflexivity.
    rewrite !bind_ok, IH.
    destruct (range ign rest ds) as [[ds'| |] t']; cbn [fst snd bind];
      try (rewrite app_nil_r; reflexivity).
    + destruct (range ign after ds') as [o t'']. cbn [fst snd].
      rewrite app_assoc. reflexivity.
    + reflexivity.
    + reflexivity.
Qed.

End RangeMore.

Lemma log_lines_app (t1 t2 : list event) :
  log_lines (t1 ++ t2) = (log_lines t1 ++ log_lines t2)%list.
Proof. unfold log_lines. apply flat_map_app. Qed.

Lemma snd_gather_enumerated disk_Usage filepath_Join ignoreTypes hostProc
    partitions :
  snd (gatherDiskInfo (enumerates partitions) disk_Usage filepath_Join
         ignoreTypes hostProc)
  = PartitionsCall true
      :: snd (range_partitions disk_Usage filepath_Join ignoreTypes hostProc
                partitions []).
Proof. rewrite gather_enumerated. reflexivity. Qed.

(** X5. The run on an enumeration in two parts: when the runs on the parts
    return, the run on the whole returns their records, one list after
    the other, and makes their usage queries and writes their log lines,
    in that order. *)
Theorem records_of_appended_enumerations
    disk_Usage filepath_Join ignoreTypes hostProc before after a b :
  fst (gatherDiskInfo (enumerates before) disk_Usage filepath_Join
         ignoreTypes hostProc) = Ok a ->
  fst (gatherDiskInfo (enumerates after) disk_Usage filepath_Join
         ignoreTypes hostProc) = Ok b ->
  fst (gatherDiskInfo (enumerates (before ++ after)) disk_Usage
         filepath_Join ignoreTypes hostProc) = Ok (a ++ b)%list /\
  usage_calls (snd (gatherDiskInfo (enumerates (before ++ after)) disk_Usage
                      filepath_Join ignoreTypes hostProc))
  = (usage_calls (snd (gatherDiskInfo (enumerates before) disk_Usage
                         filepath_Join ignoreTypes hostProc))
     ++ usage_calls (snd (gatherDiskInfo (enumerates after) disk_Usage
                            filepath_Join ignoreTypes hostProc)))%list /\
  log_lines (snd (gatherDiskInfo (enumerates (before ++ after)) disk_Usage
                    filepath_Join ignoreTypes hostProc))
  = (log_lines (snd (gatherDiskInfo (enumerates before) disk_Usage
                       filepath_Join ignoreTypes hostProc))
     ++ log_lines (snd (gatherDiskInfo (enumerates after) disk_Usage
                          filepath_Join ignoreTypes hostProc)))%list.
Proof.
  rewrite !fst_gather_enumerated, !snd_gather_enumerated.
  intros Ha Hb. rewrite range_app.
  destruct (range_partitions disk_Usage filepath_Join ignoreTypes hostProc
              before []) as [oa ta] eqn:Hra.
  cbn [fst] in Ha. subst oa. rewrite bind_ok.
  rewrite (range_acc disk_Usage filepath_Join hostProc ignoreTypes after a).
  cbn [fst snd]. rewrite Hb. cbn [outcome_map].
  split; [reflexivity|].
  change (PartitionsCall true :: ?t) with ([PartitionsCall true] ++ t)%list.
  rewrite !usage_calls_app, !log_lines_app. cbn [usage_calls log_lines flat_map app].
  split; reflexivity.
Qed.

Lemma records_of_appended_enumerations_witness :
  exists a b,
    fst (gatherDiskInfo (enumerates [Fixture.stale; Fixture.root])
           Fixture.Usage Fixture.Join ["cdrom"] Fixture.hostProc) = Ok a /\
    fst (gatherDiskInfo (enumerates [Fixture.pseudo; Fixture.shm])
           Fixture.Usage Fixture.Join ["cdrom"] Fixture.hostProc) = Ok b /\
    fst (gatherDiskInfo
           (enumerates ([Fixture.stale; Fixture.root]
                        ++ [Fixture.pseudo; Fixture.shm]))
           Fixture.Usage Fixture.Join ["cdrom"] Fixture.hostProc)
    = Ok (a ++ b)%list.
Proof.
  eexists. eexists.
  split; [vm_compute; reflexivity|].
  split; [vm_compute; reflexivity|].
  refine (proj1 (records_of_appended_enumerations
                   Fixture.Usage Fixture.Join ["cdrom"] Fixture.hostProc
                   [Fixture.stale; Fixture.root]
                   [Fixture.pseudo; Fixture.shm] _ _ _ _));
    vm_compute; reflexivity.
Defined.

(** ** The ignore list *)

Section IgnoreList.

Variable disk_Usage : string -> disk.UsageStat + error.
Variable filepath_Join : string -> string -> string.
Variable hostProc : string.

Local Abbreviation body ign :=
  (loop_body disk_Usage filepath_Join ign hostProc).
Local Abbreviation range ign :=
  (range_partitions disk_Usage filepath_Join ign hostProc).

Lemma filter_app_one {A} (f : A -> bool) (l : list A) (x : A) :
  filter f (l ++ [x]) = (filter f l ++ if f x then [x] else [])%list.
Proof. rewrite filter_app. simpl. destruct (f x); reflexivity. Qed.

Lemma new_DiskInfo_returns p u d t :
  new_DiskInfo p u = (Ok d, t) -> emitted p u d /\ t = [].
Proof.
  unfold new_DiskInfo, lift.
  destruct (humanReadableSize (disk.Total u)) as [hs| |] eqn:Hs;
    cbn [bind]; try discriminate.
  destruct (humanReadableSize (disk.Used u)) as [hu| |] eqn:Hu;
    cbn [bind]; try discriminate.
  destruct (humanReadableSize (disk.Free u)) as [hf| |] eqn:Hf;
    cbn [bind ret app]; try discriminate.
  intros [= <- <-]. split; [|reflexivity].
  unfold emitted. cbn [Device Type_ Size Used Free HumanSize HumanUsed
                       HumanFree UsedPercent FreePercent].
  repeat split; assumption.
Qed.

(** A turn with an ignore list, against the turn without one. *)
Lemma body_ignore_filter ign p diskInfos out t :
  body [] p diskInfos = (Ok out, t) ->
  fst (body ign p (filter (type_allowed ign) diskInfos))
  = Ok (filter (type_allowed ign) out).
Proof.
  unfold loop_body.
  destruct (String.eqb (disk.Mountpoint p) "").
  { simpl. intros [= <- _]. reflexivity. }
  unfold call_Usage. simpl.
  destruct (disk_Usage (filepath_Join hostProc (disk.Mountpoint p)))
    as [u|err].
  2:{ simpl. intros [= <- _]. reflexivity. }
  destruct (disk.Total u =? 0).
  { simpl. intros [= <- _]. reflexivity. }
  destruct (new_DiskInfo p u) as [[d| |] t'] eqn:Hn;
    simpl; try discriminate.
  destruct (new_DiskInfo_returns p u d t' Hn) as [(_ & Hty & _) _].
  intros [= <- _]. rewrite filter_app_one.
  assert (Ha : type_allowed ign d = negb (contains ign (disk.Fstype p)))
    by (unfold type_allowed; rewrite Hty; reflexivity).
  rewrite Ha.
  destruct (contains ign (disk.Fstype p)); simpl.
  - rewrite app_nil_r. reflexivity.
  - reflexivity.
Qed.

Lemma range_ignore_filter ign partitions :
  forall diskInfos out,
    fst (range [] partitions diskInfos) = Ok out ->
    fst (range ign partitions (filter (type_allowed ign) diskInfos))
    = Ok (filter (type_allowed ign) out).
Proof.
  induction partitions as [|p rest IH]; intros diskInfos out.
  - simpl. intros [= <-]. reflexivity.
  - rewrite !range_cons.
    destruct (body [] p diskInfos) as [[ds| |] t] eqn:Hb;
      [|simpl; discriminate|simpl; discriminate].
    rewrite bind_ok. cbn [fst]. intros Hrun.
    pose proof (body_ignore_filter ign p diskInfos ds t Hb) as Hb'.
    rewrite (fst_bind_ok _ _ _ Hb'). apply IH. exact Hrun.
Qed.

(** Two ignore lists with the same members. *)
Lemma contains_same_members (l1 l2 : list string) :
  (forall t, In t l1 <-> In t l2) ->
  forall item, contains l1 item = contains l2 item.
Proof.
  intros H item.
  destruct (contains l1 item) eqn:H1; destruct (contains l2 item) eqn:H2;
    try reflexivity.
  - apply contains_In, H, contains_In in H1. congruence.
  - apply contains_In, H, contains_In in H2. congruence.
Qed.

Lemma range_same_members l1 l2 partitions :
  (forall t, In t l1 <-> In t l2) ->
  forall diskInfos,
    range l1 partitions diskInfos = range l2 partitions diskInfos.
Proof.
  intros H. induction partitions as [|p rest IH]; intros diskInfos.
  - reflexivity.
  - rewrite !range_cons.
    assert (Hb : body l1 p diskInfos = body l2 p diskInfos).
    { unfold loop_body. rewrite (contains_same_members l1 l2 H). reflexivity. }
    rewrite Hb. destruct (body l2 p diskInfos) as [[ds| |] t];
      try reflexivity.
    rewrite !bind_ok, IH. reflexivity.
Qed.

End IgnoreList.

(** X4. When the run without an ignore list returns, the run with the
    ignore list returns too, and its records are those of the first whose
    type is not in the list, in the same order. *)
Theorem ignore_list_filters_records
    disk_Usage filepath_Join ignoreTypes hostProc partitions everything :
  fst (gatherDiskInfo (enumerates partitions) disk_Usage filepath_Join
         [] hostProc) = Ok everything ->
  fst (gatherDiskInfo (enumerates partitions) disk_Usage filepath_Join
         ignoreTypes hostProc)
  = Ok (filter (type_allowed ignoreTypes) everything).
Proof.
  rewrite !fst_gather_enumerated. intros H.
  apply (range_ignore_filter disk_Usage filepath_Join hostProc ignoreTypes
           partitions [] everything H).
Qed.

Lemma ignore_list_filters_records_witness :
  exists everything,
    fst (gatherDiskInfo (enumerates [Fixture.shm; Fixture.root])
           Fixture.Usage Fixture.Join [] Fixture.hostProc) = Ok everything /\
    fst (gatherDiskInfo (enumerates [Fixture.shm; Fixture.root])
           Fixture.Usage Fixture.Join ["tmpfs"] Fixture.hostProc)
    = Ok (filter (type_allowed ["tmpfs"]) everything).
Proof.
  eexists. split; [vm_compute; reflexivity|].
  apply ignore_list_filters_records. vm_compute. reflexivity.
Defined.

(** X6. The ignore list is used as a set: two lists with the same members,
    in any order and with any repetitions, give the same run (records,
    queries and log lines). *)
Theorem ignore_list_is_a_set
    disk_Partitions disk_Usage filepath_Join hostProc l1 l2 :
  (forall t, In t l1 <-> In t l2) ->
  gatherDiskInfo disk_Partitions disk_Usage filepath_Join l1 hostProc
  = gatherDiskInfo disk_Partitions disk_Usage filepath_Join l2 hostProc.
Proof.
  intros H. unfold gatherDiskInfo.
  destruct (call_Partitions disk_Partitions true) as [[[ps [err|]]| |] t];
    try reflexivity.
  simpl. rewrite (range_same_members disk_Usage filepath_Join hostProc
                    l1 l2 ps H). reflexivity.
Qed.

Lemma ignore_list_is_a_set_witness :
  gatherDiskInfo (enumerates [Fixture.shm; Fixture.root])
    Fixture.Usage Fixture.Join ["tmpfs"; "cdrom"; "tmpfs"] Fixture.hostProc
  = gatherDiskInfo (enumerates [Fixture.shm; Fixture.root])
      Fixture.Usage Fixture.Join ["cdrom"; "tmpfs"] Fixture.hostProc.
Proof.
  apply ignore_list_is_a_set. intros t. simpl. tauto.
Defined.

(** ** Records, queries and log lines of a run *)

(** X1. With uint64 sizes in the samples, a run returns, whatever the
    ignore list is, and its records are those of the partitions that pass
    the four checks, one each and in the order of the enumeration: device
    and type from the partition, sizes from its sample, and the three
    strings of [humanReadableSize] on the sizes. *)
Theorem run_lists_the_survivors
    disk_Usage filepath_Join ignoreTypes hostProc partitions :
  usage_samples_in_range disk_Usage ->
  exists infos,
    fst (gatherDiskInfo (enumerates partitions) disk_Usage filepath_Join
           ignoreTypes hostProc) = Ok infos /\
    Forall2 (fun p d =>
               exists u,
                 disk_Usage (usage_path filepath_Join hostProc p) = inl u /\
                 emitted p u d)
            (filter (survives disk_Usage filepath_Join ignoreTypes hostProc)
                    partitions)
            infos /\
    (List.length infos <= List.length partitions)%nat.
Proof.
  intros Hr. rewrite fst_gather_enumerated.
  destruct (range_records disk_Usage filepath_Join ignoreTypes hostProc
              partitions Hr []) as (records & Hrun & Hall).
  exists records. split; [exact Hrun|]. split; [exact Hall|].
  rewrite <- (Forall2_length Hall). apply filter_length_le.
Qed.

Lemma run_lists_the_survivors_witness :
  exists infos,
    fst (gatherDiskInfo
           (enumerates [Fixture.shm; Fixture.unmounted; Fixture.stale;
                        Fixture.pseudo; Fixture.root])
           Fixture.Usage Fixture.Join ["tmpfs"] Fixture.hostProc)
    = Ok infos /\
    (List.length infos <= 5)%nat.
Proof.
  destruct (run_lists_the_survivors
              Fixture.Usage Fixture.Join ["tmpfs"] Fixture.hostProc
              [Fixture.shm; Fixture.unmounted; Fixture.stale;
               Fixture.pseudo; Fixture.root]
              fixture_usage_in_range) as (infos & Hrun & _ & Hlen).
  exists infos. split; [exact Hrun|exact Hlen].
Defined.

(** X2. With uint64 sizes in the samples, a run queries the usage of each
    partition that has a mount point exactly once, in the order of the
    enumeration and at the path [filepath.Join(hostProc, mount point)],
    and of no other path; the ignore list does not spare a query. *)
Theorem run_queries_each_mounted_partition_once
    disk_Usage filepath_Join ignoreTypes hostProc partitions :
  usage_samples_in_range disk_Usage ->
  usage_calls (snd (gatherDiskInfo (enumerates partitions) disk_Usage
                      filepath_Join ignoreTypes hostProc))
  = map (usage_path filepath_Join hostProc) (filter mounted partitions).
Proof.
  intros Hr. rewrite snd_gather_enumerated.
  change (usage_calls (PartitionsCall true :: ?t)) with (usage_calls t).
  apply (range_usage_calls disk_Usage filepath_Join ignoreTypes hostProc
           partitions Hr []).
Qed.

Lemma run_queries_each_mounted_partition_once_witness :
  usage_calls (snd (gatherDiskInfo
                      (enumerates [Fixture.shm; Fixture.unmounted;
                                   Fixture.stale; Fixture.root])
                      Fixture.Usage Fixture.Join ["tmpfs"]
                      Fixture.hostProc))
  = ["/proc/mnt/shm"; "/proc/mnt/nfs"; "/proc/mnt/root"].
Proof.
  rewrite (run_queries_each_mounted_partition_once
             Fixture.Usage Fixture.Join ["tmpfs"] Fixture.hostProc
             [Fixture.shm; Fixture.unmounted; Fixture.stale; Fixture.root]
             fixture_usage_in_range).
  reflexivity.
Defined.

Section Accounting.

Variable disk_Usage : string -> disk.UsageStat + error.
Variable filepath_Join : string -> string -> string.
Variable ignoreTypes : list string.
Variable hostProc : string.

Local Abbreviation body :=
  (loop_body disk_Usage filepath_Join ignoreTypes hostProc).
Local Abbreviation range :=
  (range_partitions disk_Usage filepath_Join ignoreTypes hostProc).
Local Abbreviation keeps :=
  (survives disk_Usage filepath_Join ignoreTypes hostProc).

(** A turn appends a record and is silent, or appends nothing and writes
    one log line. *)
Lemma body_record_or_log p diskInfos :
  usage_samples_in_range disk_Usage ->
  exists out t,
    body p diskInfos = (Ok out, t) /\
    ((keeps p = true /\ List.length out = S (List.length diskInfos)
      /\ log_lines t = []) \/
     (keeps p = false /\ out = diskInfos /\ List.length (log_lines t) = 1%nat)).
Proof.
  intros Hr. unfold survives.
  destruct (String.eqb_spec (disk.Mountpoint p) "") as [Hm|Hm].
  { rewrite (body_no_mountpoint disk_Usage filepath_Join ignoreTypes
               hostProc p diskInfos Hm).
    eexists _, _. split; [reflexivity|]. right. auto. }
  destruct (disk_Usage (filepath_Join hostProc (disk.Mountpoint p)))
    as [u|err] eqn:Hu.
  2:{ rewrite (body_usage_error disk_Usage filepath_Join ignoreTypes
                 hostProc p err diskInfos Hm Hu).
      eexists _, _. split; [reflexivity|]. right. auto. }
  destruct (Z.eqb_spec (disk.Total u) 0) as [Ht|Ht].
  { rewrite (body_total_zero disk_Usage filepath_Join ignoreTypes
               hostProc p u diskInfos Hm Hu Ht).
    eexists _, _. split; [reflexivity|]. right. auto. }
  destruct (contains ignoreTypes (disk.Fstype p)) eqn:Hc.
  { rewrite (body_ignored disk_Usage filepath_Join ignoreTypes
               hostProc p u diskInfos Hm Hu Ht Hc).
    eexists _, _. split; [reflexivity|]. right. auto. }
  destruct (body_emits disk_Usage filepath_Join ignoreTypes hostProc
              p u diskInfos Hm Hu Ht Hc (Hr _ _ Hu)) as (d & _ & Hb).
  rewrite Hb. eexists _, _. split; [reflexivity|]. left.
  split; [reflexivity|]. split; [|reflexivity].
  rewrite length_app. cbn [List.length]. lia.
Qed.

Lemma range_accounts partitions :
  usage_samples_in_range disk_Usage ->
  forall diskInfos,
  exists out,
    fst (range partitions diskInfos) = Ok out /\
    (List.length out + List.length (log_lines (snd (range partitions diskInfos)))
     = List.length diskInfos + List.length partitions)%nat /\
    (List.length out = List.length diskInfos + List.length (filter keeps partitions))%nat.
Proof.
  intros Hr. induction partitions as [|p rest IH]; intros diskInfos.
  - exists diskInfos. simpl. split; [reflexivity|]. lia.
  - rewrite range_cons.
    destruct (body_record_or_log p diskInfos Hr) as (ds & t & Hb & Hcase).
    rewrite Hb, bind_ok. cbn [fst snd].
    destruct (IH ds) as (out & Hrun & Hcount & Hlen).
    exists out. split; [exact Hrun|].
    rewrite log_lines_app, length_app. cbn [filter].
    destruct Hcase as [(Hk & Hl & Ht)|(Hk & -> & Ht)]; rewrite Hk;
      cbn [List.length].
    + rewrite Ht. cbn [List.length]. lia.
    + lia.
Qed.

End Accounting.

(** X3. With uint64 sizes in the samples, every partition of the
    enumeration is accounted for once: it gives a record, or it is skipped
    with exactly one log line. So the records and the log lines of a run
    are as many as the partitions, and the records as many as the
    partitions that pass the checks. *)
Theorem every_partition_is_listed_or_logged
    disk_Usage filepath_Join ignoreTypes hostProc partitions :
  usage_samples_in_range disk_Usage ->
  exists infos,
    fst (gatherDiskInfo (enumerates partitions) disk_Usage filepath_Join
           ignoreTypes hostProc) = Ok infos /\
    (List.length infos
     + List.length (log_lines (snd (gatherDiskInfo (enumerates partitions)
                                 disk_Usage filepath_Join ignoreTypes
                                 hostProc)))
     = List.length partitions)%nat /\
    List.length infos
    = List.length (filter (survives disk_Usage filepath_Join ignoreTypes hostProc)
                     partitions).
Proof.
  intros Hr. rewrite fst_gather_enumerated, snd_gather_enumerated.
  destruct (range_accounts disk_Usage filepath_Join ignoreTypes hostProc
              partitions Hr []) as (out & Hrun & Hcount & Hlen).
  exists out. split; [exact Hrun|].
  change (log_lines (PartitionsCall true :: ?t)) with (log_lines t).
  simpl in Hcount, Hlen. split; assumption.
Qed.

Lemma every_partition_is_listed_or_logged_witness :
  exists infos,
    fst (gatherDiskInfo
           (enumerates [Fixture.shm; Fixture.unmounted; Fixture.stale;
                        Fixture.pseudo; Fixture.root])
           Fixture.Usage Fixture.Join ["tmpfs"] Fixture.hostProc)
    = Ok infos /\
    List.length infos = 1%nat.
Proof.
  destruct (every_partition_is_listed_or_logged
              Fixture.Usage Fixture.Join ["tmpfs"] Fixture.hostProc
              [Fixture.shm; Fixture.unmounted; Fixture.stale;
               Fixture.pseudo; Fixture.root]
              fixture_usage_in_range) as (infos & Hrun & _ & Hlen).
  exists infos. split; [exact Hrun|exact Hlen].
Defined.

(** ** The number the size formatter prints *)

Lemma round_half_even_bounds (num den lo hi : Z) :
  0 < den -> lo * den <= num <= hi * den ->
  lo <= Fmt.round_half_even num den <= hi.
Proof.
  intros Hd Hn.
  destruct (round_half_even_spec num den Hd) as [Hq _].
  set (q := Fmt.round_half_even num den) in *. nia.
Qed.

(** The float64 of a size of at least 1024, and how far it is from the
    size. *)
Lemma of_Z_value (b : Z) :
  1024 <= b <= Int.uint64_max ->
  exists m e,
    F64.of_Z b = S754_finite false m e /\
    Zpos (digits2_pos m) = 53 /\
    -42 <= e <= 12 /\
    (e <= 0 -> Zpos m = b * 2 ^ (- e)) /\
    (0 < e -> 2 * Z.abs (Zpos m * 2 ^ e - b) <= 2 ^ e).
Proof.
  unfold Int.uint64_max. intros Hb.
  destruct b as [|pb|pb]; try lia.
  unfold F64.of_Z. cbn [binary_normalize].
  destruct (digits2_bounds pb) as [Hl Hu].
  assert (Hd64 : Zpos (digits2_pos pb) <= 64)
    by (apply pow2_lt_digits; lia).
  assert (Hd11 : 11 <= Zpos (digits2_pos pb)).
  { destruct (Z.le_gt_cases 11 (Zpos (digits2_pos pb))); [assumption|].
    assert (2 ^ Zpos (digits2_pos pb) <= 2 ^ 10)
      by (apply Z.pow_le_mono_r; lia).
    change (2 ^ 10) with 1024 in *. lia. }
  set (db := Zpos (digits2_pos pb)) in *.
  destruct (Z.le_gt_cases db 53) as [Hsmall|Hlarge].
  - destruct (binary_round_exact pb 0) as (mz & Hmz & Hr).
    + fold db. rewrite fexp64. lia.
    + fold db. rewrite fexp64. lia.
    + fold db in Hmz, Hr. rewrite fexp64 in Hmz, Hr.
      replace (Z.max (db + 0 - 53) (-1074)) with (db - 53) in Hmz, Hr by lia.
      exists mz, (db - 53). split; [exact Hr|].
      split; [|split; [lia|split; [|lia]]].
      * rewrite (digits2_shift pb (0 - (db - 53)) mz); [|lia|exact Hmz].
        fold db. lia.
      * intros _. rewrite Hmz.
        replace (0 - (db - 53)) with (- (db - 53)) by lia. reflexivity.
  - set (n := db - 53).
    assert (Hn : 0 < n <= 11) by (unfold n; lia).
    assert (Hpn : 0 < 2 ^ n) by (apply Z.pow_pos_nonneg; lia).
    destruct (binary_round_inexact pb 0 n) as [HQ Hr].
    + lia.
    + fold db. rewrite fexp64. unfold n. lia.
    + lia.
    + destruct (round_half_even_spec (Zpos pb) (2 ^ n) Hpn) as [Hq _].
      set (Q := Fmt.round_half_even (Zpos pb) (2 ^ n)) in *.
      assert (Hl' : 2 ^ 52 * 2 ^ n <= Zpos pb).
      { rewrite <- Z.pow_add_r by lia.
        replace (52 + n) with (db - 1) by (unfold n; lia). exact Hl. }
      assert (H2_52 : 2 ^ 52 = 4503599627370496) by reflexivity.
      assert (H2_53 : 2 ^ 53 = 9007199254740992) by reflexivity.
      assert (HQ52 : 2 ^ 52 <= Q) by nia.
      rewrite Hr.
      destruct (Z.eqb_spec Q 0); [lia|].
      destruct (Z.ltb_spec Q (2 ^ 53)).
      * exists (Z.to_pos Q), (0 + n).
        split; [reflexivity|]. split; [|split; [lia|split; [lia|]]].
        -- apply digits2_unique. rewrite Z2Pos.id by lia.
           change (53 - 1) with 52. lia.
        -- intros _. rewrite Z2Pos.id by lia. simpl (0 + n). exact Hq.
      * exists (Z.to_pos (2 ^ 52)), (0 + n + 1).
        split; [reflexivity|]. split; [reflexivity|].
        split; [lia|split; [lia|]].
        intros _. change (Zpos (Z.to_pos (2 ^ 52))) with (2 ^ 52).
        replace (0 + n + 1) with (n + 1) by lia.
        rewrite Z.pow_add_r by lia. change (2 ^ 1) with 2.
        assert (HQ53 : Q = 2 ^ 53) by lia. rewrite HQ53 in Hq. lia.
Qed.

(** The quotient of a size by the power of 1024 it lies in is a float64
    from 1 to 1024. *)
Lemma quotient_bounds (b k : Z) :
  1024 <= b <= Int.uint64_max -> 1 <= k <= 6 ->
  1024 ^ k <= b < 1024 ^ (k + 1) ->
  exists m e,
    F64.div (F64.of_Z b) (F64.of_Z (1024 ^ k)) = S754_finite false m e /\
    e < 0 /\
    2 ^ (- e) <= Zpos m <= 1024 * 2 ^ (- e).
Proof.
  intros Hb Hk Hbk.
  destruct (of_Z_value b Hb) as (m & e & Hof & Hd & He & Hex & Hin).
  exists m, (e - 10 * k).
  rewrite Hof, of_Z_pow1024 by assumption.
  split; [apply div_pow2; [exact Hd|lia]|].
  assert (Hk1 : 1024 ^ (k + 1) = 1024 * 1024 ^ k)
    by (rewrite Z.pow_add_r by lia; change (1024 ^ 1) with 1024; lia).
  rewrite Hk1 in Hbk. rewrite pow1024_pow2 in Hbk by lia.
  destruct (Z.le_gt_cases e 0) as [Hle|Hgt].
  - split; [lia|]. rewrite (Hex Hle).
    replace (- (e - 10 * k)) with (10 * k + - e) by lia.
    rewrite Z.pow_add_r by lia.
    assert (0 < 2 ^ (- e)) by (apply Z.pow_pos_nonneg; lia).
    nia.
  - assert (Hk5 : 5 <= k).
    { destruct (Z.le_gt_cases 5 k); [assumption|].
      assert (Hlt : b < 1024 * 2 ^ 40).
      { eapply Z.lt_le_trans; [apply Hbk|].
        apply Z.mul_le_mono_nonneg_l; [lia|].
        apply Z.pow_le_mono_r; lia. }
      specialize (Hin Hgt).
      destruct (digits2_bounds m) as [Hml _]. rewrite Hd in Hml.
      assert (2 <= 2 ^ e).
      { change 2 with (2 ^ 1) at 1. apply Z.pow_le_mono_r; lia. }
      change (2 ^ (53 - 1)) with 4503599627370496 in Hml.
      change (2 ^ 40) with 1099511627776 in Hlt. nia. }
    split; [lia|]. specialize (Hin Hgt).
    assert (Hpe : 0 < 2 ^ e) by (apply Z.pow_pos_nonneg; lia).
    assert (Hden : 2 ^ (10 * k) = 2 ^ (- (e - 10 * k)) * 2 ^ e).
    { rewrite <- Z.pow_add_r by lia. f_equal. lia. }
    set (den := 2 ^ (- (e - 10 * k))) in *.
    assert (0 < den) by (apply Z.pow_pos_nonneg; lia).
    rewrite Hden in Hbk. nia.
Qed.

Lemma string_length_append (s1 s2 : string) :
  String.length (s1 ++ s2)
  = (String.length s1 + String.length s2)%nat.
Proof. induction s1 as [|c s1 IH]; simpl; [reflexivity|]. rewrite IH. reflexivity. Qed.

(** [%d] of a number up to 1024 has at most four digits, and at least
    one. *)
Lemma verb_d_length (w : Z) :
  0 <= w <= 1024 ->
  (1 <= String.length (Fmt.verb_d w) <= 4)%nat.
Proof.
  intros Hw.
  assert (Hall : forallb
                   (fun n => let l := String.length
                                        (Fmt.verb_d (Z.of_nat n)) in
                             (1 <=? l)%nat && (l <=? 4)%nat)
                   (seq 0 1025) = true)
    by (vm_compute; reflexivity).
  rewrite forallb_forall in Hall.
  specialize (Hall (Z.to_nat w)).
  rewrite Z2Nat.id in Hall by lia.
  assert (Hin : In (Z.to_nat w) (seq 0 1025)) by (apply in_seq; lia).
  apply Hall in Hin. apply andb_true_iff in Hin. destruct Hin as [H1 H4].
  apply Nat.leb_le in H1. apply Nat.leb_le in H4. lia.
Qed.

Lemma verb_d_digit (w : Z) :
  0 <= w <= 9 -> String.length (Fmt.verb_d w) = 1%nat.
Proof.
  intros Hw.
  assert (Hc : w = 0 \/ w = 1 \/ w = 2 \/ w = 3 \/ w = 4 \/ w = 5 \/
               w = 6 \/ w = 7 \/ w = 8 \/ w = 9) by lia.
  repeat (destruct Hc as [->|Hc]; [reflexivity|]). subst. reflexivity.
Qed.

(** What [humanReadableSize] returns from 1024 on, in terms of the number
    of tenths it prints. *)
Lemma humanReadableSize_tenths (b : Z) :
  Int.is_uint64 b -> 1024 <= b ->
  exists k c t,
    1 <= k <= 6 /\
    1024 ^ k <= b < 1024 ^ (k + 1) /\
    String.get (Z.to_nat (k - 1)) unit_letters = Some c /\
    10 <= t <= 10240 /\
    (forall n, b = n * 1024 ^ k -> t = 10 * n) /\
    humanReadableSize b =
      Ok (Fmt.verb_d (t / 10) ++ "." ++ Fmt.verb_d (t mod 10)
          ++ " " ++ String c "B").
Proof.
  intros Hr Hge.
  destruct (humanReadableSize_loop b Hr Hge) as (k & Hk & Hb & Hrun).
  destruct (index_unit_letters (k - 1) ltac:(lia)) as (c & Hc & Hg).
  assert (Hb' : 1024 <= b <= Int.uint64_max)
    by (unfold Int.is_uint64 in Hr; lia).
  destruct (quotient_bounds b k Hb' Hk Hb) as (m & e & Hq & He & Hm).
  exists k, c, (Fmt.tenths m e).
  assert (Hpe : 0 < 2 ^ (- e)) by (apply Z.pow_pos_nonneg; lia).
  assert (Ht : Fmt.tenths m e
               = Fmt.round_half_even (10 * Zpos m) (2 ^ (- e))).
  { unfold Fmt.tenths. destruct e as [|p|p]; try lia. reflexivity. }
  split; [exact Hk|]. split; [exact Hb|]. split; [exact Hg|].
  split; [|split].
  - rewrite Ht. apply round_half_even_bounds; [exact Hpe|]. lia.
  - intros n Hn. rewrite Ht.
    destruct (of_Z_value b Hb') as (m0 & e0 & Hof & Hd & He0 & Hex & Hin).
    assert (Hq' : F64.div (F64.of_Z b) (F64.of_Z (1024 ^ k))
                  = S754_finite false m0 (e0 - 10 * k)).
    { rewrite Hof, of_Z_pow1024 by assumption.
      apply div_pow2; [exact Hd|lia]. }
    assert (Hmm : m = m0) by congruence.
    assert (Hee : e = e0 - 10 * k) by congruence.
    clear Hq'. subst m e.
    assert (Hm0 : Zpos m0 = n * 2 ^ (- (e0 - 10 * k))).
    { rewrite pow1024_pow2 in Hn by lia.
      destruct (Z.le_gt_cases e0 0) as [Hle|Hgt].
      - rewrite (Hex Hle), Hn.
        replace (- (e0 - 10 * k)) with (10 * k + - e0) by lia.
        rewrite Z.pow_add_r by lia. ring.
      - specialize (Hin Hgt).
        assert (Hpe0 : 0 < 2 ^ e0) by (apply Z.pow_pos_nonneg; lia).
        assert (Hden : 2 ^ (10 * k) = 2 ^ (- (e0 - 10 * k)) * 2 ^ e0).
        { rewrite <- Z.pow_add_r by lia. f_equal. lia. }
        set (den := 2 ^ (- (e0 - 10 * k))) in *.
        rewrite Hden in Hn. subst b.
        replace (Zpos m0 * 2 ^ e0 - n * (den * 2 ^ e0))
          with ((Zpos m0 - n * den) * 2 ^ e0) in Hin by ring.
        rewrite Z.abs_mul, (Z.abs_eq (2 ^ e0)) in Hin by lia.
        destruct (Z.eq_dec (Zpos m0) (n * den)) as [Heq|Hne];
          [exact Heq|].
        assert (1 <= Z.abs (Zpos m0 - n * den)) by lia. nia. }
    rewrite Hm0.
    replace (10 * (n * 2 ^ (- (e0 - 10 * k))))
      with (10 * n * 2 ^ (- (e0 - 10 * k))) by ring.
    apply round_half_even_exact. exact Hpe.
  - unfold humanReadableSize.
    destruct (Z.ltb_spec b unit); [unfold unit in *; lia|].
    rewrite Hrun, Hc, Hq. cbn [Fmt.verb_f1 Fmt.sign_prefix Fmt.verb_c].
    rewrite !append_assoc. reflexivity.
Qed.

(** X7. From 1024 bytes on, the number [humanReadableSize] prints is at
    least 1.0 and at most 1024.0, for every uint64: rounding to one digit
    can reach 1024.0 of a unit, and the formatter does not carry into the
    next one, as one byte less than a MiB shows. *)
Theorem printed_number_is_from_1_to_1024 (b : Z) :
  Int.is_uint64 b -> 1024 <= b ->
  (exists c t,
      humanReadableSize b =
        Ok (Fmt.verb_d (t / 10) ++ "." ++ Fmt.verb_d (t mod 10)
            ++ " " ++ String c "B") /\
      10 <= t <= 10240) /\
  humanReadableSize (1024 ^ 2 - 1) = Ok "1024.0 KB".
Proof.
  intros Hr Hge. split.
  - destruct (humanReadableSize_tenths b Hr Hge)
      as (k & c & t & _ & _ & _ & Ht & _ & Hrun).
    exists c, t. split; assumption.
  - vm_compute. reflexivity.
Qed.

Lemma printed_number_is_from_1_to_1024_witness :
  exists c t,
    humanReadableSize (2 ^ 64 - 1) =
      Ok (Fmt.verb_d (t / 10) ++ "." ++ Fmt.verb_d (t mod 10)
          ++ " " ++ String c "B") /\
    10 <= t <= 10240.
Proof.
  assert (H : Int.is_uint64 (2 ^ 64 - 1))
    by (unfold Int.is_uint64, Int.uint64_max; lia).
  assert (H' : 1024 <= 2 ^ 64 - 1) by lia.
  exact (proj1 (printed_number_is_from_1_to_1024 (2 ^ 64 - 1) H H')).
Defined.

Lemma pow1024_interval_unique (b k k' : Z) :
  0 <= k -> 0 <= k' ->
  1024 ^ k <= b < 1024 ^ (k + 1) ->
  1024 ^ k' <= b < 1024 ^ (k' + 1) ->
  k = k'.
Proof.
  intros Hk Hk' [Hl Hu] [Hl' Hu'].
  destruct (Z.lt_trichotomy k k') as [Hlt|[Heq|Hgt]]; [|exact Heq|].
  - assert (1024 ^ (k + 1) <= 1024 ^ k') by (apply Z.pow_le_mono_r; lia).
    lia.
  - assert (1024 ^ (k' + 1) <= 1024 ^ k) by (apply Z.pow_le_mono_r; lia).
    lia.
Qed.

(** X8. A whole number [n] of units, from 1 to 1023 KB, MB, ..., EB, is
    printed as [n], [".0"] and the unit, exactly, for every such size a
    uint64 holds. *)
Theorem whole_units_print_point_zero (n k : Z) :
  1 <= n < 1024 -> 1 <= k <= 6 ->
  Int.is_uint64 (n * 1024 ^ k) ->
  exists c,
    String.get (Z.to_nat (k - 1)) "KMGTPE" = Some c /\
    humanReadableSize (n * 1024 ^ k)
    = Ok (Fmt.verb_d n ++ ".0 " ++ String c "B").
Proof.
  intros Hn Hk Hr.
  assert (Hp : 0 < 1024 ^ k) by (apply Z.pow_pos_nonneg; lia).
  assert (Hk1 : 1024 ^ (k + 1) = 1024 * 1024 ^ k)
    by (rewrite Z.pow_add_r by lia; change (1024 ^ 1) with 1024; lia).
  assert (Hk0 : 1024 <= 1024 ^ k).
  { change 1024 with (1024 ^ 1) at 1. apply Z.pow_le_mono_r; lia. }
  assert (Hge : 1024 <= n * 1024 ^ k) by nia.
  destruct (humanReadableSize_tenths (n * 1024 ^ k) Hr Hge)
    as (k' & c & t & Hk' & Hb' & Hg & _ & Ht & Hrun).
  assert (Hkk : k = k').
  { apply (pow1024_interval_unique (n * 1024 ^ k)); try lia.
    rewrite Hk1. nia. }
  subst k'. exists c. split; [exact Hg|].
  rewrite Hrun, (Ht n eq_refl).
  replace (10 * n / 10) with n by (rewrite Z.mul_comm, Z.div_mul; lia).
  replace (10 * n mod 10) with 0 by (rewrite Z.mul_comm, Z.mod_mul; lia).
  reflexivity.
Qed.

Lemma whole_units_print_point_zero_witness :
  humanReadableSize (512 * 1024 ^ 5) = Ok "512.0 PB".
Proof.
  assert (Hn : 1 <= 512 < 1024) by lia.
  assert (Hk : 1 <= 5 <= 6) by lia.
  assert (Hr : Int.is_uint64 (512 * 1024 ^ 5))
    by (unfold Int.is_uint64, Int.uint64_max; lia).
  destruct (whole_units_print_point_zero 512 5 Hn Hk Hr) as (c & Hc & Hrun).
  injection Hc as <-. exact Hrun.
Defined.

(** X9. The string of [humanReadableSize] has 3 to 9 characters, for every
    uint64: a table cell of 9 characters always holds it. *)
Theorem humanReadableSize_length (b : Z) :
  Int.is_uint64 b ->
  exists s,
    humanReadableSize b = Ok s /\
    (3 <= String.length s <= 9)%nat.
Proof.
  intros Hr. destruct (Z.lt_ge_cases b 1024) as [Hlt|Hge].
  - exists (Fmt.verb_d b ++ " B"). split.
    + unfold humanReadableSize, unit.
      destruct (Z.ltb_spec b 1024); [reflexivity|lia].
    + rewrite string_length_append.
      assert (Hb : 0 <= b <= 1024) by (unfold Int.is_uint64 in Hr; lia).
      pose proof (verb_d_length b Hb). simpl String.length. lia.
  - destruct (humanReadableSize_tenths b Hr Hge)
      as (k & c & t & _ & _ & _ & Ht & _ & Hrun).
    eexists. split; [exact Hrun|].
    rewrite !string_length_append.
    assert (Hw : 0 <= t / 10 <= 1024).
    { split; [apply Z.div_pos; lia|].
      apply Z.div_le_upper_bound; lia. }
    assert (Hd : 0 <= t mod 10 <= 9).
    { pose proof (Z.mod_pos_bound t 10 ltac:(lia)). lia. }
    pose proof (verb_d_length (t / 10) Hw).
    rewrite (verb_d_digit (t mod 10) Hd). simpl String.length. lia.
Qed.

Lemma humanReadableSize_length_witness :
  exists s,
    humanReadableSize (1024 ^ 2 - 1) = Ok s /\
    (3 <= String.length s <= 9)%nat.
Proof.
  apply humanReadableSize_length.
  unfold Int.is_uint64, Int.uint64_max. lia.
Defined.

(** ** Split and Join *)

Lemma Split_not_nil (s : string) (sep : ascii) : strings.Split s sep <> [].
Proof.
  destruct s as [|c s]; simpl; [discriminate|].
  destruct (Ascii.eqb c sep); [discriminate|].
  destruct (strings.Split s sep); discriminate.
Qed.

Lemma Join_cons (e : string) (rest : list string) (sep : string) :
  rest <> [] ->
  strings.Join (e :: rest) sep = e ++ sep ++ strings.Join rest sep.
Proof. destruct rest; [contradiction|reflexivity]. Qed.

Lemma Join_cons_char (c : ascii) (piece : string) (rest : list string)
    (sep : string) :
  strings.Join (String c piece :: rest) sep
  = String c (strings.Join (piece :: rest) sep).
Proof. destruct rest; reflexivity. Qed.

Lemma Join_Split (s : string) (sep : ascii) :
  strings.Join (strings.Split s sep) (String sep "") = s.
Proof.
  induction s as [|c s IH]; [reflexivity|].
  simpl strings.Split.
  destruct (Ascii.eqb_spec c sep) as [->|Hne].
  - rewrite Join_cons by apply Split_not_nil. rewrite IH. reflexivity.
  - pose proof (Split_not_nil s sep) as Hnn.
    destruct (strings.Split s sep) as [|piece rest]; [contradiction|].
    rewrite Join_cons_char, IH. reflexivity.
Qed.

Lemma Split_no_sep (x : string) (sep : ascii) :
  strings.has_byte sep x = false -> strings.Split x sep = [x].
Proof.
  induction x as [|c x IH]; [reflexivity|].
  simpl. intros H. apply orb_false_iff in H. destruct H as [Hc Hx].
  rewrite Hc, (IH Hx). reflexivity.
Qed.

Lemma Split_piece_sep (x rest : string) (sep : ascii) :
  strings.has_byte sep x = false ->
  strings.Split (x ++ String sep rest) sep = x :: strings.Split rest sep.
Proof.
  induction x as [|c x IH]; intros H.
  - simpl. rewrite Ascii.eqb_refl. reflexivity.
  - simpl in H. apply orb_false_iff in H. destruct H as [Hc Hx].
    simpl. rewrite Hc, (IH Hx). reflexivity.
Qed.

Lemma Split_Join (elems : list string) (sep : ascii) :
  elems <> [] ->
  Forall (fun e => strings.has_byte sep e = false) elems ->
  strings.Split (strings.Join elems (String sep "")) sep = elems.
Proof.
  induction elems as [|e rest IH]; [contradiction|].
  intros _ Hall. inversion Hall as [|? ? He Hrest]; subst.
  destruct rest as [|e' rest'].
  - simpl. apply Split_no_sep. exact He.
  - rewrite Join_cons by discriminate.
    change (e ++ String sep "" ++ strings.Join (e' :: rest') (String sep ""))
      with (e ++ String sep (strings.Join (e' :: rest') (String sep ""))).
    rewrite Split_piece_sep by exact He.
    rewrite IH; [reflexivity|discriminate|exact Hrest].
Qed.

Lemma Split_pieces (s : string) (sep : ascii) :
  Forall (fun piece => strings.has_byte sep piece = false)
         (strings.Split s sep) /\
  List.length (strings.Split s sep) = S (strings.count_byte sep s).
Proof.
  induction s as [|c s [IHf IHl]]; simpl.
  - split; [repeat constructor|reflexivity].
  - destruct (Ascii.eqb c sep) eqn:Hc.
    + split; [constructor; [reflexivity|exact IHf]|].
      simpl. rewrite IHl. reflexivity.
    + destruct (strings.Split s sep) as [|piece rest].
      * simpl in IHl. discriminate.
      * inversion IHf as [|? ? Hp Hr]; subst.
        split; [constructor; [simpl; rewrite Hc, Hp; reflexivity|exact Hr]|].
        simpl in *. exact IHl.
Qed.

(** ** multiStringFlag and the ignore list of main *)

Lemma fold_Set_appends (flags : list string) :
  forall m,
    fold_left (fun m value => fst (multiStringFlag.Set_ m value)) flags m
    = (m ++ flags)%list.
Proof.
  induction flags as [|v flags IH]; intros m; simpl.
  - rewrite app_nil_r. reflexivity.
  - rewrite IH. unfold multiStringFlag.Set_. simpl.
    rewrite <- app_assoc. reflexivity.
Qed.

(** X10. The list read from [DISKINFO_IGNORE_TYPES] prints back, by
    [String], as the variable itself, for every value of it: the entries
    are the pieces between the commas, as they are (not trimmed, not put
    to lower case, empty ones kept). A value that is not empty gives one
    entry more than it has commas, and no entry holds a comma. *)
Theorem env_list_prints_back (envIgnoreTypes : string) :
  multiStringFlag.String (ignoreTypes_of_env envIgnoreTypes)
  = envIgnoreTypes /\
  (envIgnoreTypes <> "" ->
   List.length (ignoreTypes_of_env envIgnoreTypes)
   = S (strings.count_byte comma envIgnoreTypes) /\
   Forall (fun entry => strings.has_byte comma entry = false)
          (ignoreTypes_of_env envIgnoreTypes)).
Proof.
  unfold ignoreTypes_of_env, multiStringFlag.String.
  destruct (String.eqb_spec envIgnoreTypes "") as [->|Hne].
  - split; [reflexivity|]. intros H. contradiction.
  - split; [apply (Join_Split envIgnoreTypes comma)|].
    intros _. destruct (Split_pieces envIgnoreTypes comma) as [Hf Hl].
    split; assumption.
Qed.

(** X11. What [String] prints of a list of ignore types is read back
    from [DISKINFO_IGNORE_TYPES] as the same list, when it prints
    something and no type holds a comma. *)
Theorem printed_list_reads_back (m : multiStringFlag.t) :
  multiStringFlag.String m <> "" ->
  Forall (fun entry => strings.has_byte comma entry = false) m ->
  ignoreTypes_of_env (multiStringFlag.String m) = m.
Proof.
  intros Hne Hall. unfold ignoreTypes_of_env.
  destruct (String.eqb_spec (multiStringFlag.String m) "") as [He|_];
    [contradiction|].
  unfold multiStringFlag.String in *.
  apply (Split_Join m comma); [|exact Hall].
  intros ->. apply Hne. reflexivity.
Qed.

Lemma printed_list_reads_back_witness :
  ignoreTypes_of_env (multiStringFlag.String ["nfs"; ""; "ext4"])
  = ["nfs"; ""; "ext4"].
Proof.
  apply printed_list_reads_back.
  - discriminate.
  - repeat constructor.
Defined.

(** X12. The ignore list main ends with is the entries of the
    environment variable followed by the values of the flag, in the order
    of the command line: [Set] never fails, drops nothing and does not
    replace what the variable gave. So a type is ignored exactly when it
    is a piece of the variable or a value of the flag. *)
Theorem config_is_env_then_flags (envIgnoreTypes : string)
    (flags : list string) :
  ignoreTypes_of_config envIgnoreTypes flags
  = (ignoreTypes_of_env envIgnoreTypes ++ flags)%list /\
  (forall m value, snd (multiStringFlag.Set_ m value) = None) /\
  (forall t,
      contains (ignoreTypes_of_config envIgnoreTypes flags) t = true <->
      (envIgnoreTypes <> "" /\ In t (strings.Split envIgnoreTypes comma))
      \/ In t flags).
Proof.
  assert (Hc : ignoreTypes_of_config envIgnoreTypes flags
               = (ignoreTypes_of_env envIgnoreTypes ++ flags)%list)
    by apply fold_Set_appends.
  split; [exact Hc|]. split; [reflexivity|].
  intros t. rewrite Hc, contains_In, in_app_iff.
  unfold ignoreTypes_of_env.
  destruct (String.eqb_spec envIgnoreTypes "") as [->|Hne].
  - simpl. split; [intros [[]|H]; auto|].
    intros [[H _]|H]; [contradiction|auto].
  - split; [intros [H|H]; auto|]. intros [[_ H]|H]; auto.
Qed.

(** X13. From the configuration to the listing: a type that is a piece of
    [DISKINFO_IGNORE_TYPES] or a value of [--ignore-type] is the type of
    no record of a run with the ignore list main builds. *)
Theorem configured_type_is_never_listed
    disk_Usage filepath_Join hostProc partitions envIgnoreTypes flags t
    infos :
  (envIgnoreTypes <> "" /\ In t (strings.Split envIgnoreTypes comma))
  \/ In t flags ->
  fst (gatherDiskInfo (enumerates partitions) disk_Usage filepath_Join
         (ignoreTypes_of_config envIgnoreTypes flags) hostProc)
  = Ok infos ->
  Forall (fun d => Type_ d <> t) infos.
Proof.
  intros Ht. rewrite fst_gather_enumerated. intros Hrun.
  assert (Hc : contains (ignoreTypes_of_config envIgnoreTypes flags) t
               = true).
  { rewrite contains_In.
    unfold ignoreTypes_of_config. rewrite fold_Set_appends, in_app_iff.
    unfold ignoreTypes_of_env.
    destruct (String.eqb_spec envIgnoreTypes "") as [->|Hne].
    - destruct Ht as [[H _]|H]; [contradiction|auto].
    - destruct Ht as [[_ H]|H]; auto. }
  destruct (range_returns _ _ _ _ _ _ _ Hrun) as (records & -> & Hall).
  simpl. eapply Forall_impl; [|exact Hall].
  intros d (q & v & _ & Hk & Hv & Hd) Heq. unfold survives in Hk.
  rewrite Hv in Hk. destruct Hd as (_ & Hty & _).
  rewrite <- Hty, Heq, Hc in Hk. rewrite !andb_false_r in Hk.
  discriminate.
Qed.

Lemma configured_type_is_never_listed_witness :
  exists infos,
    fst (gatherDiskInfo (enumerates [Fixture.shm; Fixture.root])
           Fixture.Usage Fixture.Join
           (ignoreTypes_of_config "cdrom,tmpfs" ["nfs"]) Fixture.hostProc)
    = Ok infos /\
    Forall (fun d => Type_ d <> "tmpfs") infos.
Proof.
  eexists. split; [vm_compute; reflexivity|].
  apply (configured_type_is_never_listed
           Fixture.Usage Fixture.Join Fixture.hostProc
           [Fixture.shm; Fixture.root] "cdrom,tmpfs" ["nfs"] "tmpfs").
  - left. split; [discriminate|]. simpl. auto.
  - vm_compute. reflexivity.
Defined.

(** ** The earlier revision against the later one *)

Section Revisions.

Variable disk_Usage : string -> disk.UsageStat + error.
Variable filepath_Join : string -> string -> string.
Variable ignoreTypes : list string.
Variable hostProc : string.

(** The usage layer the earlier revision would need to see what the later
    one sees: the query on a mount point answers for the path under
    [hostProc]. *)
Local Abbreviation prefixed :=
  (fun mountpoint => disk_Usage (filepath_Join hostProc mountpoint)).

Lemma revisions_agree_on_a_turn p diskInfos u :
  disk.Mountpoint p <> "" ->
  disk_Usage (filepath_Join hostProc (disk.Mountpoint p)) = inl u ->
  fst (loop_body disk_Usage filepath_Join ignoreTypes hostProc p diskInfos)
  = fst (Earlier.loop_body prefixed ignoreTypes p diskInfos).
Proof.
  intros Hm Hu. unfold loop_body, Earlier.loop_body, call_Usage.
  destruct (String.eqb_spec (disk.Mountpoint p) ""); [contradiction|].
  simpl. rewrite Hu. simpl.
  destruct (disk.Total u =? 0); [reflexivity|].
  destruct (contains ignoreTypes (disk.Fstype p)); [reflexivity|].
  destruct (new_DiskInfo p u) as [[d| |] t]; reflexivity.
Qed.

Lemma revisions_agree_on_the_loop partitions :
  Forall (fun p =>
            disk.Mountpoint p <> "" /\
            exists u,
              disk_Usage (filepath_Join hostProc (disk.Mountpoint p))
              = inl u) partitions ->
  forall diskInfos,
    fst (range_partitions disk_Usage filepath_Join ignoreTypes hostProc
           partitions diskInfos)
    = fst (Earlier.range_partitions prefixed ignoreTypes partitions
             diskInfos).
Proof.
  induction 1 as [|p rest (Hm & u & Hu) _ IH]; intros diskInfos.
  - reflexivity.
  - rewrite range_cons.
    change (Earlier.range_partitions prefixed ignoreTypes (p :: rest)
              diskInfos)
      with (bind (Earlier.loop_body prefixed ignoreTypes p diskInfos)
                 (Earlier.range_partitions prefixed ignoreTypes rest)).
    pose proof (revisions_agree_on_a_turn p diskInfos u Hm Hu) as Hb.
    destruct (loop_body disk_Usage filepath_Join ignoreTypes hostProc p
                diskInfos) as [o t].
    destruct (Earlier.loop_body prefixed ignoreTypes p diskInfos)
      as [o' t'].
    cbn [fst] in Hb. subst o'.
    destruct o as [ds| |]; [|reflexivity|reflexivity].
    rewrite !bind_ok. cbn [fst]. apply IH.
Qed.

End Revisions.

(** X14. On an enumeration whose partitions all have a mount point and a
    usage query that succeeds, the later revision returns what the earlier
    one returns against the usage layer seen through [hostProc]: the
    checks it added change the result only on the partitions they are
    for. *)
Theorem revisions_agree_on_healthy_mounts
    disk_Usage filepath_Join ignoreTypes hostProc partitions :
  Forall (fun p =>
            disk.Mountpoint p <> "" /\
            exists u,
              disk_Usage (filepath_Join hostProc (disk.Mountpoint p))
              = inl u) partitions ->
  fst (gatherDiskInfo (enumerates partitions) disk_Usage filepath_Join
         ignoreTypes hostProc)
  = fst (Earlier.gatherDiskInfo (enumerates partitions)
           (fun mountpoint =>
              disk_Usage (filepath_Join hostProc mountpoint))
           ignoreTypes).
Proof.
  intros H. rewrite fst_gather_enumerated.
  unfold Earlier.gatherDiskInfo, call_Partitions, enumerates.
  simpl.
  rewrite (revisions_agree_on_the_loop disk_Usage filepath_Join ignoreTypes
             hostProc partitions H []).
  destruct (Earlier.range_partitions _ ignoreTypes partitions []).
  reflexivity.
Qed.

Lemma revisions_agree_on_healthy_mounts_witness :
  fst (gatherDiskInfo (enumerates [Fixture.shm; Fixture.pseudo; Fixture.root])
         Fixture.Usage Fixture.Join ["tmpfs"] Fixture.hostProc)
  = fst (Earlier.gatherDiskInfo
           (enumerates [Fixture.shm; Fixture.pseudo; Fixture.root])
           (fun mountpoint =>
              Fixture.Usage (Fixture.Join Fixture.hostProc mountpoint))
           ["tmpfs"]).
Proof.
  apply revisions_agree_on_healthy_mounts.
  repeat constructor; try discriminate; eexists; reflexivity.
Defined.

(** X15. In the earlier revision one mount whose usage query fails costs
    the whole listing: whatever comes before and after it in the
    enumeration, the call panics on the nil sample, when the queries
    before it succeed with uint64 sizes. *)
Theorem earlier_revision_panics_on_a_failing_mount
    disk_Partitions disk_Usage ignoreTypes before bad after err :
  disk_Partitions true = ((before ++ bad :: after)%list, None) ->
  usage_samples_in_range disk_Usage ->
  Forall (fun p => exists u, disk_Usage (disk.Mountpoint p) = inl u)
         before ->
  disk_Usage (disk.Mountpoint bad) = inr err ->
  fst (Earlier.gatherDiskInfo disk_Partitions disk_Usage ignoreTypes)
  = Panic "invalid memory address or nil pointer dereference".
Proof.
  intros Hp Hr Hb Hbad.
  unfold Earlier.gatherDiskInfo, call_Partitions. simpl. rewrite Hp.
  simpl fst. clear Hp.
  assert (Hloop : forall diskInfos,
             fst (Earlier.range_partitions disk_Usage ignoreTypes
                    (before ++ bad :: after) diskInfos)
             = Panic "invalid memory address or nil pointer dereference").
  { induction Hb as [|p rest (u & Hu) _ IH]; intros diskInfos.
    - simpl app.
      change (Earlier.range_partitions disk_Usage ignoreTypes
                (bad :: after) diskInfos)
        with (bind (Earlier.loop_body disk_Usage ignoreTypes bad diskInfos)
                   (Earlier.range_partitions disk_Usage ignoreTypes after)).
      assert (Hturn : Earlier.loop_body disk_Usage ignoreTypes bad diskInfos
                      = (Panic
                           "invalid memory address or nil pointer dereference",
                         [UsageCall (disk.Mountpoint bad)])).
      { unfold Earlier.loop_body, call_Usage. simpl. rewrite Hbad.
        reflexivity. }
      rewrite Hturn. reflexivity.
    - simpl app.
      change (Earlier.range_partitions disk_Usage ignoreTypes
                (p :: rest ++ bad :: after) diskInfos)
        with (bind (Earlier.loop_body disk_Usage ignoreTypes p diskInfos)
                   (Earlier.range_partitions disk_Usage ignoreTypes
                      (rest ++ bad :: after))).
      assert (Hturn : exists ds t,
                 Earlier.loop_body disk_Usage ignoreTypes p diskInfos
                 = (Ok ds, t)).
      { unfold Earlier.loop_body, call_Usage. simpl. rewrite Hu. simpl.
        destruct (disk.Total u =? 0); [eexists _, _; reflexivity|].
        destruct (contains ignoreTypes (disk.Fstype p));
          [eexists _, _; reflexivity|].
        destruct (Hr _ _ Hu) as (Hrt & Hru & Hrf).
        unfold new_DiskInfo, lift.
        destruct (humanReadableSize_returns _ Hrt) as [hs ->].
        destruct (humanReadableSize_returns _ Hru) as [hu ->].
        destruct (humanReadableSize_returns _ Hrf) as [hf ->].
        simpl. eexists _, _. reflexivity. }
      destruct Hturn as (ds & t & ->). rewrite bind_ok. cbn [fst].
      apply IH. }
  destruct (Earlier.range_partitions disk_Usage ignoreTypes
              (before ++ bad :: after) []) as [o t] eqn:Hrun.
  specialize (Hloop []). rewrite Hrun in Hloop. cbn [fst] in Hloop.
  subst o. reflexivity.
Qed.

Lemma fixture_plain_usage_in_range :
  usage_samples_in_range
    (fun mountpoint => Fixture.Usage (Fixture.Join Fixture.hostProc mountpoint)).
Proof.
  intros path u H. exact (fixture_usage_in_range _ u H).
Qed.

Lemma earlier_revision_panics_on_a_failing_mount_witness :
  fst (Earlier.gatherDiskInfo
         (enumerates ([Fixture.root] ++ Fixture.stale :: [Fixture.shm]))
         (fun mountpoint =>
            Fixture.Usage (Fixture.Join Fixture.hostProc mountpoint))
         [])
  = Panic "invalid memory address or nil pointer dereference".
Proof.
  apply (earlier_revision_panics_on_a_failing_mount
           (enumerates ([Fixture.root] ++ Fixture.stale :: [Fixture.shm]))
           _ [] [Fixture.root] Fixture.stale [Fixture.shm]
           "no such file or directory").
  - reflexivity.
  - exact fixture_plain_usage_in_range.
  - repeat constructor. eexists. reflexivity.
  - reflexivity.
Defined.

(** ** The first revision *)

Section FirstRevision.

Variable math_Sin : F64.float64 -> F64.float64.
Variable math_Cos : F64.float64 -> F64.float64.
Variable int_of_other : F64.float64 -> Z.
Variable disk_Usage : string -> disk.UsageStat + error.

Local Abbreviation body :=
  (MainGo.loop_body math_Sin math_Cos int_of_other disk_Usage).
Local Abbreviation range :=
  (MainGo.range_partitions math_Sin math_Cos int_of_other disk_Usage).
Local Abbreviation literal :=
  (MainGo.new_DiskInfo math_Sin math_Cos int_of_other).

Lemma main_bind_ok {A B} (a : A) (t : list MainGo.output)
    (k : A -> MainGo.IO B) :
  MainGo.bind (Ok a, t) k = (fst (k a), (t ++ snd (k a))%list).
Proof. simpl. destruct (k a). reflexivity. Qed.

(** The loop over [ignoreDisks] returns, whatever the list holds. *)
Lemma range_ignoreDisks_returns device ignoreDisks :
  fst (MainGo.range_ignoreDisks device ignoreDisks) = Ok tt.
Proof.
  induction ignoreDisks as [|idisk rest IH]; [reflexivity|].
  simpl MainGo.range_ignoreDisks.
  destruct (MainGo.strings_Contains device idisk);
    unfold MainGo.fmt_Printf, MainGo.emit, MainGo.ret;
    rewrite main_bind_ok; exact IH.
Qed.

(** A turn of the loop: what it returns depends neither on [ignoreDisks]
    nor, beyond being appended to, on the records so far. *)
Lemma main_body_result ignoreDisks p diskInfos :
  fst (body ignoreDisks p diskInfos)
  = match disk_Usage (disk.Mountpoint p) with
    | inr _ => Ok diskInfos
    | inl usage =>
        outcome_map (fun di => (diskInfos ++ [di])%list)
                    (fst (literal p usage))
    end.
Proof.
  unfold MainGo.loop_body, MainGo.emit. rewrite main_bind_ok.
  cbn [fst].
  destruct (disk_Usage (disk.Mountpoint p)) as [usage|err].
  - pose proof (range_ignoreDisks_returns (disk.Device p) ignoreDisks) as Hi.
    destruct (MainGo.range_ignoreDisks (disk.Device p) ignoreDisks)
      as [o t]. cbn [fst] in Hi. subst o.
    rewrite main_bind_ok. cbn [fst].
    destruct (literal p usage) as [[di| |] t']; reflexivity.
  - reflexivity.
Qed.

Lemma main_range_cons ignoreDisks p rest diskInfos :
  range ignoreDisks (p :: rest) diskInfos
  = MainGo.bind (body ignoreDisks p diskInfos) (range ignoreDisks rest).
Proof. reflexivity. Qed.

Lemma main_fst_bind {A B} (m : MainGo.IO A) (k : A -> MainGo.IO B) :
  fst (MainGo.bind m k)
  = match fst m with
    | Ok a => fst (k a)
    | Panic msg => Panic msg
    | OutOfFuel => OutOfFuel
    end.
Proof.
  destruct m as [[a| |] t]; simpl; try reflexivity.
  destruct (k a). reflexivity.
Qed.


Lemma main_literal_returns p u :
  disk.usage_in_range u ->
  exists d t,
    literal p u = (Ok d, t) /\ MainGo.emitted int_of_other p u d.
Proof.
  intros (Hrt & Hru & Hrf).
  destruct (humanReadableSize_returns _ Hrt) as [hs Hhs].
  destruct (humanReadableSize_returns _ Hru) as [hu Hhu].
  destruct (humanReadableSize_returns _ Hrf) as [hf Hhf].
  unfold MainGo.new_DiskInfo, MainGo.lift, MainGo.humanReadable.
  rewrite Hhs, Hhu, Hhf. cbn [MainGo.bind MainGo.ret app].
  eexists _, _. split; [reflexivity|].
  unfold MainGo.emitted.
  cbn [MainGo.Device MainGo.Size MainGo.Used MainGo.Free MainGo.HumanSize
       MainGo.HumanUsed MainGo.HumanFree MainGo.UsedPercent
       MainGo.FreePercent].
  repeat split; assumption.
Qed.

Lemma main_range_records ignoreDisks partitions :
  usage_samples_in_range disk_Usage ->
  forall diskInfos,
  exists records,
    fst (range ignoreDisks partitions diskInfos)
    = Ok (diskInfos ++ records)%list /\
    Forall2 (fun p d =>
               exists u,
                 disk_Usage (disk.Mountpoint p) = inl u /\
                 MainGo.emitted int_of_other p u d)
            (filter (MainGo.answered disk_Usage) partitions) records.
Proof.
  intros Hr. induction partitions as [|p rest IH]; intros diskInfos.
  - exists []. simpl. rewrite app_nil_r. split; [reflexivity|constructor].
  - rewrite main_range_cons, main_fst_bind, main_body_result.
    cbn [filter]. unfold MainGo.answered at 1.
    destruct (disk_Usage (disk.Mountpoint p)) as [u|err] eqn:Hu.
    + destruct (main_literal_returns p u (Hr _ _ Hu)) as (d & t & Hl & Hd).
      rewrite Hl. cbn [fst outcome_map].
      destruct (IH (diskInfos ++ [d])%list) as (records & Hrun & Hall).
      exists (d :: records). split.
      * rewrite Hrun, <- app_assoc. reflexivity.
      * constructor; [|exact Hall]. exists u. split; [exact Hu|exact Hd].
    + apply IH.
Qed.

End FirstRevision.

(** The float64 of a positive uint64 is a positive finite number. *)
Lemma of_Z_finite (b : Z) :
  0 < b <= Int.uint64_max ->
  exists m e, F64.of_Z b = S754_finite false m e.
Proof.
  unfold Int.uint64_max. intros Hb.
  destruct b as [|pb|pb]; try lia.
  unfold F64.of_Z. cbn [binary_normalize].
  destruct (digits2_bounds pb) as [Hl Hu].
  assert (Hd64 : Zpos (digits2_pos pb) <= 64)
    by (apply pow2_lt_digits; lia).
  set (db := Zpos (digits2_pos pb)) in *.
  assert (Hd1 : 1 <= db) by (unfold db; lia).
  destruct (Z.le_gt_cases db 53) as [Hsmall|Hlarge].
  - destruct (binary_round_exact pb 0) as (mz & _ & Hr).
    + fold db. rewrite fexp64. lia.
    + fold db. rewrite fexp64. lia.
    + eexists _, _. exact Hr.
  - set (n := db - 53).
    assert (Hn : 0 < n <= 11) by (unfold n; lia).
    assert (Hpn : 0 < 2 ^ n) by (apply Z.pow_pos_nonneg; lia).
    destruct (binary_round_inexact pb 0 n) as [HQ Hr].
    + lia.
    + fold db. rewrite fexp64. unfold n. lia.
    + lia.
    + destruct (round_half_even_spec (Zpos pb) (2 ^ n) Hpn) as [Hq _].
      set (Q := Fmt.round_half_even (Zpos pb) (2 ^ n)) in *.
      assert (Hl' : 2 ^ 52 * 2 ^ n <= Zpos pb).
      { rewrite <- Z.pow_add_r by lia.
        replace (52 + n) with (db - 1) by (unfold n; lia). exact Hl. }
      assert (H2_52 : 2 ^ 52 = 4503599627370496) by reflexivity.
      assert (HQ52 : 2 ^ 52 <= Q) by nia.
      rewrite Hr.
      destruct (Z.eqb_spec Q 0); [lia|].
      destruct (Z.ltb_spec Q (2 ^ 53)); eexists _, _; reflexivity.
Qed.



(** The records of a call whose enumeration succeeds. *)
Lemma fetch_records
    math_Sin math_Cos int_of_other disk_Partitions disk_Usage
    partitions ignoreDisks diskInfos :
  disk_Partitions false = (partitions, None) ->
  usage_samples_in_range disk_Usage ->
  exists infos,
    fst (MainGo.FetchDiskInfo math_Sin math_Cos int_of_other
           disk_Partitions disk_Usage ignoreDisks diskInfos) = Ok infos /\
    Forall2 (fun p d =>
               exists u,
                 disk_Usage (disk.Mountpoint p) = inl u /\
                 MainGo.emitted int_of_other p u d)
            (filter (MainGo.answered disk_Usage) partitions) infos.
Proof.
  intros H Hr. unfold MainGo.FetchDiskInfo, MainGo.emit.
  rewrite main_bind_ok, H. cbn [fst].
  destruct (main_range_records math_Sin math_Cos int_of_other disk_Usage
              ignoreDisks partitions Hr []) as (records & Hrun & Hall).
  exists records. split; [exact Hrun|exact Hall].
Qed.

(** X16. A call of [FetchDiskInfo] whose enumeration fails leaves the
    global [diskInfos] as the call before left it. After a call whose
    enumeration succeeded, which leaves one record for each partition
    whose usage query answers, a call whose enumeration fails prints the
    error, asks for no usage and returns with those same records in
    place: the page goes on showing the state of the last call that
    worked, where the later [gatherDiskInfo] returns the empty list. *)
Theorem fetch_keeps_the_old_records_on_failure
    math_Sin math_Cos int_of_other disk_Partitions disk_Partitions'
    disk_Usage disk_Usage' partitions partitions' err
    ignoreDisks ignoreDisks' diskInfos :
  disk_Partitions false = (partitions, None) ->
  usage_samples_in_range disk_Usage ->
  disk_Partitions' false = (partitions', Some err) ->
  exists infos,
    fst (MainGo.FetchDiskInfo math_Sin math_Cos int_of_other
           disk_Partitions disk_Usage ignoreDisks diskInfos) = Ok infos /\
    Forall2 (fun p d =>
               exists u,
                 disk_Usage (disk.Mountpoint p) = inl u /\
                 MainGo.emitted int_of_other p u d)
            (filter (MainGo.answered disk_Usage) partitions) infos /\
    MainGo.FetchDiskInfo math_Sin math_Cos int_of_other disk_Partitions'
      disk_Usage' ignoreDisks' infos
    = (Ok infos,
       [MainGo.PartitionsCalled false;
        MainGo.Printed ("Error fetching partitions: " ++ err
                        ++ MainGo.newline)]).
Proof.
  intros Hok Hr Hfail.
  destruct (fetch_records math_Sin math_Cos int_of_other disk_Partitions
              disk_Usage partitions ignoreDisks diskInfos Hok Hr)
    as (infos & Hrun & Hall).
  exists infos. split; [exact Hrun|]. split; [exact Hall|].
  unfold MainGo.FetchDiskInfo, MainGo.emit.
  rewrite main_bind_ok, Hfail. reflexivity.
Qed.

Lemma fetch_keeps_the_old_records_on_failure_witness :
  exists d,
    fst (MainGo.FetchDiskInfo (fun x => x) (fun x => x) (fun _ => 0)
           (enumerates [Fixture.root])
           (fun mountpoint =>
              Fixture.Usage (Fixture.Join Fixture.hostProc mountpoint))
           [] []) = Ok [d] /\
    fst (MainGo.FetchDiskInfo (fun x => x) (fun x => x) (fun _ => 0)
           (fun _ => ([], Some "permission denied"))
           (fun mountpoint =>
              Fixture.Usage (Fixture.Join Fixture.hostProc mountpoint))
           [] [d]) = Ok [d].
Proof.
  destruct (fetch_keeps_the_old_records_on_failure
              (fun x => x) (fun x => x) (fun _ => 0)
              (enumerates [Fixture.root])
              (fun _ => ([], Some "permission denied"))
              (fun mountpoint =>
                 Fixture.Usage (Fixture.Join Fixture.hostProc mountpoint))
              (fun mountpoint =>
                 Fixture.Usage (Fixture.Join Fixture.hostProc mountpoint))
              [Fixture.root] [] "permission denied" [] [] []
              eq_refl fixture_plain_usage_in_range eq_refl)
    as (infos & Hrun & Hall & Hfail).
  inversion Hall as [|p d ps ds _ Hrest]; subst.
  inversion Hrest; subst.
  exists d. split; [exact Hrun|]. rewrite Hfail. reflexivity.
Defined.

(** X18. When the enumeration succeeds and the samples hold uint64 sizes,
    [FetchDiskInfo] returns with one record for each partition whose
    usage query succeeds, in the order of the enumeration, and none for
    the others: a failing mount is left out, a partition without a mount
    point or with a total of 0 is listed as soon as its query answers.
    Each record has the integer part of [used / total * 100] as its used
    percentage and 100 minus it as its free percentage. *)
Theorem fetch_lists_the_answered_partitions
    math_Sin math_Cos int_of_other disk_Partitions disk_Usage
    partitions ignoreDisks diskInfos :
  disk_Partitions false = (partitions, None) ->
  usage_samples_in_range disk_Usage ->
  exists infos,
    fst (MainGo.FetchDiskInfo math_Sin math_Cos int_of_other
           disk_Partitions disk_Usage ignoreDisks diskInfos) = Ok infos /\
    Forall2 (fun p d =>
               exists u,
                 disk_Usage (disk.Mountpoint p) = inl u /\
                 MainGo.emitted int_of_other p u d)
            (filter (MainGo.answered disk_Usage) partitions) infos.
Proof.
  intros H Hr. apply fetch_records; assumption.
Qed.

Lemma fetch_lists_the_answered_partitions_witness :
  exists infos,
    fst (MainGo.FetchDiskInfo (fun x => x) (fun x => x) (fun _ => 0)
           (enumerates [Fixture.stale; Fixture.root])
           (fun mountpoint =>
              Fixture.Usage (Fixture.Join Fixture.hostProc mountpoint))
           [] []) = Ok infos /\
    List.length infos = 1%nat.
Proof.
  destruct (fetch_lists_the_answered_partitions
              (fun x => x) (fun x => x) (fun _ => 0)
              (enumerates [Fixture.stale; Fixture.root])
              (fun mountpoint =>
                 Fixture.Usage (Fixture.Join Fixture.hostProc mountpoint))
              [Fixture.stale; Fixture.root] [] [] eq_refl
              fixture_plain_usage_in_range) as (infos & Hrun & Hall).
  exists infos. split; [exact Hrun|].
  rewrite <- (Forall2_length Hall). reflexivity.
Defined.

(** X19. [FetchDiskInfo] divides by the total without looking at it: for
    a sample with a total of 0 the quotient is NaN (nothing used) or
    +Inf, no int holds it, and the used percentage of the record is
    whatever the implementation makes of the conversion. *)
Theorem fetch_percent_of_an_empty_total
    int_of_other p u d :
  MainGo.emitted int_of_other p u d ->
  Int.is_uint64 (disk.Used u) ->
  disk.Total u = 0 ->
  MainGo.UsedPercent d
  = int_of_other (if disk.Used u =? 0 then S754_nan
                  else S754_infinity false).
Proof.
  intros (_ & _ & _ & _ & _ & _ & _ & Hup & _) Hused Ht.
  rewrite Hup, Ht. unfold Int.is_uint64 in Hused.
  destruct (Z.eqb_spec (disk.Used u) 0) as [->|Hne].
  - reflexivity.
  - destruct (of_Z_finite (disk.Used u) ltac:(lia)) as (m & e & ->).
    reflexivity.
Qed.

Lemma fetch_percent_of_an_empty_total_witness :
  exists d,
    fst (MainGo.FetchDiskInfo (fun x => x) (fun x => x) (fun _ => 0)
           (enumerates [Fixture.pseudo])
           (fun mountpoint =>
              Fixture.Usage (Fixture.Join Fixture.hostProc mountpoint))
           [] []) = Ok [d] /\
    MainGo.UsedPercent d = (fun _ => 0) S754_nan.
Proof.
  destruct (fetch_records
              (fun x => x) (fun x => x) (fun _ => 0)
              (enumerates [Fixture.pseudo])
              (fun mountpoint =>
                 Fixture.Usage (Fixture.Join Fixture.hostProc mountpoint))
              [Fixture.pseudo] [] [] eq_refl
              fixture_plain_usage_in_range) as (infos & Hrun & Hall).
  inversion Hall as [|p d ps ds (u & Hu & Hd) Hrest]; subst.
  inversion Hrest; subst. injection Hu as <-.
  exists d. split; [exact Hrun|].
  apply (fetch_percent_of_an_empty_total (fun _ => 0) Fixture.pseudo
           Fixture.pseudo_usage d Hd).
  - unfold Int.is_uint64, Int.uint64_max. simpl. lia.
  - reflexivity.
Defined.

(** ** The revision with the pie charts *)

Lemma append_nil_r (s : string) : s ++ "" = s.
Proof. induction s as [|c s IH]; simpl; [reflexivity|]. rewrite IH. reflexivity. Qed.

(** Below [2 ^ 53] the float64 of an integer is the integer. *)
Lemma of_Z_exact (b : Z) :
  0 < b < 2 ^ 53 ->
  exists m e,
    F64.of_Z b = S754_finite false m e /\
    e <= 0 /\ Zpos m = b * 2 ^ (- e).
Proof.
  intros Hb. destruct b as [|pb|pb]; try lia.
  unfold F64.of_Z. cbn [binary_normalize].
  assert (Hd : Zpos (digits2_pos pb) <= 53) by (apply pow2_lt_digits; lia).
  set (db := Zpos (digits2_pos pb)) in *.
  assert (Hd1 : 1 <= db) by (unfold db; lia).
  destruct (binary_round_exact pb 0) as (mz & Hmz & Hr).
  - fold db. rewrite fexp64. lia.
  - fold db. rewrite fexp64. lia.
  - fold db in Hmz, Hr. rewrite fexp64 in Hmz, Hr.
    replace (Z.max (db + 0 - 53) (-1074)) with (db - 53) in Hmz, Hr by lia.
    exists mz, (db - 53). split; [exact Hr|]. split; [lia|].
    rewrite Hmz. replace (0 - (db - 53)) with (- (db - 53)) by lia.
    reflexivity.
Qed.

(** X20. [formatPercent] of the float64 of an integer from 0 to below
    [2 ^ 53] is the decimal integer: whole percentages are printed as
    they are. *)
Theorem formatPercent_of_an_integer (n : Z) :
  0 <= n < 2 ^ 53 ->
  PieChart.formatPercent (F64.of_Z n) = Fmt.verb_d n.
Proof.
  intros Hn. destruct (Z.eq_dec n 0) as [->|Hne]; [reflexivity|].
  destruct (of_Z_exact n ltac:(lia)) as (m & e & Hof & He & Hm).
  rewrite Hof. unfold PieChart.formatPercent, FmtF.verb_f.
  cbn [Fmt.sign_prefix FmtF.fraction]. 
  change (10 ^ Z.of_nat 0) with 1. rewrite Z.div_1_r.
  assert (Ht : FmtF.scaled 0 m e = n).
  { unfold FmtF.scaled. change (10 ^ Z.of_nat 0) with 1.
    destruct e as [|p|p]; [|lia|].
    - change (2 ^ (- 0)) with 1 in Hm. change (2 ^ 0) with 1. lia.
    - rewrite Z.mul_1_l, Hm. change (- Zneg p) with (Zpos p).
      apply round_half_even_exact. apply Z.pow_pos_nonneg; lia. }
  rewrite Ht. simpl. apply append_nil_r.
Qed.

Lemma formatPercent_of_an_integer_witness :
  PieChart.formatPercent (F64.of_Z 100) = "100".
Proof.
  rewrite (formatPercent_of_an_integer 100) by lia. reflexivity.
Defined.

(** [formatPercent] of a positive float64 up to 100. *)
Lemma formatPercent_bounded (m : positive) (e : Z) :
  Zpos m < 2 ^ 53 ->
  F64.leb (S754_finite false m e) F64.hundred = true ->
  exists k,
    0 <= k <= 100 /\
    2 * Z.abs (k * 2 ^ (- e) - Zpos m) <= 2 ^ (- e) /\
    PieChart.formatPercent (S754_finite false m e) = Fmt.verb_d k.
Proof.
  intros Hm Hle. rewrite hundred_eq in Hle. apply leb_finite in Hle.
  assert (He : e < 0) by lia.
  assert (Hp : 0 < 2 ^ (- e)) by (apply Z.pow_pos_nonneg; lia).
  exists (FmtF.scaled 0 m e).
  assert (Ht : FmtF.scaled 0 m e
               = Fmt.round_half_even (Zpos m) (2 ^ (- e))).
  { unfold FmtF.scaled. change (10 ^ Z.of_nat 0) with 1.
    destruct e as [|p|p]; try lia. rewrite Z.mul_1_l. reflexivity. }
  split; [|split].
  - rewrite Ht. apply round_half_even_bounds; [exact Hp|].
    split; [lia|].
    destruct Hle as [Hlt|[-> Hle]].
    + assert (2 ^ 47 <= 2 ^ (- e)) by (apply Z.pow_le_mono_r; lia).
      change (2 ^ 47) with 140737488355328 in *.
      change (2 ^ 53) with 9007199254740992 in *. lia.
    + change (2 ^ (- -46)) with 70368744177664.
      change (Zpos F64.hundred_mantissa) with 7036874417766400 in Hle. lia.
  - rewrite Ht.
    apply (proj1 (round_half_even_spec (Zpos m) (2 ^ (- e)) Hp)).
  - unfold PieChart.formatPercent, FmtF.verb_f.
    cbn [Fmt.sign_prefix FmtF.fraction].
    change (10 ^ Z.of_nat 0) with 1. rewrite Z.div_1_r.
    simpl. apply append_nil_r.
Qed.

(** [binary_round] gives a zero or a number with at most 53 bits. *)
Lemma binary_round_shape (m : positive) (E : Z) :
  fexp F64.prec F64.emax (Zpos (digits2_pos m) + E) <= 970 ->
  binary_round F64.prec F64.emax false m E = S754_zero false \/
  exists mz ez,
    binary_round F64.prec F64.emax false m E = S754_finite false mz ez /\
    Zpos mz < 2 ^ 53.
Proof.
  intros H970.
  set (d := Zpos (digits2_pos m)) in *.
  set (e' := fexp F64.prec F64.emax (d + E)) in *.
  assert (He' : e' = Z.max (d + E - 53) (-1074)) by apply fexp64.
  destruct (Z.le_gt_cases e' E) as [Hfit|Hbig].
  - destruct (binary_round_exact m E Hfit ltac:(fold d; fold e'; lia))
      as (mz & Hmz & Hr).
    fold d in Hmz, Hr. fold e' in Hmz, Hr.
    right. exists mz, e'. split; [exact Hr|].
    pose proof (digits2_shift m (E - e') mz ltac:(lia) Hmz) as Hdz.
    fold d in Hdz.
    destruct (digits2_bounds mz) as [_ Hu].
    eapply Z.lt_le_trans; [exact Hu|]. apply Z.pow_le_mono_r; lia.
  - destruct (binary_round_inexact m E (e' - E)) as [HQ Hr].
    + lia.
    + fold d. fold e'. lia.
    + lia.
    + rewrite Hr.
      set (Q := Fmt.round_half_even (Zpos m) (2 ^ (e' - E))) in *.
      destruct (Z.eqb_spec Q 0) as [HQ0|HQ0]; [left; reflexivity|right].
      destruct (Z.ltb_spec Q (2 ^ 53)) as [Hlt|Hge].
      * eexists _, _. split; [reflexivity|].
        rewrite Z2Pos.id by lia. exact Hlt.
      * eexists _, _. split; [reflexivity|]. reflexivity.
Qed.

(** What is left of 100 after a percentage: a zero or a positive float64
    with at most 53 bits. *)
Lemma hundred_sub_shape (x : F64.float64) :
  F64.valid x = true ->
  F64.leb F64.zero x = true ->
  F64.leb x F64.hundred = true ->
  F64.sub F64.hundred x = S754_zero false \/
  exists mz ez,
    F64.sub F64.hundred x = S754_finite false mz ez /\ Zpos mz < 2 ^ 53.
Proof.
  intros Hv H0 H100. destruct x as [s|s| |s m e].
  - right. exists F64.hundred_mantissa, (-46).
    split; [destruct s; reflexivity|reflexivity].
  - destruct s; discriminate.
  - discriminate.
  - destruct s; [discriminate|].
    rewrite hundred_eq in *. unfold F64.leb in H100.
    apply leb_finite in H100.
    unfold F64.valid, valid_binary, bounded, canonical_mantissa in Hv.
    apply andb_true_iff in Hv. destruct Hv as [Hc He].
    apply Z.eqb_eq in Hc. apply Z.leb_le in He. rewrite fexp64 in Hc.
    destruct (digits2_bounds m) as [Hml Hmu].
    assert (He46 : e <= -46) by lia.
    set (N := -46 - e).
    assert (HN : 0 <= N) by (unfold N; lia).
    assert (Hp : 0 < 2 ^ N) by (apply Z.pow_pos_nonneg; lia).
    rewrite sub_finite, Z.min_r by lia.
    rewrite shl_align_same.
    destruct (shl_align_le F64.hundred_mantissa (-46) e He46) as [HH _].
    fold N in HH. rewrite HH.
    assert (H2_53 : 2 ^ 53 = 9007199254740992) by reflexivity.
    assert (HM : Zpos F64.hundred_mantissa = 7036874417766400) by reflexivity.
    destruct (Zpos F64.hundred_mantissa * 2 ^ N - Zpos m) as [|pD|pD] eqn:HD.
    + left. reflexivity.
    + cbn [binary_normalize]. apply binary_round_shape.
      assert (HDlt : Zpos pD < 2 ^ (53 + N)).
      { rewrite Z.pow_add_r by lia. nia. }
      pose proof (pow2_lt_digits pD (53 + N) HDlt) as HdD.
      rewrite fexp64. unfold N in HdD. lia.
    + exfalso.
      destruct H100 as [Hlt|[Heq Hle]].
      * assert (2 ^ 1 <= 2 ^ N) by (apply Z.pow_le_mono_r; unfold N; lia).
        change (2 ^ 1) with 2 in *.
        assert (Zpos m < 2 ^ 53).
        { eapply Z.lt_le_trans; [exact Hmu|].
          apply Z.pow_le_mono_r; lia. }
        nia.
      * assert (HN0 : N = 0) by (unfold N; lia).
        rewrite HN0 in HD. change (2 ^ 0) with 1 in HD. lia.
Qed.

(** The label of a percentage and of what is left of 100 after it. *)
Lemma labels_of_a_percentage (x : F64.float64) :
  F64.valid x = true ->
  F64.leb F64.zero x = true ->
  F64.leb x F64.hundred = true ->
  (exists k, 0 <= k <= 100 /\
     (PieChart.formatPercent x = Fmt.verb_d k \/
      x = S754_zero true /\ PieChart.formatPercent x = "-0")) /\
  (exists k, 0 <= k <= 100 /\
     PieChart.formatPercent (F64.sub F64.hundred x) = Fmt.verb_d k).
Proof.
  intros Hv H0 H100. split.
  - destruct x as [s|s| |s m e]; try discriminate.
    + exists 0. split; [lia|]. destruct s; [right|left]; split; reflexivity.
    + destruct s; discriminate.
    + destruct s; [discriminate|].
      assert (Hm : Zpos m < 2 ^ 53).
      { unfold F64.valid, valid_binary, bounded, canonical_mantissa in Hv.
        apply andb_true_iff in Hv. destruct Hv as [Hc _].
        apply Z.eqb_eq in Hc. rewrite fexp64 in Hc.
        destruct (digits2_bounds m) as [_ Hmu].
        eapply Z.lt_le_trans; [exact Hmu|].
        apply Z.pow_le_mono_r; lia. }
      destruct (formatPercent_bounded m e Hm H100) as (k & Hk & _ & Hs).
      exists k. split; [exact Hk|left; exact Hs].
  - destruct (hundred_sub_add x Hv H0 H100) as (_ & _ & Hle).
    destruct (hundred_sub_shape x Hv H0 H100) as [Hz|(mz & ez & Hf & Hm)].
    + rewrite Hz. exists 0. split; [lia|reflexivity].
    + rewrite Hf in Hle |- *.
      destruct (formatPercent_bounded mz ez Hm Hle) as (k & Hk & _ & Hs).
      exists k. split; assumption.
Qed.

Section PieRevision.

Variable math_Sin : F64.float64 -> F64.float64.
Variable math_Cos : F64.float64 -> F64.float64.
Variable disk_Partitions : bool -> list disk.PartitionStat * option error.
Variable disk_Usage : string -> disk.UsageStat + error.
Variable ignoreTypes : list string.

Lemma stringIsInSliceOfStrings_contains (s : string) (l : list string) :
  PieChart.stringIsInSliceOfStrings s l = contains l s.
Proof.
  induction l as [|x l IH]; simpl; [reflexivity|].
  rewrite IH. reflexivity.
Qed.

Lemma bind_project {A A' B B'} (f : A -> A') (g : B -> B')
    (m : M A) (m' : M A') (k : A -> M B) (k' : A' -> M B') :
  (outcome_map f (fst m), snd m) = m' ->
  (forall a, (outcome_map g (fst (k a)), snd (k a)) = k' (f a)) ->
  (outcome_map g (fst (bind m k)), snd (bind m k)) = bind m' k'.
Proof.
  intros <- Hk. destruct m as [[a| |] t]; cbn [fst snd outcome_map];
    [|reflexivity|reflexivity].
  rewrite !bind_ok. rewrite <- Hk. reflexivity.
Qed.

Lemma pie_new_DiskInfo_table p u :
  (outcome_map table_fields
     (fst (PieChart.new_DiskInfo math_Sin math_Cos p u)),
   snd (PieChart.new_DiskInfo math_Sin math_Cos p u))
  = new_DiskInfo p u.
Proof.
  unfold PieChart.new_DiskInfo, new_DiskInfo.
  destruct (humanReadableSize (disk.Total u)) as [s1| |];
    [|reflexivity|reflexivity].
  destruct (humanReadableSize (disk.Used u)) as [s2| |];
    [|reflexivity|reflexivity].
  destruct (humanReadableSize (disk.Free u)) as [s3| |];
    [|reflexivity|reflexivity].
  reflexivity.
Qed.

Lemma pie_body_table p diskInfos :
  (outcome_map (map table_fields)
     (fst (PieChart.loop_body math_Sin math_Cos disk_Usage ignoreTypes
             p diskInfos)),
   snd (PieChart.loop_body math_Sin math_Cos disk_Usage ignoreTypes
          p diskInfos))
  = Earlier.loop_body disk_Usage ignoreTypes p (map table_fields diskInfos).
Proof.
  unfold PieChart.loop_body, Earlier.loop_body.
  apply (bind_project (fun r => r)).
  { destruct (call_Usage disk_Usage (disk.Mountpoint p)) as [[r| |] t];
      reflexivity. }
  intros r. apply (bind_project (fun usage => usage)).
  { destruct r; reflexivity. }
  intros usage.
  destruct (disk.Total usage =? 0); [reflexivity|].
  rewrite stringIsInSliceOfStrings_contains.
  destruct (contains ignoreTypes (disk.Fstype p)); [reflexivity|].
  apply (bind_project table_fields).
  { apply pie_new_DiskInfo_table. }
  intros di. cbn [ret fst snd outcome_map]. rewrite map_app. reflexivity.
Qed.

Lemma pie_range_table partitions :
  forall diskInfos,
    (outcome_map (map table_fields)
       (fst (PieChart.range_partitions math_Sin math_Cos disk_Usage
               ignoreTypes partitions diskInfos)),
     snd (PieChart.range_partitions math_Sin math_Cos disk_Usage
            ignoreTypes partitions diskInfos))
    = Earlier.range_partitions disk_Usage ignoreTypes partitions
        (map table_fields diskInfos).
Proof.
  induction partitions as [|p rest IH]; intros diskInfos.
  - reflexivity.
  - cbn [PieChart.range_partitions Earlier.range_partitions].
    apply (bind_project (map table_fields)).
    + apply pie_body_table.
    + intros ds. apply IH.
Qed.

End PieRevision.

(** X21. The revision with the pie charts lists what the revision before
    it lists: a run makes the same calls in the same order, panics when
    the other panics, and its records without the seven fields of the
    chart are the records of the other. *)
Theorem pie_revision_lists_the_same_table
    math_Sin math_Cos disk_Partitions disk_Usage ignoreTypes :
  let run :=
    PieChart.gatherDiskInfo math_Sin math_Cos disk_Partitions disk_Usage
      ignoreTypes in
  (outcome_map (map table_fields) (fst run), snd run)
  = Earlier.gatherDiskInfo disk_Partitions disk_Usage ignoreTypes.
Proof.
  intros run. unfold run, PieChart.gatherDiskInfo, Earlier.gatherDiskInfo.
  apply (bind_project (fun r => r)).
  - destruct (call_Partitions disk_Partitions true) as [[r| |] t];
      reflexivity.
  - intros r. apply (pie_range_table math_Sin math_Cos disk_Usage
                       ignoreTypes (fst r) []).
Qed.

Section PieLabels.

Variable math_Sin : F64.float64 -> F64.float64.
Variable math_Cos : F64.float64 -> F64.float64.
Variable disk_Usage : string -> disk.UsageStat + error.
Variable ignoreTypes : list string.

(** The labels of a record are those of its two percentages, and the
    second percentage is what the first leaves of 100. *)
Local Abbreviation labelled :=
  (fun d : PieChart.DiskInfo =>
     PieChart.FreePercent d = F64.sub F64.hundred (PieChart.UsedPercent d) /\
     PieChart.UsedPercentStr d
     = PieChart.formatPercent (PieChart.UsedPercent d) /\
     PieChart.FreePercentStr d
     = PieChart.formatPercent (PieChart.FreePercent d)).

Lemma pie_new_DiskInfo_labelled p u d :
  fst (PieChart.new_DiskInfo math_Sin math_Cos p u) = Ok d -> labelled d.
Proof.
  unfold PieChart.new_DiskInfo.
  destruct (humanReadableSize (disk.Total u)) as [s1| |];
    [|discriminate|discriminate].
  destruct (humanReadableSize (disk.Used u)) as [s2| |];
    [|discriminate|discriminate].
  destruct (humanReadableSize (disk.Free u)) as [s3| |];
    [|discriminate|discriminate].
  cbv [bind lift ret fst]. intros [= <-].
  repeat split.
Qed.

Lemma pie_body_labelled p diskInfos out :
  Forall labelled diskInfos ->
  fst (PieChart.loop_body math_Sin math_Cos disk_Usage ignoreTypes
         p diskInfos) = Ok out ->
  Forall labelled out.
Proof.
  intros Hacc. unfold PieChart.loop_body.
  change (call_Usage disk_Usage (disk.Mountpoint p))
    with (Ok (disk_Usage (disk.Mountpoint p)),
          [UsageCall (disk.Mountpoint p)]).
  rewrite bind_ok. cbn [fst].
  destruct (disk_Usage (disk.Mountpoint p)) as [u|err];
    [|discriminate].
  cbn [Earlier.deref]. unfold ret at 1. rewrite bind_ok. cbn [fst].
  destruct (disk.Total u =? 0); [intros [= <-]; exact Hacc|].
  destruct (PieChart.stringIsInSliceOfStrings (disk.Fstype p) ignoreTypes);
    [intros [= <-]; exact Hacc|].
  pose proof (pie_new_DiskInfo_labelled p u) as Hnew.
  destruct (PieChart.new_DiskInfo math_Sin math_Cos p u) as [[d| |] t];
    [|discriminate|discriminate].
  rewrite bind_ok. cbn [fst ret]. intros [= <-].
  apply Forall_app. split; [exact Hacc|].
  constructor; [|constructor]. apply Hnew. reflexivity.
Qed.

Lemma pie_range_labelled partitions :
  forall diskInfos out,
    Forall labelled diskInfos ->
    fst (PieChart.range_partitions math_Sin math_Cos disk_Usage ignoreTypes
           partitions diskInfos) = Ok out ->
    Forall labelled out.
Proof.
  induction partitions as [|p rest IH]; intros diskInfos out Hacc.
  - intros [= <-]. exact Hacc.
  - cbn [PieChart.range_partitions].
    pose proof (pie_body_labelled p diskInfos) as Hb.
    destruct (PieChart.loop_body math_Sin math_Cos disk_Usage ignoreTypes
                p diskInfos) as [[ds| |] t];
      [|discriminate|discriminate].
    rewrite bind_ok. cbn [fst]. apply IH. apply Hb; [exact Hacc|reflexivity].
Qed.

End PieLabels.

(** X22. The labels of a chart are whole percentages. A record of a run
    whose used percentage is a float64 from 0 to 100 has for
    [UsedPercentStr] a decimal integer from 0 to 100 ([-0] when the
    percentage is the negative zero) and for [FreePercentStr] a decimal
    integer from 0 to 100: no fraction, no sign, nothing above 100. *)
Theorem pie_labels_are_whole_percentages
    math_Sin math_Cos disk_Partitions disk_Usage ignoreTypes infos d :
  fst (PieChart.gatherDiskInfo math_Sin math_Cos disk_Partitions disk_Usage
         ignoreTypes) = Ok infos ->
  In d infos ->
  F64.valid (PieChart.UsedPercent d) = true ->
  F64.leb F64.zero (PieChart.UsedPercent d) = true ->
  F64.leb (PieChart.UsedPercent d) F64.hundred = true ->
  (exists k, 0 <= k <= 100 /\
     (PieChart.UsedPercentStr d = Fmt.verb_d k \/
      PieChart.UsedPercent d = S754_zero true /\
      PieChart.UsedPercentStr d = "-0")) /\
  (exists k, 0 <= k <= 100 /\ PieChart.FreePercentStr d = Fmt.verb_d k).
Proof.
  intros Hrun Hd Hv H0 H100.
  unfold PieChart.gatherDiskInfo in Hrun.
  change (call_Partitions disk_Partitions true)
    with (Ok (disk_Partitions true), [PartitionsCall true]) in Hrun.
  rewrite bind_ok in Hrun. cbn [fst] in Hrun.
  pose proof (pie_range_labelled math_Sin math_Cos disk_Usage ignoreTypes
                _ [] infos (Forall_nil _) Hrun) as Hall.
  rewrite Forall_forall in Hall.
  destruct (Hall d Hd) as (Hfree & Hus & Hfs).
  rewrite Hus, Hfs, Hfree.
  apply labels_of_a_percentage; assumption.
Qed.

Lemma pie_labels_are_whole_percentages_witness :
  exists d,
    fst (PieChart.gatherDiskInfo (fun x => x) (fun x => x)
           (enumerates [Fixture.shm])
           (fun mountpoint =>
              Fixture.Usage (Fixture.Join Fixture.hostProc mountpoint))
           ["cdrom"]) = Ok [d] /\
    (exists k, 0 <= k <= 100 /\
       (PieChart.UsedPercentStr d = Fmt.verb_d k \/
        PieChart.UsedPercent d = S754_zero true /\
        PieChart.UsedPercentStr d = "-0")) /\
    (exists k, 0 <= k <= 100 /\ PieChart.FreePercentStr d = Fmt.verb_d k).
Proof.
  eexists. split; [vm_compute; reflexivity|].
  eapply (pie_labels_are_whole_percentages (fun x => x) (fun x => x)
            (enumerates [Fixture.shm])
            (fun mountpoint =>
               Fixture.Usage (Fixture.Join Fixture.hostProc mountpoint))
            ["cdrom"]).
  - vm_compute. reflexivity.
  - left. reflexivity.
  - vm_compute. reflexivity.
  - vm_compute. reflexivity.
  - vm_compute. reflexivity.
Defined.

(** ** The percentage of the first revision *)

Lemma round_half_even_mono (a b den : Z) :
  0 < den -> a <= b ->
  Fmt.round_half_even a den <= Fmt.round_half_even b den.
Proof.
  intros Hd Hab.
  destruct (Z.eq_dec a b) as [->|Hne]; [lia|].
  destruct (round_half_even_spec a den Hd) as [Ha _].
  destruct (round_half_even_spec b den Hd) as [Hb _].
  set (qa := Fmt.round_half_even a den) in *.
  set (qb := Fmt.round_half_even b den) in *.
  destruct (Z.le_gt_cases qa qb) as [|Hgt]; [assumption|].
  assert (den <= (qa - qb) * den) by nia.
  nia.
Qed.

(** The float64 of a positive integer that a uint64 holds: a normal
    number, the integer itself when it has at most 53 bits, and the
    integer rounded to 53 bits otherwise. *)
Lemma of_Z_shape (b : positive) :
  Zpos b <= Int.uint64_max ->
  let d := Zpos (digits2_pos b) in
  exists m e,
    F64.of_Z (Zpos b) = S754_finite false m e /\
    Zpos (digits2_pos m) = 53 /\
    ((d <= 53 /\ e = d - 53 /\ Zpos m = Zpos b * 2 ^ (53 - d)) \/
     (53 < d /\
      let Q := Fmt.round_half_even (Zpos b) (2 ^ (d - 53)) in
      2 ^ 52 <= Q <= 2 ^ 53 /\
      ((Q < 2 ^ 53 /\ e = d - 53 /\ Zpos m = Q) \/
       (Q = 2 ^ 53 /\ e = d - 52 /\ Zpos m = 2 ^ 52)))).
Proof.
  intros Hb d. unfold Int.uint64_max in Hb.
  unfold F64.of_Z. cbn [binary_normalize].
  destruct (digits2_bounds b) as [Hl Hu]. fold d in Hl, Hu.
  assert (Hd64 : d <= 64) by (apply pow2_lt_digits; lia).
  assert (Hd1 : 1 <= d) by (unfold d; lia).
  destruct (Z.le_gt_cases d 53) as [Hsmall|Hlarge].
  - destruct (binary_round_exact b 0) as (mz & Hmz & Hr).
    + fold d. rewrite fexp64. lia.
    + fold d. rewrite fexp64. lia.
    + fold d in Hmz, Hr. rewrite fexp64 in Hmz, Hr.
      replace (Z.max (d + 0 - 53) (-1074)) with (d - 53) in Hmz, Hr by lia.
      exists mz, (d - 53). split; [exact Hr|]. split.
      * rewrite (digits2_shift b (0 - (d - 53)) mz); [|lia|exact Hmz].
        fold d. lia.
      * left. split; [exact Hsmall|]. split; [reflexivity|].
        rewrite Hmz. f_equal. f_equal. lia.
  - set (n := d - 53).
    assert (Hn : 0 < n <= 11) by (unfold n; lia).
    assert (Hpn : 0 < 2 ^ n) by (apply Z.pow_pos_nonneg; lia).
    destruct (binary_round_inexact b 0 n) as [HQ Hr].
    + lia.
    + fold d. rewrite fexp64. unfold n. lia.
    + lia.
    + destruct (round_half_even_spec (Zpos b) (2 ^ n) Hpn) as [Hq _].
      set (Q := Fmt.round_half_even (Zpos b) (2 ^ n)) in *.
      assert (Hl' : 2 ^ 52 * 2 ^ n <= Zpos b).
      { rewrite <- Z.pow_add_r by lia.
        replace (52 + n) with (d - 1) by (unfold n; lia). exact Hl. }
      assert (H2_52 : 2 ^ 52 = 4503599627370496) by reflexivity.
      assert (H2_53 : 2 ^ 53 = 9007199254740992) by reflexivity.
      assert (HQ52 : 2 ^ 52 <= Q) by nia.
      rewrite Hr.
      destruct (Z.eqb_spec Q 0); [lia|].
      destruct (Z.ltb_spec Q (2 ^ 53)).
      * exists (Z.to_pos Q), (0 + n).
        split; [reflexivity|]. split.
        -- apply digits2_unique. rewrite Z2Pos.id by lia.
           change (53 - 1) with 52. lia.
        -- right. split; [exact Hlarge|]. split; [lia|]. left.
           split; [assumption|]. split; [unfold n; lia|].
           apply Z2Pos.id. lia.
      * exists (Z.to_pos (2 ^ 52)), (0 + n + 1).
        split; [reflexivity|]. split; [reflexivity|].
        right. split; [exact Hlarge|]. split; [lia|]. right.
        split; [lia|]. split; [unfold n; lia|reflexivity].
Qed.

(** [float64(x)] keeps the order of the positive integers, and keeps
    equal what is equal. *)
Lemma of_Z_ordered (a b : Z) :
  0 < a -> a <= b -> b <= Int.uint64_max ->
  exists ma ea mb eb,
    F64.of_Z a = S754_finite false ma ea /\
    F64.of_Z b = S754_finite false mb eb /\
    Zpos (digits2_pos ma) = 53 /\ Zpos (digits2_pos mb) = 53 /\
    -52 <= ea <= 12 /\ -52 <= eb <= 12 /\
    (ea < eb \/ (ea = eb /\ Zpos ma <= Zpos mb)).
Proof.
  intros Ha Hab Hb.
  destruct a as [|pa|pa]; try lia. destruct b as [|pb|pb]; try lia.
  destruct (of_Z_shape pa ltac:(lia)) as (ma & ea & Hfa & Hda & Hsa).
  destruct (of_Z_shape pb Hb) as (mb & eb & Hfb & Hdb & Hsb).
  cbv zeta in Hsa, Hsb.
  exists ma, ea, mb, eb.
  split; [exact Hfa|]. split; [exact Hfb|].
  split; [exact Hda|]. split; [exact Hdb|].
  destruct (digits2_bounds pa) as [Hal Hau].
  destruct (digits2_bounds pb) as [Hbl Hbu].
  destruct (digits2_bounds ma) as [Hmal Hmau].
  destruct (digits2_bounds mb) as [Hmbl Hmbu].
  rewrite Hda in Hmal, Hmau. rewrite Hdb in Hmbl, Hmbu.
  change (2 ^ (53 - 1)) with (2 ^ 52) in *.
  set (da := Zpos (digits2_pos pa)) in *.
  set (db := Zpos (digits2_pos pb)) in *.
  assert (Hda1 : 1 <= da) by (unfold da; lia).
  assert (Hdb64 : db <= 64).
  { apply pow2_lt_digits. unfold Int.uint64_max in Hb. lia. }
  assert (Hdab : da <= db).
  { destruct (Z.le_gt_cases da db) as [|Hgt]; [assumption|].
    assert (2 ^ db <= 2 ^ (da - 1)) by (apply Z.pow_le_mono_r; lia).
    lia. }
  assert (Hea : -52 <= ea <= 12) by lia.
  assert (Heb : -52 <= eb <= 12) by lia.
  split; [exact Hea|]. split; [exact Heb|].
  destruct (Z.eq_dec da db) as [Heq|Hne].
  - destruct Hsa as [(Hs & -> & Hma)|(Hs & HQa & Hca)];
      destruct Hsb as [(Hs' & -> & Hmb)|(Hs' & HQb & Hcb)]; try lia.
    + right. split; [lia|]. rewrite Hma, Hmb, Heq.
      assert (0 < 2 ^ (53 - db)) by (apply Z.pow_pos_nonneg; lia).
      nia.
    + cbv zeta in *. rewrite Heq in HQa, Hca.
      assert (Hmono : Fmt.round_half_even (Zpos pa) (2 ^ (db - 53))
                      <= Fmt.round_half_even (Zpos pb) (2 ^ (db - 53))).
      { apply round_half_even_mono; [apply Z.pow_pos_nonneg; lia|lia]. }
      lia.
  - destruct Hsa as [(Hs & -> & Hma)|(Hs & HQa & Hca)];
      destruct Hsb as [(Hs' & -> & Hmb)|(Hs' & HQb & Hcb)];
      cbv zeta in *; lia.
Qed.

Lemma round_nearest_even_step (m : Z) (l : location) :
  m <= round_nearest_even m l <= m + 1.
Proof.
  destruct l as [|[]]; simpl; try destruct (Z.even m); lia.
Qed.

(** The second half of [binary_round_aux], on a mantissa that the
    rounding has left with 53 bits or has carried into the 54th. *)
Lemma finish_round (Q E : Z) :
  2 ^ 52 <= Q <= 2 ^ 53 -> -1074 <= E -> E + 1 <= 971 ->
  (let '(mrs, e) := shr_fexp F64.prec F64.emax Q E loc_Exact in
   match shr_m mrs with
   | Z0 => S754_zero false
   | Zpos m =>
       if e <=? F64.emax - F64.prec then S754_finite false m e
       else S754_infinity false
   | Zneg _ => S754_nan
   end)
  = if Q <? 2 ^ 53 then S754_finite false (Z.to_pos Q) E
    else S754_finite false (Z.to_pos (2 ^ 52)) (E + 1).
Proof.
  intros HQ HE HE'.
  assert (H2_52 : 2 ^ 52 = 4503599627370496) by reflexivity.
  assert (H2_53 : 2 ^ 53 = 9007199254740992) by reflexivity.
  destruct Q as [|q|q]; try lia.
  destruct (Z.ltb_spec (Zpos q) (2 ^ 53)) as [Hlt|Hge].
  - assert (Hdq : Zpos (digits2_pos q) = 53).
    { apply digits2_unique. change (53 - 1) with 52. lia. }
    unfold shr_fexp, shr. cbn [Zdigits2 shr_record_of_loc].
    rewrite fexp64, Hdq.
    replace (Z.max (53 + E - 53) (-1074) - E) with 0 by lia.
    cbn [shr_m]. change (F64.emax - F64.prec) with 971.
    destruct (Z.leb_spec E 971); [reflexivity|lia].
  - assert (Hq53 : Zpos q = 2 ^ 53) by lia.
    injection Hq53 as ->.
    unfold shr_fexp, shr. cbn [Zdigits2 shr_record_of_loc].
    rewrite fexp64.
    change (Zpos (digits2_pos 9007199254740992)) with 54.
    replace (Z.max (54 + E - 53) (-1074) - E) with 1 by lia.
    cbn [iter_pos shr_1 shr_m]. change (F64.emax - F64.prec) with 971.
    replace (E + 1 <=? 971) with true by (symmetry; apply Z.leb_le; lia).
    reflexivity.
Qed.

Lemma loc_of_shr_record_of_loc (m : Z) (l : location) :
  loc_of_shr_record (shr_record_of_loc m l) = l.
Proof. destruct l as [|[]]; reflexivity. Qed.

(** [binary_round_aux] on a quotient of 53 or 54 bits, whatever is known
    of the remainder: a normal number, one exponent up for the 54th bit
    and one more when the rounding carries. *)
Lemma binary_round_aux_loc (q : positive) (E : Z) (l : location) :
  53 <= Zpos (digits2_pos q) <= 54 -> -1021 <= E <= 900 ->
  exists mz ez,
    binary_round_aux F64.prec F64.emax false (Zpos q) E l
    = S754_finite false mz ez /\
    Zpos (digits2_pos mz) = 53 /\
    (ez = E + (Zpos (digits2_pos q) - 53) \/
     (ez = E + (Zpos (digits2_pos q) - 53) + 1 /\ Zpos mz = 2 ^ 52)).
Proof.
  intros Hd HE.
  assert (H2_52 : 2 ^ 52 = 4503599627370496) by reflexivity.
  assert (H2_53 : 2 ^ 53 = 9007199254740992) by reflexivity.
  assert (H2_54 : 2 ^ 54 = 18014398509481984) by reflexivity.
  destruct (digits2_bounds q) as [Hl Hu].
  set (d := Zpos (digits2_pos q)) in *.
  assert (Hfinish : forall Q E',
             2 ^ 52 <= Q <= 2 ^ 53 -> E' = E + (d - 53) ->
             exists mz ez,
               (if Q <? 2 ^ 53 then S754_finite false (Z.to_pos Q) E'
                else S754_finite false (Z.to_pos (2 ^ 52)) (E' + 1))
               = S754_finite false mz ez /\
               Zpos (digits2_pos mz) = 53 /\
               (ez = E + (d - 53) \/
                (ez = E + (d - 53) + 1 /\ Zpos mz = 2 ^ 52))).
  { intros Q E' HQ ->.
    destruct (Z.ltb_spec Q (2 ^ 53)) as [Hlt|Hge].
    - exists (Z.to_pos Q), (E + (d - 53)). split; [reflexivity|].
      split; [|left; reflexivity].
      apply digits2_unique. rewrite Z2Pos.id by lia.
      change (53 - 1) with 52. lia.
    - exists (Z.to_pos (2 ^ 52)), (E + (d - 53) + 1).
      split; [reflexivity|]. split; [reflexivity|].
      right. split; reflexivity. }
  unfold binary_round_aux.
  destruct (Z.eq_dec d 53) as [Hd53|Hd54].
  - assert (Hs : shr_fexp F64.prec F64.emax (Zpos q) E l
                 = (shr_record_of_loc (Zpos q) l, E)).
    { unfold shr_fexp, shr. cbn [Zdigits2]. fold d.
      rewrite fexp64, Hd53.
      replace (Z.max (53 + E - 53) (-1074) - E) with 0 by lia.
      reflexivity. }
    rewrite Hs, loc_of_shr_record_of_loc.
    assert (Hm : shr_m (shr_record_of_loc (Zpos q) l) = Zpos q)
      by (destruct l as [|[]]; reflexivity).
    rewrite Hm.
    pose proof (round_nearest_even_step (Zpos q) l) as HQ.
    rewrite Hd53 in Hl, Hu. change (53 - 1) with 52 in Hl.
    rewrite finish_round by lia.
    apply Hfinish; lia.
  - assert (Hd' : d = 54) by lia.
    assert (Hs : shr_fexp F64.prec F64.emax (Zpos q) E l
                 = (shr_1 (shr_record_of_loc (Zpos q) l), E + 1)).
    { unfold shr_fexp, shr. cbn [Zdigits2]. fold d.
      rewrite fexp64, Hd'.
      replace (Z.max (54 + E - 53) (-1074) - E) with 1 by lia.
      reflexivity. }
    rewrite Hs.
    assert (Hm : shr_m (shr_1 (shr_record_of_loc (Zpos q) l))
                 = Zpos q / 2).
    { destruct l as [|[]]; cbn [shr_record_of_loc];
        rewrite shr_1_spec by lia; reflexivity. }
    rewrite Hm.
    pose proof (round_nearest_even_step (Zpos q / 2)
                  (loc_of_shr_record
                     (shr_1 (shr_record_of_loc (Zpos q) l)))) as HQ.
    rewrite Hd' in Hl, Hu. change (54 - 1) with 53 in Hl.
    assert (Hhalf : 2 ^ 52 <= Zpos q / 2 < 2 ^ 53).
    { split.
      - apply Z.div_le_lower_bound; lia.
      - apply Z.div_lt_upper_bound; lia. }
    rewrite finish_round by lia.
    apply Hfinish; lia.
Qed.

Lemma div_eucl_pair (a b : Z) : Z.div_eucl a b = (a / b, a mod b).
Proof.
  unfold Z.div, Z.modulo. destruct (Z.div_eucl a b). reflexivity.
Qed.

(** The float64 quotient of two normal numbers, the first no larger than
    the second: a normal number that is at most 1, and 1 when the two are
    equal. *)
Lemma div_fraction (m1 m2 : positive) (e1 e2 : Z) :
  Zpos (digits2_pos m1) = 53 -> Zpos (digits2_pos m2) = 53 ->
  -52 <= e1 <= 12 -> -52 <= e2 <= 12 ->
  e1 < e2 \/ (e1 = e2 /\ Zpos m1 <= Zpos m2) ->
  exists mq eq,
    F64.div (S754_finite false m1 e1) (S754_finite false m2 e2)
    = S754_finite false mq eq /\
    Zpos (digits2_pos mq) = 53 /\
    -130 <= eq /\
    (eq <= -53 \/ (eq = -52 /\ Zpos mq = 2 ^ 52)) /\
    (e1 = e2 -> m1 = m2 -> eq = -52 /\ Zpos mq = 2 ^ 52).
Proof.
  intros Hd1 Hd2 He1 He2 Hle.
  assert (H2_52 : 2 ^ 52 = 4503599627370496) by reflexivity.
  assert (H2_53 : 2 ^ 53 = 9007199254740992) by reflexivity.
  assert (H2_54 : 2 ^ 54 = 18014398509481984) by reflexivity.
  destruct (digits2_bounds m1) as [Hl1 Hu1].
  destruct (digits2_bounds m2) as [Hl2 Hu2].
  rewrite Hd1 in Hl1, Hu1. rewrite Hd2 in Hl2, Hu2.
  change (53 - 1) with 52 in *.
  unfold F64.div, SFdiv, SFdiv_core_binary.
  cbn [Zdigits2 xorb]. rewrite Hd1, Hd2, fexp64.
  replace (Z.min (Z.max (53 + e1 - (53 + e2) - 53) (-1074)) (e1 - e2))
    with (e1 - e2 - 53) by lia.
  replace (e1 - e2 - (e1 - e2 - 53)) with 53 by lia.
  rewrite Z.shiftl_mul_pow2 by lia.
  rewrite div_eucl_pair.
  set (q := Zpos m1 * 2 ^ 53 / Zpos m2).
  set (r := (Zpos m1 * 2 ^ 53) mod Zpos m2).
  assert (Hq : 2 ^ 52 <= q < 2 ^ 54).
  { unfold q. split.
    - apply Z.div_le_lower_bound; nia.
    - apply Z.div_lt_upper_bound; nia. }
  destruct (Z.eq_dec e1 e2) as [Hee|Hne].
  - destruct (Pos.eq_dec m1 m2) as [Hmm|Hmne].
    + subst m2 e2.
      assert (Hq53 : q = 2 ^ 53).
      { unfold q. rewrite Z.mul_comm. apply Z.div_mul. lia. }
      assert (Hr0 : r = 0).
      { unfold r. rewrite Z.mul_comm. apply Z.mod_mul. lia. }
      rewrite Hq53, Hr0.
      assert (Hloc : new_location (Zpos m1) 0 = loc_Exact).
      { unfold new_location, new_location_even, new_location_odd.
        destruct (Z.even (Zpos m1)); reflexivity. }
      rewrite Hloc. rewrite Z.sub_diag.
      exists (Z.to_pos (2 ^ 52)), (-52).
      split; [reflexivity|]. split; [reflexivity|].
      split; [lia|]. split; [right; split; reflexivity|].
      intros _ _. split; reflexivity.
    + assert (Hlt : Zpos m1 < Zpos m2).
      { assert (Zpos m1 <> Zpos m2) by congruence. lia. }
      assert (Hq53 : q < 2 ^ 53).
      { unfold q. apply Z.div_lt_upper_bound; nia. }
      destruct q as [|pq|pq] eqn:Hqe; try lia.
      assert (Hdq : Zpos (digits2_pos pq) = 53).
      { apply digits2_unique. change (53 - 1) with 52. lia. }
      destruct (binary_round_aux_loc pq (e1 - e2 - 53)
                  (new_location (Zpos m2) r))
        as (mz & ez & Hr & Hdz & Hez).
      * lia.
      * lia.
      * rewrite Hdq in Hez. exists mz, ez. split; [exact Hr|].
        split; [exact Hdz|]. split; [lia|]. split; [lia|].
        intros _ Hmm. contradiction.
  - assert (He : e1 < e2) by lia.
    destruct q as [|pq|pq] eqn:Hqe; try lia.
    assert (Hdq : 53 <= Zpos (digits2_pos pq) <= 54).
    { destruct (digits2_bounds pq) as [Hlq Huq]. split.
      - destruct (Z.le_gt_cases 53 (Zpos (digits2_pos pq)));
          [assumption|].
        assert (2 ^ Zpos (digits2_pos pq) <= 2 ^ 52)
          by (apply Z.pow_le_mono_r; lia).
        lia.
      - apply pow2_lt_digits. lia. }
    destruct (binary_round_aux_loc pq (e1 - e2 - 53)
                (new_location (Zpos m2) r))
      as (mz & ez & Hr & Hdz & Hez).
    + exact Hdq.
    + lia.
    + exists mz, ez. split; [exact Hr|].
      split; [exact Hdz|]. split; [lia|]. split; [lia|].
      intros Hee. lia.
Qed.

(** [int(x)] of a positive float64 that is at most 100. *)
Lemma int_of_percent (other : F64.float64 -> Z) (m : positive) (ez : Z) :
  ez < 0 -> Zpos m <= 100 * 2 ^ (- ez) ->
  Conv.int_of_float other (S754_finite false m ez) = Zpos m / 2 ^ (- ez) /\
  0 <= Zpos m / 2 ^ (- ez) <= 100.
Proof.
  intros Hez Hm.
  assert (Hp : 0 < 2 ^ (- ez)) by (apply Z.pow_pos_nonneg; lia).
  assert (Hk : 0 <= Zpos m / 2 ^ (- ez) <= 100).
  { split.
    - apply Z.div_pos; lia.
    - apply Z.div_le_upper_bound; lia. }
  split; [|exact Hk].
  unfold Conv.int_of_float, Conv.truncate.
  destruct ez as [|p|p]; try lia.
  change (- Zneg p) with (Zpos p) in *.
  set (k := Zpos m / 2 ^ Zpos p) in *.
  destruct (Z.leb_spec (- 2 ^ 63) k) as [_|Hlo];
    [|change (2 ^ 63) with 9223372036854775808 in Hlo; lia].
  destruct (Z.ltb_spec k (2 ^ 63)) as [_|Hhi];
    [|change (2 ^ 63) with 9223372036854775808 in Hhi; lia].
  reflexivity.
Qed.

(** A float64 fraction of at most 1, times 100, as an int: from 0 to 100,
    and 100 when the fraction is 1. *)
Lemma percent_of_fraction (other : F64.float64 -> Z)
    (mq : positive) (eq : Z) :
  Zpos (digits2_pos mq) = 53 -> -130 <= eq ->
  eq <= -53 \/ (eq = -52 /\ Zpos mq = 2 ^ 52) ->
  exists k,
    Conv.int_of_float other
      (F64.mul (S754_finite false mq eq) (F64.of_Z 100)) = k /\
    0 <= k <= 100 /\
    (eq = -52 -> k = 100).
Proof.
  intros Hd Hlo Hle.
  assert (H2_52 : 2 ^ 52 = 4503599627370496) by reflexivity.
  assert (H2_53 : 2 ^ 53 = 9007199254740992) by reflexivity.
  assert (HM : Zpos F64.hundred_mantissa = 100 * 2 ^ 46) by reflexivity.
  assert (HMv : Zpos F64.hundred_mantissa = 7036874417766400)
    by reflexivity.
  destruct (digits2_bounds mq) as [Hl Hu]. rewrite Hd in Hl, Hu.
  change (53 - 1) with 52 in Hl.
  change (F64.of_Z 100) with (S754_finite false F64.hundred_mantissa (-46)).
  unfold F64.mul, SFmul. cbn [xorb].
  set (P := (mq * F64.hundred_mantissa)%positive).
  assert (HP : Zpos P = Zpos mq * Zpos F64.hundred_mantissa)
    by apply Pos2Z.inj_mul.
  destruct (Z.eq_dec eq (-52)) as [Heq|Hne].
  - (* the fraction is 1 *)
    assert (Hmq : Zpos mq = 2 ^ 52) by lia.
    assert (HPv : P = (4503599627370496 * F64.hundred_mantissa)%positive).
    { unfold P. f_equal. lia. }
    rewrite HPv, Heq. exists 100. split; [reflexivity|]. split; [lia|].
    reflexivity.
  - assert (He : eq <= -53) by lia.
    destruct (digits2_bounds P) as [HPl HPu].
    set (dP := Zpos (digits2_pos P)) in *.
    assert (HdP : 105 <= dP <= 106).
    { split.
      - destruct (Z.le_gt_cases 105 dP) as [|Hgt]; [assumption|].
        assert (2 ^ dP <= 2 ^ 104) by (apply Z.pow_le_mono_r; lia).
        change (2 ^ 104) with (2 ^ 52 * 2 ^ 52) in *. nia.
      - apply pow2_lt_digits.
        change (2 ^ 106) with (2 ^ 53 * 2 ^ 53). nia. }
    set (n := dP - 53).
    assert (Hn : 52 <= n <= 53) by (unfold n; lia).
    assert (Hpn : 0 < 2 ^ n) by (apply Z.pow_pos_nonneg; lia).
    destruct (binary_round_aux_shift P (eq + -46) n) as [HQ Hr].
    + lia.
    + fold dP. rewrite fexp64. unfold n. lia.
    + lia.
    + rewrite Hr. clear Hr.
      set (Q := Fmt.round_half_even (Zpos P) (2 ^ n)) in *.
      assert (Hhi : Q <= 100 * 2 ^ (- (eq + -46 + n))).
      { replace (- (eq + -46 + n)) with (46 + (- eq - n)) by lia.
        rewrite Z.pow_add_r by lia. rewrite Z.mul_assoc, <- HM.
        apply (round_half_even_bounds (Zpos P) (2 ^ n) 0); [exact Hpn|].
        split; [lia|].
        rewrite <- Z.mul_assoc, <- Z.pow_add_r by lia.
        replace (- eq - n + n) with (- eq) by lia.
        assert (2 ^ 53 <= 2 ^ (- eq)) by (apply Z.pow_le_mono_r; lia).
        rewrite HP. nia. }
      destruct (Z.eqb_spec Q 0) as [HQ0|HQ0].
      * exists 0. split; [reflexivity|]. split; [lia|]. intros; lia.
      * destruct (Z.ltb_spec Q (2 ^ 53)) as [Hlt|Hge].
        -- destruct (int_of_percent other (Z.to_pos Q) (eq + -46 + n))
             as [Hk Hb].
           ++ lia.
           ++ rewrite Z2Pos.id by lia. exact Hhi.
           ++ eexists. split; [exact Hk|]. split; [exact Hb|].
              intros; lia.
        -- destruct (int_of_percent other (Z.to_pos (2 ^ 52))
                       (eq + -46 + n + 1)) as [Hk Hb].
           ++ lia.
           ++ change (Zpos (Z.to_pos (2 ^ 52))) with (2 ^ 52).
              assert (HQ53 : Q = 2 ^ 53) by lia.
              rewrite HQ53 in Hhi.
              replace (- (eq + -46 + n)) with (- (eq + -46 + n + 1) + 1)
                in Hhi by lia.
              rewrite Z.pow_add_r in Hhi by lia.
              change (2 ^ 1) with 2 in Hhi. lia.
           ++ eexists. split; [exact Hk|]. split; [exact Hb|].
              intros; lia.
Qed.

(** X23. The percentages of [FetchDiskInfo] are percentages. For a sample
    with uint64 sizes, a total that is not zero and no more used than
    the total, [int(used / total * 100)] is an integer from 0 to 100,
    whatever the implementation does on the conversions no int holds, for
    none occurs; the free percentage is 100 minus it, without wrapping,
    and from 0 to 100 too. Nothing used gives 0 and everything used gives
    100, although the two sizes are rounded to float64 first and the
    quotient and the product are rounded again. *)
Theorem fetch_percent_is_from_0_to_100
    int_of_other p u d :
  MainGo.emitted int_of_other p u d ->
  0 <= disk.Used u <= disk.Total u ->
  0 < disk.Total u <= Int.uint64_max ->
  0 <= MainGo.UsedPercent d <= 100 /\
  MainGo.FreePercent d = 100 - MainGo.UsedPercent d /\
  0 <= MainGo.FreePercent d <= 100 /\
  (disk.Used u = 0 -> MainGo.UsedPercent d = 0) /\
  (disk.Used u = disk.Total u -> MainGo.UsedPercent d = 100).
Proof.
  intros (_ & _ & _ & _ & _ & _ & _ & Hup & Hfp) Hused Htotal.
  assert (Hk : 0 <= MainGo.UsedPercent d <= 100 /\
               (disk.Used u = 0 -> MainGo.UsedPercent d = 0) /\
               (disk.Used u = disk.Total u -> MainGo.UsedPercent d = 100)).
  { rewrite Hup. clear Hup Hfp.
    destruct (Z.eq_dec (disk.Used u) 0) as [H0|Hne].
    - rewrite H0.
      destruct (of_Z_finite (disk.Total u) Htotal) as (m & e & ->).
      split; [split; [reflexivity|discriminate]|].
      split; [reflexivity|]. intros; lia.
    - destruct (of_Z_ordered (disk.Used u) (disk.Total u))
        as (ma & ea & mb & eb & Hfa & Hfb & Hda & Hdb & Hea & Heb & Hle);
        [lia|lia|lia|].
      destruct (div_fraction ma mb ea eb Hda Hdb Hea Heb Hle)
        as (mq & eq & Hdiv & Hdq & Hlo & Hone & Hsame).
      destruct (percent_of_fraction int_of_other mq eq Hdq Hlo Hone)
        as (k & Hk & Hb & Hfull).
      rewrite Hfa, Hfb, Hdiv, Hk.
      split; [exact Hb|]. split; [intros; lia|].
      intros Hall. rewrite Hall, Hfb in Hfa.
      injection Hfa as Hm He.
      apply Hfull. apply Hsame; congruence. }
  destruct Hk as (Hb & H0 & H100).
  assert (Hfree : MainGo.FreePercent d = 100 - MainGo.UsedPercent d).
  { rewrite Hfp. apply wrap_int64_small.
    change (2 ^ 63) with 9223372036854775808. lia. }
  split; [exact Hb|]. split; [exact Hfree|].
  split; [lia|]. split; assumption.
Qed.

Lemma fetch_percent_is_from_0_to_100_witness :
  exists d,
    fst (MainGo.FetchDiskInfo (fun x => x) (fun x => x) (fun _ => 0)
           (enumerates [Fixture.root])
           (fun mountpoint =>
              Fixture.Usage (Fixture.Join Fixture.hostProc mountpoint))
           [] []) = Ok [d] /\
    0 <= MainGo.UsedPercent d <= 100 /\
    MainGo.FreePercent d = 100 - MainGo.UsedPercent d.
Proof.
  destruct (fetch_records
              (fun x => x) (fun x => x) (fun _ => 0)
              (enumerates [Fixture.root])
              (fun mountpoint =>
                 Fixture.Usage (Fixture.Join Fixture.hostProc mountpoint))
              [Fixture.root] [] [] eq_refl
              fixture_plain_usage_in_range) as (infos & Hrun & Hall).
  inversion Hall as [|p d ps ds (u & Hu & Hd) Hrest]; subst.
  inversion Hrest; subst. injection Hu as <-.
  exists d. split; [exact Hrun|].
  destruct (fetch_percent_is_from_0_to_100 (fun _ => 0) Fixture.root
              Fixture.root_usage d Hd) as (Hb & Hf & _).
  - simpl. lia.
  - unfold Int.uint64_max. simpl. lia.
  - split; assumption.
Defined.

(** ** The percentages of a record sum to 100 *)

Lemma valid_normal (m : positive) (e : Z) :
  Zpos (digits2_pos m) = 53 -> -1074 <= e <= 971 ->
  F64.valid (S754_finite false m e) = true.
Proof.
  intros Hd He. unfold F64.valid, valid_binary, bounded, canonical_mantissa.
  rewrite Hd, fexp64. change (F64.emax - F64.prec) with 971.
  apply andb_true_iff. split; [apply Z.eqb_eq|apply Z.leb_le]; lia.
Qed.

(** A float64 fraction of at most 1, times 100: a float64 from 0 to
    100. *)
Lemma hundred_times_fraction (mq : positive) (eq : Z) :
  Zpos (digits2_pos mq) = 53 -> -130 <= eq ->
  eq <= -53 \/ (eq = -52 /\ Zpos mq = 2 ^ 52) ->
  let x := F64.mul (S754_finite false mq eq) (F64.of_Z 100) in
  F64.valid x = true /\
  F64.leb F64.zero x = true /\
  F64.leb x F64.hundred = true.
Proof.
  intros Hd Hlo Hle x. subst x.
  assert (H2_52 : 2 ^ 52 = 4503599627370496) by reflexivity.
  assert (H2_53 : 2 ^ 53 = 9007199254740992) by reflexivity.
  assert (HM : Zpos F64.hundred_mantissa = 100 * 2 ^ 46) by reflexivity.
  assert (HMv : Zpos F64.hundred_mantissa = 7036874417766400)
    by reflexivity.
  destruct (digits2_bounds mq) as [Hl Hu]. rewrite Hd in Hl, Hu.
  change (53 - 1) with 52 in Hl.
  change (F64.of_Z 100) with (S754_finite false F64.hundred_mantissa (-46)).
  unfold F64.mul, SFmul. cbn [xorb].
  set (P := (mq * F64.hundred_mantissa)%positive).
  assert (HP : Zpos P = Zpos mq * Zpos F64.hundred_mantissa)
    by apply Pos2Z.inj_mul.
  destruct (Z.eq_dec eq (-52)) as [Heq|Hne].
  - assert (Hmq : Zpos mq = 2 ^ 52) by lia.
    assert (HPv : P = (4503599627370496 * F64.hundred_mantissa)%positive).
    { unfold P. f_equal. lia. }
    rewrite HPv, Heq. repeat split.
  - assert (He : eq <= -53) by lia.
    destruct (digits2_bounds P) as [HPl HPu].
    set (dP := Zpos (digits2_pos P)) in *.
    assert (HdP : 105 <= dP <= 106).
    { split.
      - destruct (Z.le_gt_cases 105 dP) as [|Hgt]; [assumption|].
        assert (2 ^ dP <= 2 ^ 104) by (apply Z.pow_le_mono_r; lia).
        change (2 ^ 104) with (2 ^ 52 * 2 ^ 52) in *. nia.
      - apply pow2_lt_digits.
        change (2 ^ 106) with (2 ^ 53 * 2 ^ 53). nia. }
    set (n := dP - 53).
    assert (Hn : 52 <= n <= 53) by (unfold n; lia).
    assert (Hpn : 0 < 2 ^ n) by (apply Z.pow_pos_nonneg; lia).
    destruct (binary_round_aux_shift P (eq + -46) n) as [HQ Hr].
    + lia.
    + fold dP. rewrite fexp64. unfold n. lia.
    + lia.
    + rewrite Hr. clear Hr.
      set (Q := Fmt.round_half_even (Zpos P) (2 ^ n)) in *.
      assert (Hhi : Q <= Zpos F64.hundred_mantissa * 2 ^ (- eq - n)).
      { apply (round_half_even_bounds (Zpos P) (2 ^ n) 0); [exact Hpn|].
        split; [lia|].
        rewrite <- Z.mul_assoc, <- Z.pow_add_r by lia.
        replace (- eq - n + n) with (- eq) by lia.
        assert (2 ^ 53 <= 2 ^ (- eq)) by (apply Z.pow_le_mono_r; lia).
        rewrite HP. nia. }
      assert (Hlow : 2 ^ 52 <= Q).
      { apply (round_half_even_bounds (Zpos P) (2 ^ n) (2 ^ 52) (2 ^ 53));
          [exact Hpn|].
        rewrite <- !Z.pow_add_r by lia.
        replace (52 + n) with (dP - 1) by (unfold n; lia).
        replace (53 + n) with dP by (unfold n; lia). lia. }
      destruct (Z.eqb_spec Q 0) as [HQ0|HQ0]; [lia|].
      destruct (Z.ltb_spec Q (2 ^ 53)) as [Hlt|Hge].
      * split; [|split].
        -- apply valid_normal; [|lia].
           apply digits2_unique. rewrite Z2Pos.id by lia.
           change (53 - 1) with 52. lia.
        -- reflexivity.
        -- rewrite hundred_eq. apply leb_finite. rewrite Z2Pos.id by lia.
           destruct (Z.eq_dec (eq + -46 + n) (-46)) as [Hz|Hz].
           ++ right. split; [exact Hz|].
              replace (- eq - n) with 0 in Hhi by lia.
              change (2 ^ 0) with 1 in Hhi. lia.
           ++ left. lia.
      * assert (HQ53 : Q = 2 ^ 53) by lia.
        assert (Hgap : 1 <= - eq - n).
        { destruct (Z.le_gt_cases 1 (- eq - n)) as [|Hgt]; [assumption|].
          replace (- eq - n) with 0 in Hhi by lia.
          change (2 ^ 0) with 1 in Hhi. lia. }
        split; [|split].
        -- apply valid_normal; [reflexivity|lia].
        -- reflexivity.
        -- rewrite hundred_eq. apply leb_finite.
           change (Zpos (Z.to_pos (2 ^ 52))) with (2 ^ 52).
           destruct (Z.eq_dec (eq + -46 + n + 1) (-46)) as [Hz|Hz].
           ++ right. split; [exact Hz|lia].
           ++ left. lia.
Qed.

(** A share [a / b * 100] with [0 <= a <= b], computed in float64 from
    two uint64 as [float64(a) / float64(b) * 100], is a float64 from 0 to
    100. This is how a usage layer comes to its percentage: gopsutil with
    the used bytes for [a] and the used and free bytes together for [b],
    the specification with the used bytes and the total. *)
Lemma share_is_a_percentage (a b : Z) :
  0 <= a <= b -> 0 < b <= Int.uint64_max ->
  let x := F64.mul (F64.div (F64.of_Z a) (F64.of_Z b)) (F64.of_Z 100) in
  F64.valid x = true /\
  F64.leb F64.zero x = true /\
  F64.leb x F64.hundred = true.
Proof.
  intros Ha Hb x. subst x.
  destruct (Z.eq_dec a 0) as [->|Hne].
  - destruct (of_Z_finite b Hb) as (m & e & ->). repeat split.
  - destruct (of_Z_ordered a b)
      as (ma & ea & mb & eb & Hfa & Hfb & Hda & Hdb & Hea & Heb & Hle);
      [lia|lia|lia|].
    destruct (div_fraction ma mb ea eb Hda Hdb Hea Heb Hle)
      as (mq & eq & Hdiv & Hdq & Hlo & Hone & _).
    rewrite Hfa, Hfb, Hdiv.
    apply hundred_times_fraction; assumption.
Qed.

(** C4. The percentages of a record sum to 100. The used percentage of a
    record is the one its usage sample reports, and the free percentage
    is 100 minus it: whenever the reported percentage is a float64 from 0
    to 100, the record has [usedPercent + freePercent == 100] exactly, in
    float64 arithmetic, and both percentages lie in [0,100]. The reported
    percentage is such a float64 as soon as the usage layer computes it
    as a share [float64(a) / float64(b) * 100] of two uint64 with
    [0 <= a <= b] and [0 < b]: the used bytes of the total, as the
    specification has it, or of the used and free bytes together, as
    gopsutil has it. This holds of each record of a run, which are those
    of the surviving partitions, whose total is above 0. *)
Theorem percentages_sum_to_hundred
    disk_Usage filepath_Join ignoreTypes hostProc partitions :
  usage_samples_in_range disk_Usage ->
  exists infos,
    fst (gatherDiskInfo (enumerates partitions) disk_Usage filepath_Join
           ignoreTypes hostProc) = Ok infos /\
    Forall2 (fun p d =>
               exists u,
                 disk_Usage (filepath_Join hostProc (disk.Mountpoint p))
                 = inl u /\
                 0 < disk.Total u /\
                 UsedPercent d = disk.UsedPercent u /\
                 (F64.valid (disk.UsedPercent u) = true ->
                  F64.leb F64.zero (disk.UsedPercent u) = true ->
                  F64.leb (disk.UsedPercent u) F64.hundred = true ->
                  sums_to_hundred d) /\
                 (forall a b,
                     0 <= a <= b -> 0 < b <= Int.uint64_max ->
                     disk.UsedPercent u
                     = F64.mul (F64.div (F64.of_Z a) (F64.of_Z b))
                               (F64.of_Z 100) ->
                     sums_to_hundred d))
            (filter (survives disk_Usage filepath_Join ignoreTypes hostProc)
                    partitions)
            infos.
Proof.
  intros Hr.
  destruct (percentages_of_records disk_Usage filepath_Join ignoreTypes
              hostProc partitions Hr) as (infos & Hrun & Hall).
  exists infos. split; [exact Hrun|].
  eapply Forall2_impl; [|exact Hall].
  intros p d (u & Hu & Ht & Hup & Hfp). exists u.
  assert (Hsum : F64.valid (disk.UsedPercent u) = true ->
                 F64.leb F64.zero (disk.UsedPercent u) = true ->
                 F64.leb (disk.UsedPercent u) F64.hundred = true ->
                 sums_to_hundred d).
  { intros Hv H0 H100. unfold sums_to_hundred. rewrite Hfp, Hup.
    destruct (hundred_sub_add (disk.UsedPercent u) Hv H0 H100)
      as (Hsum & Hf0 & Hf100).
    rewrite Hsum. repeat split; assumption. }
  split; [exact Hu|]. split.
  { destruct (Hr _ _ Hu) as (Hrt & _). unfold Int.is_uint64 in Hrt. lia. }
  split; [exact Hup|]. split; [exact Hsum|].
  intros a b Ha Hb Hshare.
  destruct (share_is_a_percentage a b Ha Hb) as (Hv & H0 & H100).
  rewrite <- Hshare in Hv, H0, H100. apply Hsum; assumption.
Qed.

Lemma percentages_sum_to_hundred_witness :
  exists d,
    fst (gatherDiskInfo (enumerates [Fixture.stale; Fixture.root])
           Fixture.Usage Fixture.Join [] Fixture.hostProc) = Ok [d] /\
    sums_to_hundred d.
Proof.
  destruct (percentages_sum_to_hundred
              Fixture.Usage Fixture.Join [] Fixture.hostProc
              [Fixture.stale; Fixture.root] fixture_usage_in_range)
    as (infos & Hrun & Hall).
  inversion Hall as [|p d ps ds (u & Hu & _ & _ & _ & Hd) Hrest Hp Hinfos];
    subst.
  inversion Hrest; subst.
  injection Hu as <-.
  exists d. split; [exact Hrun|].
  apply (Hd 50 90); [lia|unfold Int.uint64_max; lia|reflexivity].
Defined.
